(** * SpiralBot v2.1: the simulation engine of [bue_flashbot_virtual.py]

    A shallow embedding of [BotManager] and of the functions it is made of:
    the rolling price window, the signal, the position life cycle, the ledger
    and the CSV event log.

    Conventions of the embedding.
    - Python floats are read as exact rationals ([Q]); float rounding is not
      modelled.  Comparisons are the boolean ones of the source.
    - [self.positions] and the price snapshot are Python dicts whose
      iteration order (insertion order) decides which position is examined
      first: they are association lists with the dict operations of [Dict].
    - [self.price_history] is only ever looked up by key: a [gmap].
    - Every clock reading ([datetime.now()]) and every random draw
      ([random.uniform]) is an argument supplied by the caller. *)

From Stdlib Require Import QArith Qround Qabs Lqa Lia.
From stdpp Require Import gmap strings list.

(** ** Numbers *)

Definition Qltb (a b : Q) : bool := negb (Qle_bool b a).

(** [max(a, b)] and [min(a, b)] of Python keep the first argument on a tie. *)
Definition py_max (a b : Q) : Q := if Qltb a b then b else a.
Definition py_min (a b : Q) : Q := if Qltb b a then b else a.

Definition py_sum (l : list Q) : Q := fold_left Qplus l (0%Q).

Definition py_max_list (l : list Q) : Q :=
  match l with
  | [] => 0%Q
  | x :: r => fold_left py_max r x
  end.

Definition py_min_list (l : list Q) : Q :=
  match l with
  | [] => 0%Q
  | x :: r => fold_left py_min r x
  end.

(** [round(x, 8)]: nearest multiple of 10^-8, ties to the even one. *)
Definition round_half_even (x : Q) : Z :=
  let f := Qfloor x in
  let r := (x - inject_Z f)%Q in
  if Qltb r (1 # 2) then f
  else if Qltb (1 # 2) r then (f + 1)%Z
  else if Z.even f then f else (f + 1)%Z.

Definition py_round8 (x : Q) : Q :=
  (inject_Z (round_half_even (x * inject_Z 100000000)) / inject_Z 100000000)%Q.

(** [l[-n:]] for [n > 0]. *)
Definition last_n {A} (n : nat) (l : list A) : list A :=
  drop (length l - n) l.

(** ** Dicts with insertion order *)

Module Dict.
Section Ops.
Context {V : Type}.

(** [d.get(k)] *)
Fixpoint get (d : list (string * V)) (k : string) : option V :=
  match d with
  | [] => None
  | (k', v) :: r => if decide (k' = k) then Some v else get r k
  end.

(** [k in d] *)
Definition contains (d : list (string * V)) (k : string) : bool :=
  match get d k with Some _ => true | None => false end.

(** [d.get(k, dflt)] *)
Definition get_default (d : list (string * V)) (k : string) (dflt : V) : V :=
  match get d k with Some v => v | None => dflt end.

(** [d[k] = v]: an existing key keeps its place, a new one goes last. *)
Fixpoint set (d : list (string * V)) (k : string) (v : V) : list (string * V) :=
  match d with
  | [] => [(k, v)]
  | (k', v') :: r =>
    if decide (k' = k) then (k, v) :: r else (k', v') :: set r k v
  end.

(** [del d[k]] *)
Fixpoint del (d : list (string * V)) (k : string) : list (string * V) :=
  match d with
  | [] => []
  | (k', v') :: r => if decide (k' = k) then r else (k', v') :: del r k
  end.

(** [list(d.keys())] *)
Definition keys (d : list (string * V)) : list string := map fst d.

(** What a Python dict guarantees by construction. *)
Definition wf (d : list (string * V)) : Prop := NoDup (keys d).
End Ops.
End Dict.

(** ** Configuration (module constants read from the environment) *)

Record Config := {
  RISK_PER_TRADE : Q;
  SCAN_INTERVAL : Z;
  PORTFOLIO_INITIAL : Q;
  TOP_N : Z;
  TRADE_DURATION : Z;
  TRAILING_STOP_PCT : Q;
  STOP_LOSS_PCT : Q;
  TAKE_PROFIT_PCT : Q;
  FEE_PCT : Q;
  MAX_POSITIONS : Z
}.

(** The values used when no environment variable is set. *)
Definition default_config : Config := {|
  RISK_PER_TRADE := 5 # 100;
  SCAN_INTERVAL := 30;
  PORTFOLIO_INITIAL := 1000;
  TOP_N := 50;
  TRADE_DURATION := 300;
  TRAILING_STOP_PCT := 2 # 100;
  STOP_LOSS_PCT := 3 # 100;
  TAKE_PROFIT_PCT := 5 # 100;
  FEE_PCT := 1 # 1000;
  MAX_POSITIONS := 3
|}.

(** ** Data model *)

Inductive signal := BUY | SELL | HOLD.

(** The third component of what [close_position] and [manage_positions]
    return. *)
Inductive reason := NA | TRAILING_STOP | STOP_LOSS | TAKE_PROFIT | TIMED_EXIT | GRACEFUL.

(** The second component: ["NONE"] or [f"CLOSE_{side}"]. *)
Inductive action := NONE | CLOSE (s : signal).

(** The dict stored under [self.positions[symbol]]. *)
Record Position := {
  entry_price : Q;
  quantity : Q;
  timestamp : Q;
  peak_price : Q;
  side : signal;
  trade_value : Q
}.

Definition set_peak_price (p : Position) (x : Q) : Position :=
  {| entry_price := entry_price p; quantity := quantity p;
     timestamp := timestamp p; peak_price := x; side := side p;
     trade_value := trade_value p |}.

(** The attributes set by [BotManager.__init__] (the HTTP session apart). *)
Record BotManager := {
  prices : list (string * Q);
  price_history : gmap string (list Q);
  cash : Q;
  portfolio_value : Q;
  positions : list (string * Position);
  state_saved : bool;
  last_activity : Q;
  total_api_calls : Z
}.

Definition set_prices (b : BotManager) (x : list (string * Q)) : BotManager :=
  {| prices := x; price_history := price_history b; cash := cash b;
     portfolio_value := portfolio_value b; positions := positions b;
     state_saved := state_saved b; last_activity := last_activity b;
     total_api_calls := total_api_calls b |}.

Definition set_price_history (b : BotManager) (x : gmap string (list Q)) : BotManager :=
  {| prices := prices b; price_history := x; cash := cash b;
     portfolio_value := portfolio_value b; positions := positions b;
     state_saved := state_saved b; last_activity := last_activity b;
     total_api_calls := total_api_calls b |}.

Definition set_cash (b : BotManager) (x : Q) : BotManager :=
  {| prices := prices b; price_history := price_history b; cash := x;
     portfolio_value := portfolio_value b; positions := positions b;
     state_saved := state_saved b; last_activity := last_activity b;
     total_api_calls := total_api_calls b |}.

Definition set_portfolio_value (b : BotManager) (x : Q) : BotManager :=
  {| prices := prices b; price_history := price_history b; cash := cash b;
     portfolio_value := x; positions := positions b;
     state_saved := state_saved b; last_activity := last_activity b;
     total_api_calls := total_api_calls b |}.

Definition set_positions (b : BotManager) (x : list (string * Position)) : BotManager :=
  {| prices := prices b; price_history := price_history b; cash := cash b;
     portfolio_value := portfolio_value b; positions := x;
     state_saved := state_saved b; last_activity := last_activity b;
     total_api_calls := total_api_calls b |}.

Definition set_state_saved (b : BotManager) (x : bool) : BotManager :=
  {| prices := prices b; price_history := price_history b; cash := cash b;
     portfolio_value := portfolio_value b; positions := positions b;
     state_saved := x; last_activity := last_activity b;
     total_api_calls := total_api_calls b |}.

Definition set_last_activity (b : BotManager) (x : Q) : BotManager :=
  {| prices := prices b; price_history := price_history b; cash := cash b;
     portfolio_value := portfolio_value b; positions := positions b;
     state_saved := state_saved b; last_activity := x;
     total_api_calls := total_api_calls b |}.

Definition set_total_api_calls (b : BotManager) (x : Z) : BotManager :=
  {| prices := prices b; price_history := price_history b; cash := cash b;
     portfolio_value := portfolio_value b; positions := positions b;
     state_saved := state_saved b; last_activity := last_activity b;
     total_api_calls := x |}.

#[global] Instance signal_eq_dec : EqDecision signal.
Proof. solve_decision. Defined.
#[global] Instance action_eq_dec : EqDecision action.
Proof. solve_decision. Defined.

(** ** The log file *)

(** One CSV field as handed to [csv.writer]. *)
Inductive cell := CStr (s : string) | CNum (q : Q) | CTime (t : Q).

Definition row := list cell.

#[global] Instance Q_eq_dec : EqDecision Q.
Proof. solve_decision. Defined.
#[global] Instance cell_eq_dec : EqDecision cell.
Proof. solve_decision. Defined.

Definition str_of_signal (s : signal) : string :=
  match s with BUY => "BUY" | SELL => "SELL" | HOLD => "HOLD" end.

Definition str_of_action (a : action) : string :=
  match a with NONE => "NONE" | CLOSE s => "CLOSE_" +:+ str_of_signal s end.

Definition str_of_reason (r : reason) : string :=
  match r with
  | NA => "N/A" | TRAILING_STOP => "TRAILING_STOP" | STOP_LOSS => "STOP_LOSS"
  | TAKE_PROFIT => "TAKE_PROFIT" | TIMED_EXIT => "TIMED_EXIT" | GRACEFUL => "GRACEFUL"
  end.

(** The exceptions the modelled code can meet. *)
Inductive exn := UnsupportedOperation | OSError | ZeroDivisionError | KeyError.

Inductive result (A : Type) := Ok (a : A) | Raise (e : exn).
Arguments Ok {A} a.
Arguments Raise {A} e.

(** The modes of [open]; which of them can be read and written is Python's. *)
Inductive open_mode := Mode_r | Mode_w | Mode_a | Mode_r_plus | Mode_w_plus | Mode_a_plus.

Definition mode_readable (m : open_mode) : bool :=
  match m with
  | Mode_r | Mode_r_plus | Mode_w_plus | Mode_a_plus => true
  | Mode_w | Mode_a => false
  end.

Definition mode_writable (m : open_mode) : bool :=
  match m with Mode_r => false | _ => true end.

(** [LOG_FILE] on disk: its rows when it exists, whether its directory lets
    this process create and write it, and whether this process holds the
    [flock] on it. *)
Record FileSys := {
  content : option (list row);
  can_write : bool;
  locked : bool
}.

Definition set_content (fs : FileSys) (c : option (list row)) : FileSys :=
  {| content := c; can_write := can_write fs; locked := locked fs |}.

Definition set_locked (fs : FileSys) (b : bool) : FileSys :=
  {| content := content fs; can_write := can_write fs; locked := b |}.

(** [LOG_FILE.exists()] *)
Definition file_exists (fs : FileSys) : bool :=
  match content fs with Some _ => true | None => false end.

(** [open(LOG_FILE, mode)] *)
Definition py_open (fs : FileSys) (m : open_mode) : result (FileSys * open_mode) :=
  match m with
  | Mode_r =>
      if file_exists fs then Ok (fs, m) else Raise OSError
  | Mode_r_plus =>
      if file_exists fs && can_write fs then Ok (fs, m) else Raise OSError
  | Mode_w | Mode_w_plus =>
      if can_write fs then Ok (set_content fs (Some []), m) else Raise OSError
  | Mode_a | Mode_a_plus =>
      if can_write fs then
        Ok (match content fs with
            | Some _ => fs
            | None => set_content fs (Some [])
            end, m)
      else Raise OSError
  end.

Inductive lock_op := LOCK_EX | LOCK_UN.

(** [fcntl.flock(file.fileno(), op)] *)
Definition flock (fs : FileSys) (op : lock_op) : FileSys :=
  set_locked fs (match op with LOCK_EX => true | LOCK_UN => false end).

(** Leaving the [with] block closes the descriptor, which drops its lock. *)
Definition py_close (fs : FileSys) : FileSys := set_locked fs false.

(** [file.seek(0); next(csv.reader(file), None)] *)
Definition read_first_row (fs : FileSys) (h : open_mode) : result (option row) :=
  if mode_readable h then
    Ok (match content fs with Some (r :: _) => Some r | _ => None end)
  else Raise UnsupportedOperation.

(** [file.seek(0, 2); csv.writer(file).writerow(r)] *)
Definition write_row (fs : FileSys) (h : open_mode) (r : row) : result FileSys :=
  if mode_writable h then
    Ok (set_content fs (Some (default [] (content fs) ++ [r])))
  else Raise UnsupportedOperation.

Record World := { bot : BotManager; disk : FileSys }.

Definition on_bot (f : BotManager -> BotManager) (w : World) : World :=
  {| bot := f (bot w); disk := disk w |}.

(** ** The engine *)

Section Engine.
Variable cfg : Config.
Variable session_id : string.

Local Open Scope Q_scope.

(** [BotManager.__init__] *)
Definition init (now : Q) : BotManager := {|
  prices := [];
  price_history := ∅;
  cash := PORTFOLIO_INITIAL cfg;
  portfolio_value := PORTFOLIO_INITIAL cfg;
  positions := [];
  state_saved := false;
  last_activity := now;
  total_api_calls := 0
|}.

(** *** calculate_bue_value *)

(** [h.append(p)], then [h.pop(0)] when more than 20 entries are held. *)
Definition push_price (h : list Q) (p : Q) : list Q :=
  let h1 := h ++ [p] in
  if (20 <? length h1)%nat then drop 1 h1 else h1.

Definition momentum_of (h : list Q) : Q :=
  if (10 <=? length h)%nat then
    let recent_avg := py_sum (last_n 5 h) / 5 in
    let older_avg := py_sum (take 5 (last_n 10 h)) / 5 in
    if Qltb 0 older_avg then (recent_avg - older_avg) / older_avg * (15 # 100)
    else 0
  else 0.

Definition volatility_of (h : list Q) (current_price : Q) : Q :=
  if (10 <=? length h)%nat then
    let recent_prices := last_n 10 h in
    let price_range := py_max_list recent_prices - py_min_list recent_prices in
    if Qltb 0 current_price then
      let volatility := price_range / current_price in
      py_min (py_max (volatility * (8 # 100)) (- (3 # 100))) (3 # 100)
    else 0
  else 0.

(** [random_component] is the draw of [random.uniform(-0.008, 0.008)]. *)
Definition calculate_bue_value (b : BotManager) (symbol : string)
    (current_price random_component : Q) : BotManager * Q :=
  let h0 := default [] (price_history b !! symbol) in
  let h := push_price h0 current_price in
  let b' := set_price_history b (<[symbol := h]> (price_history b)) in
  if (length h <? 5)%nat then (b', current_price)
  else
    let total_adjustment :=
      momentum_of h + volatility_of h current_price + random_component in
    let bue_value := current_price * (1 + total_adjustment) in
    (b', py_round8 bue_value).

(** *** generate_signal *)

Definition generate_signal (current_price bue_value : Q) : signal * Q :=
  if Qle_bool current_price 0 then (HOLD, 0)
  else
    let delta := ((bue_value - current_price) / current_price) * 100 in
    if Qltb (12 # 10) delta then (BUY, delta)
    else if Qltb delta (- (12 # 10)) then (SELL, delta)
    else (HOLD, delta).

(** *** log_to_csv *)

Definition header : row :=
  map CStr ["session_id"; "timestamp"; "symbol"; "price"; "bue"; "delta";
            "signal"; "value_estimate"; "action"; "pnl"; "close_reason"; "equity"]%string.

(** The first lines of [log_to_csv]: put the session id in front. *)
Definition with_session_id (row_data : row) : row :=
  if decide (length row_data = (length header - 1)%nat) then
    CStr session_id :: row_data
  else if decide (length row_data = length header) then
    match row_data with
    | c :: r => if decide (c = CStr session_id) then row_data else CStr session_id :: r
    | [] => row_data
    end
  else row_data.

(** Creation of the file when it is missing; [None] is the early
    [return False] of the [except] branch. *)
Definition ensure_log_file (fs : FileSys) : option FileSys :=
  if file_exists fs then Some fs
  else
    match py_open fs Mode_w with
    | Raise _ => None
    | Ok (fs1, h) =>
        match write_row fs1 h header with
        | Raise _ => None
        | Ok fs2 => Some (py_close fs2)
        end
    end.

(** One pass through the [with open(LOG_FILE, 'a', newline='')] block.
    [Ok b] is a [return b] (for [true], the one after the block);
    [Raise e] is an exception leaving the block. *)
Definition append_attempt (fs : FileSys) (row_data : row) : FileSys * result bool :=
  match py_open fs Mode_a with
  | Raise e => (fs, Raise e)
  | Ok (fs1, file) =>
      let fs2 := flock fs1 LOCK_EX in
      match read_first_row fs2 file with
      | Raise e => (py_close fs2, Raise e)
      | Ok existing_header =>
          if decide (existing_header = Some header) then
            match write_row fs2 file row_data with
            | Raise e => (py_close fs2, Raise e)
            | Ok fs3 => (py_close (flock fs3 LOCK_UN), Ok true)
            end
          else (py_close (flock fs2 LOCK_UN), Ok false)
      end
  end.

(** [for attempt in range(n)]: an exception is logged and the next attempt
    follows [time.sleep(0.2)]. *)
Fixpoint append_retry (n : nat) (w : World) (row_data : row) : World * bool :=
  match n with
  | O => (w, false)
  | S n' =>
      match append_attempt (disk w) row_data with
      | (fs', Ok true) =>
          ({| bot := set_state_saved (bot w) true; disk := fs' |}, true)
      | (fs', Ok false) => ({| bot := bot w; disk := fs' |}, false)
      | (fs', Raise _) => append_retry n' {| bot := bot w; disk := fs' |} row_data
      end
  end.

Definition log_to_csv (w : World) (row_data : row) : World * bool :=
  let row_data := with_session_id row_data in
  match ensure_log_file (disk w) with
  | None => (w, false)
  | Some fs => append_retry 3 {| bot := bot w; disk := fs |} row_data
  end.

(** *** deposit_funds *)

Definition deposit_row (b : BotManager) (amount now : Q) : row :=
  [CStr session_id; CTime now; CStr "SYSTEM"; CNum 0; CNum 0; CNum 0;
   CStr "DEPOSIT"; CNum amount; CStr "DEPOSIT"; CNum 0; CStr "N/A";
   CNum (portfolio_value b)].

Definition deposit_funds (w : World) (amount now : Q) : World * bool :=
  if Qle_bool amount 0 then (w, false)
  else
    let b1 := set_cash (bot w) (cash (bot w) + amount) in
    let b2 := set_portfolio_value b1 (portfolio_value b1 + amount) in
    log_to_csv {| bot := b2; disk := disk w |} (deposit_row b2 amount now).

(** *** calculate_equity *)

(** What one [(symbol, pos)] item adds to [unrealized_pnl]. *)
Definition unrealized (current_prices : list (string * Q))
    (item : string * Position) : Q :=
  let (symbol, pos) := item in
  let current_price := Dict.get_default current_prices symbol (entry_price pos) in
  match side pos with
  | BUY =>
      let market_value := quantity pos * current_price in
      market_value - trade_value pos
  | _ =>
      let cost := quantity pos * current_price in
      trade_value pos - cost
  end.

Definition unrealized_pnl (b : BotManager) (current_prices : list (string * Q)) : Q :=
  fold_left (fun acc item => acc + unrealized current_prices item) (positions b) 0.

Definition calculate_equity (b : BotManager) (current_prices : list (string * Q))
    : BotManager * Q :=
  let v := cash b + unrealized_pnl b current_prices in
  (set_portfolio_value b v, v).

(** *** execute_trade *)

Definition trade_row (symbol : string) (sig : signal) (price delta : Q)
    (net_trade_value now equity : Q) : row :=
  [CStr session_id; CTime now; CStr symbol; CNum price; CNum 0; CNum delta;
   CStr (str_of_signal sig); CNum net_trade_value; CStr "OPEN"; CNum 0;
   CStr "N/A"; CNum equity].

Definition execute_trade (w : World) (symbol : string) (sig : signal)
    (price delta now : Q) : World * result bool :=
  let b := bot w in
  match sig with
  | HOLD => (w, Ok false)
  | _ =>
      if (MAX_POSITIONS cfg <=? Z.of_nat (length (positions b)))%Z then (w, Ok false)
      else if Dict.contains (positions b) symbol then (w, Ok false)
      else
        let trade_value := cash b * RISK_PER_TRADE cfg in
        if Qltb trade_value 10 then (w, Ok false)
        else
          let fee := trade_value * FEE_PCT cfg in
          let net_trade_value := trade_value - fee in
          if Qeq_bool price 0 then (w, Raise ZeroDivisionError)
          else
            let quantity := net_trade_value / price in
            let pos := {| entry_price := price; quantity := quantity;
                          timestamp := now; peak_price := price; side := sig;
                          trade_value := net_trade_value |} in
            let b1 := set_positions b (Dict.set (positions b) symbol pos) in
            let b2 := set_cash b1 (cash b1 - trade_value) in
            let b3 := set_last_activity b2 now in
            let (b4, equity) := calculate_equity b3 [(symbol, price)] in
            let (w', ok) :=
              log_to_csv {| bot := b4; disk := disk w |}
                (trade_row symbol sig price delta net_trade_value now equity) in
            (w', Ok ok)
  end.

(** *** close_position *)

Definition close_row (symbol : string) (current_price : Q) (a : action)
    (proceeds net_pnl : Q) (r : reason) (now equity : Q) : row :=
  [CStr session_id; CTime now; CStr symbol; CNum current_price; CNum 0; CNum 0;
   CStr (str_of_action a); CNum proceeds; CStr (str_of_action a); CNum net_pnl;
   CStr (str_of_reason r); CNum equity].

Definition close_position (w : World) (symbol : string) (current_price : Q)
    (r : reason) (now : Q) : World * (Q * action * reason) :=
  let b := bot w in
  match Dict.get (positions b) symbol with
  | None => (w, (0, NONE, r))
  | Some pos =>
      let quantity := quantity pos in
      let side := side pos in
      let (proceeds, pnl) :=
        match side with
        | BUY =>
            let proceeds := quantity * current_price in
            (proceeds, proceeds - trade_value pos)
        | _ =>
            let proceeds := trade_value pos in
            let cost := quantity * current_price in
            (proceeds, proceeds - cost)
        end in
      let exit_fee := proceeds * FEE_PCT cfg in
      let net_pnl := pnl - exit_fee in
      let b1 := set_cash b (cash b + (proceeds - exit_fee)) in
      let action := CLOSE side in
      let b2 := set_last_activity b1 now in
      let (b3, equity) := calculate_equity b2 [(symbol, current_price)] in
      let (w1, _) :=
        log_to_csv {| bot := b3; disk := disk w |}
          (close_row symbol current_price action proceeds net_pnl r now equity) in
      let w2 := on_bot (fun b => set_positions b (Dict.del (positions b) symbol)) w1 in
      (w2, (net_pnl, action, r))
  end.

(** *** manage_positions *)

(** The peak update at the head of the loop body. *)
Definition track_peak (pos : Position) (current_price : Q) : Position :=
  match side pos with
  | BUY => set_peak_price pos (py_max (peak_price pos) current_price)
  | _ => set_peak_price pos (py_min (peak_price pos) current_price)
  end.

(** The chain of exit tests of the loop body, in the order of the source;
    the result is the reason handed to [close_position] by the first test
    that holds. *)
Definition exit_rule (pos : Position) (current_price now : Q) : option reason :=
  let peak_price := peak_price pos in
  let entry_price := entry_price pos in
  let is_buy := bool_decide (side pos = BUY) in
  let is_sell := bool_decide (side pos = SELL) in
  if is_buy && Qle_bool current_price (peak_price * (1 - TRAILING_STOP_PCT cfg))
  then Some TRAILING_STOP
  else if is_sell && Qle_bool (peak_price * (1 + TRAILING_STOP_PCT cfg)) current_price
  then Some TRAILING_STOP
  else if is_buy && Qle_bool current_price (entry_price * (1 - STOP_LOSS_PCT cfg))
  then Some STOP_LOSS
  else if is_sell && Qle_bool (entry_price * (1 + STOP_LOSS_PCT cfg)) current_price
  then Some STOP_LOSS
  else if is_buy && Qle_bool (entry_price * (1 + TAKE_PROFIT_PCT cfg)) current_price
  then Some TAKE_PROFIT
  else if is_sell && Qle_bool current_price (entry_price * (1 - TAKE_PROFIT_PCT cfg))
  then Some TAKE_PROFIT
  else
    let position_age := now - timestamp pos in
    if Qle_bool (inject_Z (TRADE_DURATION cfg)) position_age then Some TIMED_EXIT
    else None.

(** [for symbol in list(self.positions.keys())] *)
Fixpoint manage_loop (symbols : list string) (w : World)
    (current_prices : list (string * Q)) (current_time : Q)
    : World * result (Q * action * reason) :=
  match symbols with
  | [] => (w, Ok (0, NONE, NA))
  | symbol :: rest =>
      match Dict.get (positions (bot w)) symbol with
      | None => (w, Raise KeyError)
      | Some pos =>
          let current_price :=
            Dict.get_default current_prices symbol (entry_price pos) in
          let pos := track_peak pos current_price in
          let w1 :=
            on_bot (fun b => set_positions b (Dict.set (positions b) symbol pos)) w in
          match exit_rule pos current_price current_time with
          | Some r =>
              let (w2, res) := close_position w1 symbol current_price r current_time in
              (w2, Ok res)
          | None => manage_loop rest w1 current_prices current_time
          end
      end
  end.

Definition manage_positions (w : World) (current_prices : list (string * Q))
    (current_time : Q) : World * result (Q * action * reason) :=
  match positions (bot w) with
  | [] => (w, Ok (0, NONE, NA))
  | _ => manage_loop (Dict.keys (positions (bot w))) w current_prices current_time
  end.

(** *** run_simulation: one cycle of the loop *)

(** What the outside world supplies while one symbol is processed. *)
Record Tick := { noise : Q; clock : Q }.

(** "Execute trades on strong signals": the guarded call of
    [execute_trade].  The result is that of [execute_trade], and [false]
    when the call is not made (the source does not use it). *)
Definition try_open (w : World) (symbol : string) (signal_type : signal)
    (price delta now : Q) : World * result bool :=
  if bool_decide (signal_type = BUY \/ signal_type = SELL)
     && Qltb (15 # 10) (Qabs delta)
  then execute_trade w symbol signal_type price delta now
  else (w, Ok false).

Definition scan_row (symbol : string) (price bue_value delta : Q)
    (signal_type : signal) (value_estimate : Q) (a : action) (pnl : Q)
    (r : reason) (now equity : Q) : row :=
  [CStr session_id; CTime now; CStr symbol; CNum price; CNum bue_value;
   CNum delta; CStr (str_of_signal signal_type); CNum value_estimate;
   CStr (if decide (a = NONE) then "SCAN"%string else str_of_action a);
   CNum pnl; CStr (str_of_reason r); CNum equity].

(** The body of [for symbol, price in self.prices.items()] once
    [price > 0] is known. *)
Definition scan_symbol (w : World) (env : Tick) (symbol : string) (price : Q)
    : World * result (Q * action * reason) :=
  let (b1, bue_value) := calculate_bue_value (bot w) symbol price (noise env) in
  let w1 := {| bot := b1; disk := disk w |} in
  let (signal_type, delta) := generate_signal price bue_value in
  let value_estimate :=
    (cash b1 / inject_Z (Z.of_nat (length (prices b1)))) * (1 + delta / 100) in
  match try_open w1 symbol signal_type price delta (clock env) with
  | (w2, Raise e) => (w2, Raise e)
  | (w2, Ok _) =>
      match manage_positions w2 (prices (bot w2)) (clock env) with
      | (w3, Raise e) => (w3, Raise e)
      | (w3, Ok (pnl, a, close_reason)) =>
          let (b4, equity) := calculate_equity (bot w3) (prices (bot w3)) in
          let b5 := set_portfolio_value b4 equity in
          let (w5, _) :=
            log_to_csv {| bot := b5; disk := disk w3 |}
              (scan_row symbol price bue_value delta signal_type value_estimate
                 a pnl close_reason (clock env) equity) in
          (w5, Ok (pnl, a, close_reason))
      end
  end.

(** The loop over the snapshot; the result lists, per processed symbol,
    what [manage_positions] returned for it. *)
Fixpoint scan_loop (items : list (string * Q)) (env : string -> Tick) (w : World)
    : World * result (list (string * (Q * action * reason))) :=
  match items with
  | [] => (w, Ok [])
  | (symbol, price) :: rest =>
      if Qle_bool price 0 then scan_loop rest env w
      else
        match scan_symbol w (env symbol) symbol price with
        | (w1, Raise e) => (w1, Raise e)
        | (w1, Ok r) =>
            match scan_loop rest env w1 with
            | (w2, Raise e) => (w2, Raise e)
            | (w2, Ok rs) => (w2, Ok ((symbol, r) :: rs))
            end
        end
  end.

(** One iteration of [while True]; [fetched] is what
    [fetch_coingecko_data] returned. *)
Definition run_cycle (w : World) (fetched : list (string * Q))
    (env : string -> Tick) : World * result (list (string * (Q * action * reason))) :=
  let w0 :=
    on_bot (fun b =>
      set_prices (set_total_api_calls b (total_api_calls b + 1)%Z) fetched) w in
  match fetched with
  | [] => (w0, Ok [])
  | _ => scan_loop (prices (bot w0)) env w0
  end.

(** The closures among the results of a cycle. *)
Definition closures (rs : list (string * (Q * action * reason)))
    : list (string * (Q * action * reason)) :=
  filter (fun r => r.2.1.2 <> NONE) rs.

End Engine.

(** * Vocabulary of the statements *)

Local Open Scope Q_scope.

(** The percentage gap between the estimate and the price. *)
Definition deltaPct (current_price bue_value : Q) : Q :=
  ((bue_value - current_price) / current_price) * 100.

(** A run of [calculate_bue_value] calls; each call brings its symbol, its
    price and its random draw. *)
Definition feed_prices (b : BotManager) (calls : list (string * Q * Q)) : BotManager :=
  fold_left (fun b c => (calculate_bue_value b c.1.1 c.1.2 c.2).1) calls b.

(** The prices such a run appends for one symbol, in arrival order. *)
Definition appended (symbol : string) (calls : list (string * Q * Q)) : list Q :=
  omap (fun c => if decide (c.1.1 = symbol) then Some c.1.2 else None) calls.

(** The window held for a symbol (empty when the symbol was never seen). *)
Definition history_of (b : BotManager) (symbol : string) : list Q :=
  default [] (price_history b !! symbol).

(** Whatever the disk does, [log_to_csv] touches no attribute of the engine
    but [state_saved]. *)
Definition only_state_saved (b b' : BotManager) : Prop :=
  b' = b \/ b' = set_state_saved b true.

(** A log file that holds the header and nothing else, writable, unlocked. *)
Definition fresh_log : FileSys :=
  {| content := Some [header]; can_write := true; locked := false |}.

(** A log file whose first row is not the header. *)
Definition foreign_log : FileSys :=
  {| content := Some [[CStr "timestamp"; CStr "price"]; [CTime 0; CNum 1]];
     can_write := true; locked := false |}.

(** The sum of the unrealized P&L of the open positions. *)
Definition total_unrealized (ps : list (string * Position))
    (current_prices : list (string * Q)) : Q :=
  foldr (fun item acc => unrealized current_prices item + acc) 0 ps.

(** The engine after the deployment's first trade: a fresh engine with the
    default configuration that bought BTC at 100. *)
Definition after_first_buy : World :=
  (execute_trade default_config "20250607_120000"
     {| bot := init default_config 0; disk := fresh_log |}
     "BTC" BUY 100 2 0).1.

(** A fresh engine with the default configuration and an empty log. *)
Definition fresh_world : World :=
  {| bot := init default_config 0; disk := fresh_log |}.


(** The price [manage_positions] values a position at: the snapshot's, or
    the entry price when the symbol is not in the snapshot. *)
Definition price_for (current_prices : list (string * Q))
    (item : string * Position) : Q :=
  Dict.get_default current_prices item.1 (entry_price item.2).

(** A position once its peak has followed that price. *)
Definition tracked (current_prices : list (string * Q))
    (item : string * Position) : string * Position :=
  (item.1, track_peak item.2 (price_for current_prices item)).

(** The reason for which [manage_positions] closes a position, if any. *)
Definition exits (cfg : Config) (current_prices : list (string * Q)) (now : Q)
    (item : string * Position) : option reason :=
  exit_rule cfg (tracked current_prices item).2 (price_for current_prices item) now.

Definition with_positions (w : World) (ps : list (string * Position)) : World :=
  on_bot (fun b => set_positions b ps) w.

(** The four exit rules, each on its own. *)
Definition trailing_hit (cfg : Config) (pos : Position) (price : Q) : Prop :=
  (side pos = BUY /\ price <= peak_price pos * (1 - TRAILING_STOP_PCT cfg)) \/
  (side pos = SELL /\ peak_price pos * (1 + TRAILING_STOP_PCT cfg) <= price).

Definition stop_hit (cfg : Config) (pos : Position) (price : Q) : Prop :=
  (side pos = BUY /\ price <= entry_price pos * (1 - STOP_LOSS_PCT cfg)) \/
  (side pos = SELL /\ entry_price pos * (1 + STOP_LOSS_PCT cfg) <= price).

Definition take_hit (cfg : Config) (pos : Position) (price : Q) : Prop :=
  (side pos = BUY /\ entry_price pos * (1 + TAKE_PROFIT_PCT cfg) <= price) \/
  (side pos = SELL /\ price <= entry_price pos * (1 - TAKE_PROFIT_PCT cfg)).

Definition timed_hit (cfg : Config) (pos : Position) (now : Q) : Prop :=
  inject_Z (TRADE_DURATION cfg) <= now - timestamp pos.

(** The invariant of the open set: one position per symbol, no more than
    [MAX_POSITIONS] of them. *)
Definition positions_ok (cfg : Config) (b : BotManager) : Prop :=
  Dict.wf (positions b) /\
  (Z.of_nat (length (positions b)) <= MAX_POSITIONS cfg)%Z.

(** [w'] keeps what [w] has of that invariant. *)
Definition keeps (cfg : Config) (w w' : World) : Prop :=
  Dict.wf (positions (bot w)) ->
  Dict.wf (positions (bot w')) /\
  ((Z.of_nat (length (positions (bot w))) <= MAX_POSITIONS cfg)%Z ->
   (Z.of_nat (length (positions (bot w'))) <= MAX_POSITIONS cfg)%Z).

(** The symbols of a snapshot the cycle processes. *)
Definition processed (fetched : list (string * Q)) : list string :=
  map fst (List.filter (fun item => Qltb 0 item.2) fetched).

(** What can happen to the engine and its log: a call of one of the methods
    of [BotManager], with any arguments, or a change of the file by another
    process. *)
Inductive step (cfg : Config) (sid : string) : World -> World -> Prop :=
  | step_deposit_funds w amount now :
      step cfg sid w (deposit_funds sid w amount now).1
  | step_execute_trade w symbol sig price delta now :
      step cfg sid w (execute_trade cfg sid w symbol sig price delta now).1
  | step_close_position w symbol price r now :
      step cfg sid w (close_position cfg sid w symbol price r now).1
  | step_manage_positions w current_prices now :
      step cfg sid w (manage_positions cfg sid w current_prices now).1
  | step_calculate_equity w current_prices :
      step cfg sid w (on_bot (fun b => (calculate_equity b current_prices).1) w)
  | step_calculate_bue_value w symbol price random_component :
      step cfg sid w
        (on_bot (fun b => (calculate_bue_value b symbol price random_component).1) w)
  | step_log_to_csv w row_data :
      step cfg sid w (log_to_csv sid w row_data).1
  | step_run_cycle w fetched env :
      step cfg sid w (run_cycle cfg sid w fetched env).1
  | step_disk w fs :
      step cfg sid w {| bot := bot w; disk := fs |}.

(** The states an engine started by [BotManager()] can be in. *)
Definition reachable (cfg : Config) (sid : string) (w : World) : Prop :=
  exists now fs, rtc (step cfg sid) {| bot := init cfg now; disk := fs |} w.

(** A fresh engine that bought BTC and then ETH at 100. *)
Definition after_two_buys : World :=
  (execute_trade default_config "20250607_120000" after_first_buy
     "ETH" BUY 100 2 0).1.

(** A cycle in which nothing new is learnt but the time. *)
Definition quiet (t : Q) (symbol : string) : Tick := {| noise := 0; clock := t |}.

(** Two long positions of half a unit each, entered at 100. *)
Definition long_at_100 : Position :=
  {| entry_price := 100; quantity := 1 # 2; timestamp := 0; peak_price := 100;
     side := BUY; trade_value := 50 |}.

Definition two_longs : World :=
  {| bot := set_cash
              (set_positions (init default_config 0)
                 [("BTC"%string, long_at_100); ("ETH"%string, long_at_100)])
              900;
     disk := fresh_log |}.

(** The calls of [calculate_bue_value] that one cycle makes. *)
Definition calls_of (fetched : list (string * Q)) (env : string -> Tick)
    : list (string * Q * Q) :=
  map (fun item => (item.1, item.2, noise (env item.1)))
      (List.filter (fun item => Qltb 0 item.2) fetched).

(** A run of cycles, each with its snapshot and what the world supplies. *)
Definition run_cycles (cfg : Config) (sid : string) (w : World)
    (cycles : list (list (string * Q) * (string -> Tick))) : World :=
  fold_left (fun w c => (run_cycle cfg sid w c.1 c.2).1) cycles w.

Definition calls_of_cycles (cycles : list (list (string * Q) * (string -> Tick)))
    : list (string * Q * Q) :=
  flat_map (fun c => calls_of c.1 c.2) cycles.


(** * The rest of the engine *)

(** ** fetch_coingecko_data *)

(** What [response.json()] returns: [None], a bool, a number (an int or a
    float, read as a rational), a str, a list or a dict (its items, each key
    once). *)
#[warnings="-register-all"]
Inductive json :=
  | JNull
  | JBool (b : bool)
  | JNum (x : Q)
  | JStr (s : string)
  | JList (items : list json)
  | JDict (members : list (string * json)).

(** What the request of [fetch_coingecko_data] ends in: an exception of
    [requests] (from [get] or [raise_for_status]), a body that is not JSON,
    or a decoded body. *)
Inductive Response :=
  | RequestFailed
  | InvalidJson
  | Body (data : json).

(** The exceptions the loop over the items can raise.  Neither is a
    [RequestException], a [ValueError] or a [KeyError], so no [except] clause
    of the function catches them. *)
Inductive feed_exn := AttributeError | TypeError.

(** What one item does to the loop: nothing, an entry of [price_data], or an
    exception. *)
Inductive item_outcome :=
  | Skipped
  | Quoted (symbol : string) (price : Q)
  | Failed (e : feed_exn).

(** What a call of [fetch_coingecko_data] ends in. *)
Inductive FetchResult :=
  | Returned (price_data : list (string * Q))
  | Uncaught (e : feed_exn).

Section Feed.
(** [str.upper], which the engine takes from Python. *)
Variable upper : string -> string.

(** The body of the loop.  [item.get] needs a dict and [.upper()] a str
    ([AttributeError] otherwise; a [null] symbol is [None], not the default);
    [symbol and ...] stops at an empty symbol; [price is not None] skips a
    missing or [null] price; [price > 0] compares a number or a bool
    ([True > 0], and [float(True)] is 1.0) and raises [TypeError] on a str, a
    list or a dict. *)
Definition read_item (item : json) : item_outcome :=
  match item with
  | JDict members =>
      match Dict.get_default members "symbol" (JStr "") with
      | JStr s =>
          let symbol := upper s in
          let price := Dict.get members "current_price" in
          if bool_decide (symbol = ""%string) then Skipped
          else
            match price with
            | None | Some JNull => Skipped
            | Some (JNum x) => if Qltb 0 x then Quoted symbol x else Skipped
            | Some (JBool b) => if b then Quoted symbol 1 else Skipped
            | Some (JStr _) | Some (JList _) | Some (JDict _) => Failed TypeError
            end
      | _ => Failed AttributeError
      end
  | _ => Failed AttributeError
  end.

(** The loop that fills [price_data]; an exception ends it. *)
Fixpoint extract_prices (price_data : list (string * Q)) (data : list json)
    : FetchResult :=
  match data with
  | [] => Returned price_data
  | item :: rest =>
      match read_item item with
      | Skipped => extract_prices price_data rest
      | Quoted symbol price => extract_prices (Dict.set price_data symbol price) rest
      | Failed e => Uncaught e
      end
  end.

(** [fetch_coingecko_data]: the counter is raised before the request; a
    failed request ([RequestException]), a body that is not JSON
    ([ValueError]) and JSON that is not a list all give the empty dict. *)
Definition fetch_coingecko_data (b : BotManager) (resp : Response)
    : BotManager * FetchResult :=
  let b' := set_total_api_calls b (total_api_calls b + 1)%Z in
  match resp with
  | Body (JList data) => (b', extract_prices [] data)
  | Body _ | RequestFailed | InvalidJson => (b', Returned [])
  end.


End Feed.

(** [str.upper] on ASCII letters. *)
Definition ascii_upper_char (c : Ascii.ascii) : Ascii.ascii :=
  let n := Ascii.nat_of_ascii c in
  if (97 <=? n)%nat && (n <=? 122)%nat then Ascii.ascii_of_nat (n - 32) else c.

Fixpoint ascii_upper (s : string) : string :=
  match s with
  | EmptyString => EmptyString
  | String c r => String (ascii_upper_char c) (ascii_upper r)
  end.

(** ** graceful_shutdown *)

Definition shutdown_row (sid : string) (b : BotManager) (now : Q) : row :=
  [CStr sid; CTime now; CStr "SYSTEM"; CNum 0; CNum 0; CNum 0; CStr "SHUTDOWN";
   CNum 0; CStr "SHUTDOWN"; CNum 0; CStr "GRACEFUL"; CNum (portfolio_value b)].

(** The signal handler of [run_simulation], up to [sys.exit(0)]. *)
Definition graceful_shutdown (sid : string) (w : World) (now : Q) : World :=
  if state_saved (bot w) then w
  else (log_to_csv sid w (shutdown_row sid (bot w) now)).1.

(** ** Vocabulary of the further statements *)

(** What [execute_trade] puts in a position and [manage_positions] keeps:
    a side that is BUY or SELL, an entry price that is not zero, a quantity
    worth the committed value at the entry price, and a peak on the right
    side of the entry price. *)
Definition sound_position (p : Position) : Prop :=
  side p <> HOLD /\ ~ entry_price p == 0 /\
  quantity p * entry_price p == trade_value p /\
  (side p = BUY -> entry_price p <= peak_price p) /\
  (side p = SELL -> peak_price p <= entry_price p).

Definition sound_book (w : World) : Prop :=
  Dict.wf (positions (bot w)) /\
  Forall (fun kv => sound_position kv.2) (positions (bot w)).

(** A position that cannot cost cash when it is closed at a positive price. *)
Definition solvent_position (p : Position) : Prop :=
  0 <= quantity p /\ 0 <= trade_value p /\ 0 < entry_price p.

Definition solvent (w : World) : Prop :=
  Dict.wf (positions (bot w)) /\ 0 <= cash (bot w) /\
  Forall (fun kv => solvent_position kv.2) (positions (bot w)) /\
  Forall (fun kv => 0 < kv.2) (prices (bot w)).

(** A configuration that risks at most the whole cash on a trade, charges at
    most the whole notional as fee and starts without debt. *)
Definition sane_config (cfg : Config) : Prop :=
  RISK_PER_TRADE cfg <= 1 /\ FEE_PCT cfg <= 1 /\ 0 <= PORTFOLIO_INITIAL cfg.

(** What drives a running engine: the iterations of its loop and the
    deposits. *)
Inductive Event :=
  | Cycle (fetched : list (string * Q)) (env : string -> Tick)
  | DepositFunds (amount now : Q).

Definition run_event (cfg : Config) (sid : string) (w : World) (e : Event) : World :=
  match e with
  | Cycle fetched env => (run_cycle cfg sid w fetched env).1
  | DepositFunds amount now => (deposit_funds sid w amount now).1
  end.

Definition run_events (cfg : Config) (sid : string) (w : World) (es : list Event)
    : World :=
  fold_left (run_event cfg sid) es w.

(** The snapshots are as [fetch_coingecko_data] makes them. *)
Definition positive_quotes (e : Event) : Prop :=
  match e with
  | Cycle fetched _ => Forall (fun kv => 0 < kv.2) fetched
  | DepositFunds _ _ => True
  end.

(** A run of deposits, each with its amount and its time. *)
Definition deposit_all (sid : string) (w : World) (deposits : list (Q * Q)) : World :=
  fold_left (fun w d => (deposit_funds sid w d.1 d.2).1) deposits w.

(** The sum of the amounts [deposit_funds] accepts. *)
Definition accepted_total (deposits : list (Q * Q)) : Q :=
  foldr (fun d acc => (if Qle_bool d.1 0 then 0 else d.1) + acc) 0 deposits.

(** What the positions of a running engine have besides: the loop opens
    them at positive prices only. *)
Definition priced_book (w : World) : Prop :=
  sound_book w /\ Forall (fun kv => 0 < entry_price kv.2) (positions (bot w)).

(** The defaults with a limit on the open positions below zero, as
    [MAX_POSITIONS=-1] in the environment gives. *)
Definition negative_limit : Config := {|
  RISK_PER_TRADE := RISK_PER_TRADE default_config;
  SCAN_INTERVAL := SCAN_INTERVAL default_config;
  PORTFOLIO_INITIAL := PORTFOLIO_INITIAL default_config;
  TOP_N := TOP_N default_config;
  TRADE_DURATION := TRADE_DURATION default_config;
  TRAILING_STOP_PCT := TRAILING_STOP_PCT default_config;
  STOP_LOSS_PCT := STOP_LOSS_PCT default_config;
  TAKE_PROFIT_PCT := TAKE_PROFIT_PCT default_config;
  FEE_PCT := FEE_PCT default_config;
  MAX_POSITIONS := -1
|}.
(** * Properties *)

(** ** Comparisons *)

Lemma Qltb_lt (a b : Q) : Qltb a b = true <-> a < b.
Proof.
  unfold Qltb. rewrite negb_true_iff. split.
  - intros H. apply Qnot_le_lt. intros Hle.
    apply Qle_bool_iff in Hle. congruence.
  - intros H. destruct (Qle_bool b a) eqn:E; [|reflexivity].
    apply Qle_bool_iff in E. exfalso. apply (Qlt_not_le _ _ H E).
Qed.

Lemma Qltb_ge (a b : Q) : Qltb a b = false <-> b <= a.
Proof.
  unfold Qltb. rewrite negb_false_iff. apply Qle_bool_iff.
Qed.

Lemma Qle_bool_gt (a b : Q) : Qle_bool a b = false <-> b < a.
Proof.
  rewrite <- Qltb_lt. unfold Qltb. destruct (Qle_bool a b); simpl; split; congruence.
Qed.

(** ** The signal (generate_signal) *)

(** C8. With a positive price the signal is BUY exactly when deltaPct
    exceeds 1.2, SELL exactly when it is below -1.2 and HOLD exactly in
    between, the bounds included, and the delta returned is deltaPct; with a
    price that is zero or negative the signal is HOLD and the delta 0. *)
Theorem generate_signal_thresholds (current_price bue_value : Q) :
  (0 < current_price ->
     let d := deltaPct current_price bue_value in
     (generate_signal current_price bue_value).2 = d /\
     ((generate_signal current_price bue_value).1 = BUY <-> 12 # 10 < d) /\
     ((generate_signal current_price bue_value).1 = SELL <-> d < - (12 # 10)) /\
     ((generate_signal current_price bue_value).1 = HOLD <->
        - (12 # 10) <= d /\ d <= 12 # 10)) /\
  (current_price <= 0 ->
     generate_signal current_price bue_value = (HOLD, 0)).
Proof.
  split.
  - intros Hpos d. unfold generate_signal.
    apply Qle_bool_gt in Hpos. rewrite Hpos.
    fold (deltaPct current_price bue_value). fold d.
    destruct (Qltb (12 # 10) d) eqn:Hb.
    + apply Qltb_lt in Hb. simpl.
      repeat split; try congruence; try (intros; lra).
    + apply Qltb_ge in Hb.
      destruct (Qltb d (- (12 # 10))) eqn:Hs.
      * apply Qltb_lt in Hs. simpl.
        repeat split; try congruence; try (intros; lra).
      * apply Qltb_ge in Hs. simpl.
        repeat split; try congruence; try (intros; lra).
  - intros Hle. unfold generate_signal.
    apply Qle_bool_iff in Hle. now rewrite Hle.
Qed.

Lemma generate_signal_thresholds_witness :
  (generate_signal 100 (1013 # 10)).1 = BUY /\
  (generate_signal 100 (1012 # 10)).1 = HOLD /\
  generate_signal (-1) 5 = (HOLD, 0).
Proof.
  destruct (generate_signal_thresholds 100 (1013 # 10)) as [Hb _].
  destruct (generate_signal_thresholds 100 (1012 # 10)) as [Hh _].
  destruct (generate_signal_thresholds (-1) 5) as [_ Hn].
  split; [|split].
  - apply Hb; [reflexivity | vm_compute; reflexivity].
  - apply Hh; [reflexivity | split; vm_compute; discriminate].
  - apply Hn. vm_compute. discriminate.
Defined.

(** ** The price window (calculate_bue_value) *)

Lemma push_price_last_n (l : list Q) (p : Q) :
  push_price (last_n 20 l) p = last_n 20 (l ++ [p]).
Proof.
  unfold push_price, last_n.
  rewrite !length_app, length_drop. simpl.
  destruct (decide (length l < 20)%nat) as [Hlt|Hge].
  - replace (length l - 20)%nat with 0%nat by lia.
    replace (length l + 1 - 20)%nat with 0%nat by lia.
    rewrite !drop_0.
    destruct (Nat.ltb_spec 20 (length l - 0 + 1)); [lia | reflexivity].
  - destruct (Nat.ltb_spec 20 (length l - (length l - 20) + 1)); [|lia].
    rewrite drop_app_le by (rewrite length_drop; lia).
    rewrite drop_drop.
    rewrite drop_app_le by lia.
    f_equal. f_equal. lia.
Qed.

Lemma length_last_n {A} (n : nat) (l : list A) : (length (last_n n l) <= n)%nat.
Proof. unfold last_n. rewrite length_drop. lia. Qed.

Lemma history_of_step (b : BotManager) (s symbol : string) (p r : Q) :
  history_of (calculate_bue_value b s p r).1 symbol =
  if decide (s = symbol) then push_price (history_of b symbol) p
  else history_of b symbol.
Proof.
  unfold calculate_bue_value, history_of.
  destruct (length _ <? 5)%nat; simpl;
    (destruct (decide (s = symbol)) as [->|Hne];
     [rewrite lookup_insert_eq | rewrite lookup_insert_ne by done]; reflexivity).
Qed.

Lemma feed_prices_snoc (b : BotManager) calls c :
  feed_prices b (calls ++ [c]) =
  (calculate_bue_value (feed_prices b calls) c.1.1 c.1.2 c.2).1.
Proof. unfold feed_prices. rewrite fold_left_app. reflexivity. Qed.

Lemma appended_snoc (symbol : string) calls c :
  appended symbol (calls ++ [c]) =
  appended symbol calls ++ (if decide (c.1.1 = symbol) then [c.1.2] else []).
Proof.
  unfold appended. rewrite omap_app. simpl.
  destruct (decide (c.1.1 = symbol)); reflexivity.
Qed.

Lemma history_of_feed (cfg : Config) (now : Q) calls (symbol : string) :
  history_of (feed_prices (init cfg now) calls) symbol =
  last_n 20 (appended symbol calls).
Proof.
  induction calls as [|c calls IH] using rev_ind.
  - reflexivity.
  - rewrite feed_prices_snoc, appended_snoc, history_of_step, IH.
    destruct (decide (c.1.1 = symbol)).
    + apply push_price_last_n.
    + now rewrite app_nil_r.
Qed.

Example window_after_22_prices :
  history_of
    (feed_prices (init default_config 0)
       (flat_map (fun n => [("BTC"%string, inject_Z (Z.of_nat n), 0);
                            ("ETH"%string, 7, 0)]) (seq 1 22)))
    "BTC" = map (fun n => inject_Z (Z.of_nat n)) (seq 3 20).
Proof. vm_compute. reflexivity. Qed.

Example bue_value_of_a_rising_market :
  (calculate_bue_value
     (feed_prices (init default_config 0)
        (map (fun n => ("BTC"%string, 100 + inject_Z (Z.of_nat n), 0)) (seq 0 10)))
     "BTC" 120 (1 # 1000)).2 == 12286330097 # 100000000.
Proof. vm_compute. reflexivity. Qed.

(** ** The event log (log_to_csv) *)

Lemma append_retry_frame (n : nat) (w : World) (row_data : row) :
  only_state_saved (bot w) (bot (append_retry n w row_data).1).
Proof.
  revert w. induction n as [|n IH]; intros w; simpl.
  - now left.
  - destruct (append_attempt (disk w) row_data) as [fs' [[|]|e]]; simpl.
    + now right.
    + now left.
    + apply (IH {| bot := bot w; disk := fs' |}).
Qed.

Lemma log_to_csv_frame (sid : string) (w : World) (row_data : row) :
  only_state_saved (bot w) (bot (log_to_csv sid w row_data).1).
Proof.
  unfold log_to_csv. destruct (ensure_log_file (disk w)) as [fs|].
  - apply (append_retry_frame 3 {| bot := bot w; disk := fs |}).
  - now left.
Qed.

Lemma log_to_csv_fields (sid : string) (w : World) (row_data : row) :
  let b' := bot (log_to_csv sid w row_data).1 in
  cash b' = cash (bot w) /\ portfolio_value b' = portfolio_value (bot w) /\
  positions b' = positions (bot w) /\ prices b' = prices (bot w) /\
  price_history b' = price_history (bot w) /\
  last_activity b' = last_activity (bot w) /\
  total_api_calls b' = total_api_calls (bot w).
Proof.
  intros b'. subst b'.
  destruct (log_to_csv_frame sid w row_data) as [-> | ->]; repeat split.
Qed.

(** The handle of the [with] block is opened with mode ['a']: the header
    cannot be read through it, so every attempt on an existing file ends in
    an exception and leaves the rows as they were. *)
Lemma append_retry_existing (n : nat) (w : World) (rows : list row) (row_data : row) :
  content (disk w) = Some rows ->
  (append_retry n w row_data).2 = false /\
  bot (append_retry n w row_data).1 = bot w /\
  content (disk (append_retry n w row_data).1) = Some rows.
Proof.
  revert w. induction n as [|n IH]; intros w Hc; simpl.
  - auto.
  - unfold append_attempt, py_open.
    destruct (can_write (disk w)) eqn:Hw.
    + rewrite Hc. simpl.
      apply (IH {| bot := bot w; disk := py_close (flock (disk w) LOCK_EX) |}).
      exact Hc.
    + apply (IH {| bot := bot w; disk := disk w |}). exact Hc.
Qed.

Lemma ensure_log_file_existing (fs : FileSys) (rows : list row) :
  content fs = Some rows -> ensure_log_file fs = Some fs.
Proof. intros Hc. unfold ensure_log_file, file_exists. now rewrite Hc. Qed.

Lemma log_to_csv_existing (sid : string) (w : World) (rows : list row) (row_data : row) :
  content (disk w) = Some rows ->
  (log_to_csv sid w row_data).2 = false /\
  bot (log_to_csv sid w row_data).1 = bot w /\
  content (disk (log_to_csv sid w row_data).1) = Some rows.
Proof.
  intros Hc. unfold log_to_csv.
  rewrite (ensure_log_file_existing _ _ Hc).
  apply (append_retry_existing 3 {| bot := bot w; disk := disk w |}). exact Hc.
Qed.

(** As the file is created when missing, no call can return [True]. *)
Lemma log_to_csv_never_succeeds (sid : string) (w : World) (row_data : row) :
  (log_to_csv sid w row_data).2 = false.
Proof.
  unfold log_to_csv.
  destruct (ensure_log_file (disk w)) as [fs|] eqn:He; [|reflexivity].
  assert (Hc : exists rows, content fs = Some rows).
  { unfold ensure_log_file, file_exists, py_open in He.
    destruct (content (disk w)) as [rows|] eqn:Hc.
    - injection He as <-. eauto.
    - destruct (can_write (disk w)); [|discriminate].
      injection He as <-. simpl. eauto. }
  destruct Hc as [rows Hc].
  apply (append_retry_existing 3 {| bot := bot w; disk := fs |} rows). exact Hc.
Qed.

(** C1. On a store that exists and starts with the expected header,
    [log_to_csv] does not append: the header check reads through a handle
    opened for appending only, each of the three attempts ends in the
    exception this raises, and the call returns [False] with the rows as they
    were. *)
Theorem log_to_csv_valid_store_not_appended (sid : string) (w : World)
    (rows : list row) (row_data : row) :
  content (disk w) = Some (header :: rows) ->
  (log_to_csv sid w row_data).2 = false /\
  content (disk (log_to_csv sid w row_data).1) = Some (header :: rows) /\
  state_saved (bot (log_to_csv sid w row_data).1) = state_saved (bot w).
Proof.
  intros Hc.
  destruct (log_to_csv_existing sid w _ row_data Hc) as (Hr & Hb & Hd).
  rewrite Hb. auto.
Qed.

Lemma log_to_csv_valid_store_not_appended_witness :
  let w := {| bot := init default_config 0; disk := fresh_log |} in
  let r := deposit_row "20250607_120000" (bot w) 50 1 in
  (log_to_csv "20250607_120000" w r).2 = false /\
  content (disk (log_to_csv "20250607_120000" w r).1) = Some [header] /\
  state_saved (bot (log_to_csv "20250607_120000" w r).1) = false.
Proof.
  intros w r.
  exact (log_to_csv_valid_store_not_appended "20250607_120000" w [] r eq_refl).
Defined.

(** C7. On a store whose first row is not the expected header, [log_to_csv]
    returns [False], appends nothing and leaves every row as it was. *)
Theorem log_to_csv_header_mismatch (sid : string) (w : World)
    (rows : list row) (row_data : row) :
  content (disk w) = Some rows ->
  head rows <> Some header ->
  (log_to_csv sid w row_data).2 = false /\
  content (disk (log_to_csv sid w row_data).1) = Some rows.
Proof.
  intros Hc _.
  destruct (log_to_csv_existing sid w _ row_data Hc) as (Hr & _ & Hd). auto.
Qed.

Lemma log_to_csv_header_mismatch_witness :
  let w := {| bot := init default_config 0; disk := foreign_log |} in
  let r := deposit_row "20250607_120000" (bot w) 50 1 in
  (log_to_csv "20250607_120000" w r).2 = false /\
  content (disk (log_to_csv "20250607_120000" w r).1) = content foreign_log.
Proof.
  intros w r.
  apply (log_to_csv_header_mismatch "20250607_120000" w _ r eq_refl).
  vm_compute. discriminate.
Defined.

(** ** Deposits (deposit_funds) *)

(** C10. A positive deposit first adds the amount to the cash and to the
    stored portfolio value and only then hands the row to [log_to_csv]; what
    it returns is what that call returns, and when that is [False] the
    deposit returns [False] with the added amount still in the cash and in
    the portfolio value. *)
Theorem deposit_funds_not_atomic (sid : string) (w : World) (amount now : Q) :
  0 < amount ->
  let b1 :=
    set_portfolio_value (set_cash (bot w) (cash (bot w) + amount))
      (portfolio_value (bot w) + amount) in
  let attempt :=
    log_to_csv sid {| bot := b1; disk := disk w |} (deposit_row sid b1 amount now) in
  let out := deposit_funds sid w amount now in
  out = attempt /\
  cash (bot out.1) = cash (bot w) + amount /\
  portfolio_value (bot out.1) = portfolio_value (bot w) + amount /\
  (attempt.2 = false ->
     out.2 = false /\
     cash (bot out.1) = cash (bot w) + amount /\
     portfolio_value (bot out.1) = portfolio_value (bot w) + amount).
Proof.
  intros Hpos b1 attempt out.
  assert (Hout : out = attempt).
  { subst out attempt b1. unfold deposit_funds.
    apply Qle_bool_gt in Hpos. rewrite Hpos. reflexivity. }
  destruct (log_to_csv_fields sid {| bot := b1; disk := disk w |}
              (deposit_row sid b1 amount now)) as (Hc & Hp & _).
  fold attempt in Hc, Hp. rewrite Hout.
  split; [reflexivity|]. split; [exact Hc|]. split; [exact Hp|].
  intros Hf. split; [exact Hf|]. split; [exact Hc | exact Hp].
Qed.

Lemma deposit_funds_not_atomic_witness :
  let w := {| bot := init default_config 0; disk := foreign_log |} in
  let out := deposit_funds "20250607_120000" w 50 1 in
  out.2 = false /\
  cash (bot out.1) = cash (bot w) + 50 /\
  portfolio_value (bot out.1) = portfolio_value (bot w) + 50.
Proof.
  intros w out.
  apply (deposit_funds_not_atomic "20250607_120000" w 50 1).
  - reflexivity.
  - vm_compute. reflexivity.
Defined.

(** ** Equity (calculate_equity) *)

Lemma fold_left_unrealized (ps : list (string * Position))
    (current_prices : list (string * Q)) (acc : Q) :
  fold_left (fun a item => a + unrealized current_prices item) ps acc ==
  acc + total_unrealized ps current_prices.
Proof.
  revert acc. induction ps as [|item ps IH]; intros acc; simpl.
  - lra.
  - rewrite IH. lra.
Qed.

Example equity_of_one_long :
  let b := set_cash (set_positions (init default_config 0)
                       [("BTC"%string,
                         {| entry_price := 100; quantity := 1; timestamp := 0;
                            peak_price := 100; side := BUY; trade_value := 100 |})])
             900 in
  (calculate_equity b [("BTC"%string, 105)]).2 == 905 /\
  (calculate_equity b []).2 == 900.
Proof. split; vm_compute; reflexivity. Qed.

(** C4, as the code has it. [calculate_equity] returns the cash plus the sum
    of the unrealized P&L of the open positions, stores that value in
    [portfolio_value], and leaves the cash, the positions and every other
    attribute as they were. *)
Theorem calculate_equity_stores_only_portfolio_value
    (b : BotManager) (current_prices : list (string * Q)) :
  let b' := (calculate_equity b current_prices).1 in
  let v := (calculate_equity b current_prices).2 in
  v == cash b + total_unrealized (positions b) current_prices /\
  portfolio_value b' = v /\
  cash b' = cash b /\ positions b' = positions b /\
  prices b' = prices b /\ price_history b' = price_history b /\
  state_saved b' = state_saved b /\ last_activity b' = last_activity b /\
  total_api_calls b' = total_api_calls b.
Proof.
  simpl. split; [|repeat split].
  unfold unrealized_pnl. rewrite fold_left_unrealized. lra.
Qed.

(** C4, as stated, fails: after the first buy at 100 the stored portfolio
    value is 950; computing the equity at a price of 110 overwrites it. *)
Lemma calculate_equity_not_read_only :
  let b := bot after_first_buy in
  portfolio_value b == 950 /\
  ~ portfolio_value (calculate_equity b [("BTC"%string, 110)]).1 == portfolio_value b /\
  (calculate_equity b [("BTC"%string, 110)]).1 <> b.
Proof.
  assert (Hne : ~ portfolio_value
                    (calculate_equity (bot after_first_buy) [("BTC"%string, 110)]).1
                  == portfolio_value (bot after_first_buy)).
  { vm_compute. discriminate. }
  split; [vm_compute; reflexivity|]. split; [exact Hne|].
  intros Heq. apply Hne. rewrite Heq. reflexivity.
Qed.

(** ** Dicts *)

Section DictFacts.
Context {V : Type}.
Implicit Types (d : list (string * V)) (k : string) (v : V).

Lemma dict_get_None d k : Dict.get d k = None <-> k ∉ Dict.keys d.
Proof.
  induction d as [|[k' v'] d IH]; simpl.
  - split; [intros _; apply not_elem_of_nil | reflexivity].
  - rewrite not_elem_of_cons. destruct (decide (k' = k)) as [->|Hne].
    + split; [discriminate | intros [H _]; congruence].
    + rewrite IH. split; [intros H; split; [congruence | exact H] | intros [_ H]; exact H].
Qed.

Lemma dict_get_Some_in d k v : Dict.get d k = Some v -> (k, v) ∈ d.
Proof.
  induction d as [|[k' v'] d IH]; simpl; [discriminate|].
  destruct (decide (k' = k)) as [->|Hne].
  - intros [= ->]. apply list_elem_of_here.
  - intros H. apply list_elem_of_further, IH, H.
Qed.

Lemma dict_contains_get d k :
  Dict.contains d k = true <-> is_Some (Dict.get d k).
Proof.
  unfold Dict.contains. destruct (Dict.get d k).
  - split; [eauto | reflexivity].
  - split; [discriminate | intros [? [=]]].
Qed.

Lemma dict_set_absent d k v : Dict.get d k = None -> Dict.set d k v = d ++ [(k, v)].
Proof.
  induction d as [|[k' v'] d IH]; simpl; [reflexivity|].
  destruct (decide (k' = k)); [discriminate|].
  intros H. now rewrite IH.
Qed.

Lemma dict_keys_set_present d k v :
  is_Some (Dict.get d k) -> Dict.keys (Dict.set d k v) = Dict.keys d.
Proof.
  induction d as [|[k' v'] d IH]; simpl.
  - intros [? [=]].
  - destruct (decide (k' = k)) as [->|Hne]; simpl; [reflexivity|].
    intros H. unfold Dict.keys in *. simpl. f_equal. apply IH, H.
Qed.


Lemma dict_keys_del_sublist d k : Dict.keys (Dict.del d k) `sublist_of` Dict.keys d.
Proof.
  induction d as [|[k' v'] d IH]; simpl; [constructor|].
  destruct (decide (k' = k)); simpl.
  - apply sublist_cons, reflexivity.
  - apply sublist_skip, IH.
Qed.

Lemma dict_wf_del d k : Dict.wf d -> Dict.wf (Dict.del d k).
Proof. unfold Dict.wf. intros H. eapply sublist_NoDup; [exact H | apply dict_keys_del_sublist]. Qed.

Lemma dict_length_del d k : (length (Dict.del d k) <= length d)%nat.
Proof.
  rewrite <- (length_map fst (Dict.del d k)), <- (length_map fst d).
  apply sublist_length, dict_keys_del_sublist.
Qed.

Lemma dict_wf_set d k v : Dict.wf d -> Dict.wf (Dict.set d k v).
Proof.
  unfold Dict.wf. destruct (Dict.get d k) eqn:Hg.
  - rewrite dict_keys_set_present by eauto. auto.
  - rewrite (dict_set_absent _ _ _ Hg). unfold Dict.keys.
    rewrite map_app. simpl. intros Hnd.
    apply NoDup_app. split; [exact Hnd|]. split.
    + intros x Hx Hx'. apply list_elem_of_singleton in Hx'. subst x.
      apply dict_get_None in Hg. contradiction.
    + apply NoDup_singleton.
Qed.

Lemma dict_length_set d k v :
  length (Dict.set d k v) =
  if Dict.contains d k then length d else S (length d).
Proof.
  unfold Dict.contains. destruct (Dict.get d k) eqn:Hg.
  - rewrite <- (length_map fst (Dict.set d k v)), <- (length_map fst d).
    f_equal. apply dict_keys_set_present. eauto.
  - rewrite (dict_set_absent _ _ _ Hg), length_app. simpl. lia.
Qed.

(** A dict splits at a key it holds; deleting the key joins the parts. *)
Lemma dict_del_split d k v :
  Dict.get d k = Some v ->
  exists l1 l2, d = l1 ++ (k, v) :: l2 /\ (k ∉ Dict.keys l1) /\
                Dict.del d k = l1 ++ l2.
Proof.
  induction d as [|[k' v'] d IH]; simpl; [discriminate|].
  destruct (decide (k' = k)) as [->|Hne].
  - intros [= ->]. exists [], d. split; [reflexivity|].
    split; [apply not_elem_of_nil | reflexivity].
  - intros H. destruct (IH H) as (l1 & l2 & -> & Hk & Hd).
    exists ((k', v') :: l1), l2. split; [reflexivity|]. split.
    + simpl. rewrite not_elem_of_cons. auto.
    + rewrite Hd. reflexivity.
Qed.

Lemma dict_get_del_wf d k : Dict.wf d -> Dict.get (Dict.del d k) k = None.
Proof.
  intros Hwf. destruct (Dict.get d k) eqn:Hg.
  - destruct (dict_del_split _ _ _ Hg) as (l1 & l2 & -> & Hk & ->).
    apply dict_get_None. unfold Dict.wf, Dict.keys in *.
    rewrite map_app in *. simpl in Hwf.
    apply NoDup_app in Hwf as (_ & Hdisj & Hnd).
    apply NoDup_cons in Hnd as [Hk2 _].
    rewrite not_elem_of_app. auto.
  - apply dict_get_None. apply dict_get_None in Hg.
    intros Hin. apply Hg.
    eapply elem_of_sublist; [exact Hin | apply dict_keys_del_sublist].
Qed.
End DictFacts.

(** ** Opening a position (execute_trade) *)

Ltac bot_fields :=
  cbn [fst snd bot disk on_bot positions cash portfolio_value prices price_history
       state_saved last_activity total_api_calls
       set_positions set_cash set_portfolio_value set_last_activity
       set_state_saved set_prices set_price_history set_total_api_calls] in *.

Lemma execute_trade_rejected (cfg : Config) (sid : string) (w : World)
    (symbol : string) (sig : signal) (price delta now : Q) :
  sig = HOLD \/
  (MAX_POSITIONS cfg <= Z.of_nat (length (positions (bot w))))%Z \/
  is_Some (Dict.get (positions (bot w)) symbol) \/
  cash (bot w) * RISK_PER_TRADE cfg < 10 ->
  execute_trade cfg sid w symbol sig price delta now = (w, Ok false).
Proof.
  intros H. unfold execute_trade.
  destruct sig; [| |reflexivity];
    (destruct (Z.leb_spec (MAX_POSITIONS cfg) (Z.of_nat (length (positions (bot w)))))
       as [|Hlen]; [reflexivity|];
     destruct (Dict.contains (positions (bot w)) symbol) eqn:Hc; [reflexivity|];
     destruct (Qltb (cash (bot w) * RISK_PER_TRADE cfg) 10) eqn:Htv; [reflexivity|];
     exfalso; destruct H as [H|[H|[H|H]]];
     [ discriminate
     | lia
     | apply dict_contains_get in H; congruence
     | apply Qltb_lt in H; congruence ]).
Qed.

Lemma execute_trade_zero_price (cfg : Config) (sid : string) (w : World)
    (symbol : string) (sig : signal) (price delta now : Q) :
  price == 0 ->
  (execute_trade cfg sid w symbol sig price delta now).1 = w.
Proof.
  intros Hp. apply Qeq_bool_iff in Hp. unfold execute_trade.
  destruct sig; [| |reflexivity];
    (destruct (_ <=? _)%Z; [reflexivity|];
     destruct (Dict.contains _ _); [reflexivity|];
     destruct (Qltb _ _); [reflexivity|];
     rewrite Hp; reflexivity).
Qed.

Lemma execute_trade_opened (cfg : Config) (sid : string) (w : World)
    (symbol : string) (sig : signal) (price delta now : Q) :
  sig <> HOLD ->
  (Z.of_nat (length (positions (bot w))) < MAX_POSITIONS cfg)%Z ->
  Dict.get (positions (bot w)) symbol = None ->
  10 <= cash (bot w) * RISK_PER_TRADE cfg ->
  ~ price == 0 ->
  let tv := cash (bot w) * RISK_PER_TRADE cfg in
  let pos := {| entry_price := price; quantity := (tv - tv * FEE_PCT cfg) / price;
                timestamp := now; peak_price := price; side := sig;
                trade_value := tv - tv * FEE_PCT cfg |} in
  let out := execute_trade cfg sid w symbol sig price delta now in
  positions (bot out.1) = positions (bot w) ++ [(symbol, pos)] /\
  cash (bot out.1) = cash (bot w) - tv /\
  exists ok, out.2 = Ok ok.
Proof.
  intros Hs Hlen Hget Htv Hp tv pos out. subst out. unfold execute_trade.
  assert (E1 : (MAX_POSITIONS cfg <=? Z.of_nat (length (positions (bot w))))%Z = false)
    by (apply Z.leb_gt; exact Hlen).
  assert (E2 : Dict.contains (positions (bot w)) symbol = false)
    by (unfold Dict.contains; now rewrite Hget).
  assert (E3 : Qltb (cash (bot w) * RISK_PER_TRADE cfg) 10 = false)
    by (apply Qltb_ge; exact Htv).
  assert (E4 : Qeq_bool price 0 = false).
  { destruct (Qeq_bool price 0) eqn:E; [|reflexivity].
    apply Qeq_bool_iff in E. contradiction. }
  destruct sig; [| |congruence];
    (rewrite E1, E2, E3, E4; unfold calculate_equity; cbv beta iota zeta;
     match goal with
     | |- context [log_to_csv sid ?W ?R] =>
         pose proof (log_to_csv_fields sid W R) as Hf;
         destruct (log_to_csv sid W R) as [w' ok]
     end;
     cbv zeta in Hf; destruct Hf as (Hc & _ & Hps & _);
     bot_fields; rewrite Hc, Hps, (dict_set_absent _ _ _ Hget);
     split; [reflexivity|]; split; [reflexivity|]; eauto).
Qed.

(** A delta that passes the threshold of the entry attempt has passed the
    threshold of the signal. *)
Lemma strong_signal_not_hold (current_price bue_value : Q) :
  0 < current_price ->
  15 # 10 < Qabs (deltaPct current_price bue_value) ->
  (generate_signal current_price bue_value).1 <> HOLD.
Proof.
  intros Hpos Habs. unfold generate_signal.
  apply Qle_bool_gt in Hpos. rewrite Hpos.
  fold (deltaPct current_price bue_value).
  set (d := deltaPct current_price bue_value) in *.
  destruct (Qltb (12 # 10) d) eqn:Hb; [discriminate|].
  destruct (Qltb d (- (12 # 10))) eqn:Hs; [discriminate|].
  apply Qltb_ge in Hb. apply Qltb_ge in Hs.
  assert (Hle : Qabs d <= 12 # 10) by (apply Qabs_Qle_condition; split; assumption).
  exfalso. lra.
Qed.

(** C5. The entry attempt of the cycle leaves the whole state as it was
    (same cash, same positions, same log) and opens nothing when the signal
    is HOLD, when the number of open positions has reached MAX_POSITIONS,
    when the symbol already has a position, when the absolute delta is at
    most the execution threshold 1.5, or when the notional, cash times
    RISK_PER_TRADE, is below the floor of 10.  The execution threshold is the
    stricter one: a delta above it never comes with a HOLD signal. *)
Theorem try_open_rejected (cfg : Config) (sid : string) (w : World)
    (symbol : string) (sig : signal) (price delta now : Q) :
  sig = HOLD \/
  (MAX_POSITIONS cfg <= Z.of_nat (length (positions (bot w))))%Z \/
  is_Some (Dict.get (positions (bot w)) symbol) \/
  Qabs delta <= 15 # 10 \/
  cash (bot w) * RISK_PER_TRADE cfg < 10 ->
  try_open cfg sid w symbol sig price delta now = (w, Ok false) /\
  cash (bot (try_open cfg sid w symbol sig price delta now).1) = cash (bot w) /\
  positions (bot (try_open cfg sid w symbol sig price delta now).1) =
    positions (bot w) /\
  (forall current_price bue_value,
     0 < current_price ->
     15 # 10 < Qabs (deltaPct current_price bue_value) ->
     (generate_signal current_price bue_value).1 <> HOLD).
Proof.
  intros H.
  assert (Hrej : try_open cfg sid w symbol sig price delta now = (w, Ok false)).
  { unfold try_open.
    destruct (bool_decide (sig = BUY \/ sig = SELL)) eqn:Hs; [|reflexivity].
    destruct (Qltb (15 # 10) (Qabs delta)) eqn:Hd; [|reflexivity].
    simpl. apply execute_trade_rejected.
    destruct H as [H|[H|[H|[H|H]]]]; auto.
    apply Qltb_lt in Hd. exfalso. apply (Qlt_not_le _ _ Hd H). }
  rewrite Hrej. repeat split. apply strong_signal_not_hold.
Qed.

Lemma try_open_rejected_witness :
  try_open default_config "20250607_120000" fresh_world "BTC" HOLD 100 0 0
    = (fresh_world, Ok false) /\
  try_open default_config "20250607_120000" fresh_world "BTC" BUY 100 (13 # 10) 0
    = (fresh_world, Ok false) /\
  try_open default_config "20250607_120000" after_first_buy "BTC" BUY 100 2 0
    = (after_first_buy, Ok false).
Proof.
  split; [|split].
  - apply (try_open_rejected default_config "20250607_120000" fresh_world
             "BTC" HOLD 100 0 0).
    left. reflexivity.
  - apply (try_open_rejected default_config "20250607_120000" fresh_world
             "BTC" BUY 100 (13 # 10) 0).
    right. right. right. left. vm_compute. discriminate.
  - apply (try_open_rejected default_config "20250607_120000" after_first_buy
             "BTC" BUY 100 2 0).
    right. right. left. vm_compute. eauto.
Defined.

(** What [execute_trade] does to the positions and the cash: nothing, or the
    append of one position for a symbol that had none, below the maximum. *)
Lemma execute_trade_effect (cfg : Config) (sid : string) (w : World)
    (symbol : string) (sig : signal) (price delta now : Q) :
  let out := execute_trade cfg sid w symbol sig price delta now in
  let tv := cash (bot w) * RISK_PER_TRADE cfg in
  out.1 = w \/
  (sig <> HOLD /\
   (Z.of_nat (length (positions (bot w))) < MAX_POSITIONS cfg)%Z /\
   Dict.get (positions (bot w)) symbol = None /\
   10 <= tv /\ ~ price == 0 /\
   positions (bot out.1) =
     positions (bot w) ++
     [(symbol, {| entry_price := price; quantity := (tv - tv * FEE_PCT cfg) / price;
                  timestamp := now; peak_price := price; side := sig;
                  trade_value := tv - tv * FEE_PCT cfg |})] /\
   cash (bot out.1) = cash (bot w) - tv /\
   exists ok, out.2 = Ok ok).
Proof.
  intros out tv. subst out tv.
  destruct (decide (sig = HOLD)) as [Hs|Hs].
  { left. rewrite execute_trade_rejected by auto. reflexivity. }
  destruct (Z.le_gt_cases (MAX_POSITIONS cfg) (Z.of_nat (length (positions (bot w)))))
    as [Hl|Hl].
  { left. rewrite execute_trade_rejected by auto. reflexivity. }
  destruct (Dict.get (positions (bot w)) symbol) eqn:Hg.
  { left. rewrite execute_trade_rejected; [reflexivity|]. rewrite Hg. eauto. }
  destruct (Qlt_le_dec (cash (bot w) * RISK_PER_TRADE cfg) 10) as [Ht|Ht].
  { left. rewrite execute_trade_rejected; [reflexivity|]. rewrite Hg. auto. }
  destruct (Qeq_dec price 0) as [Hp|Hp].
  { left. apply execute_trade_zero_price, Hp. }
  right. split; [assumption|]. split; [assumption|]. split; [reflexivity|].
  split; [assumption|]. split; [assumption|].
  apply execute_trade_opened; assumption.
Qed.

(** ** Closing a position (close_position) *)

Lemma close_position_effect (cfg : Config) (sid : string) (w : World)
    (symbol : string) (price : Q) (r : reason) (now : Q) (pos : Position) :
  Dict.get (positions (bot w)) symbol = Some pos ->
  let proceeds :=
    match side pos with BUY => quantity pos * price | _ => trade_value pos end in
  let pnl :=
    match side pos with
    | BUY => quantity pos * price - trade_value pos
    | _ => trade_value pos - quantity pos * price
    end in
  let exit_fee := proceeds * FEE_PCT cfg in
  let out := close_position cfg sid w symbol price r now in
  out.2 = (pnl - exit_fee, CLOSE (side pos), r) /\
  cash (bot out.1) = cash (bot w) + (proceeds - exit_fee) /\
  positions (bot out.1) = Dict.del (positions (bot w)) symbol.
Proof.
  intros Hg proceeds pnl exit_fee out. subst out proceeds pnl exit_fee.
  unfold close_position. rewrite Hg.
  destruct (side pos); unfold calculate_equity; cbv beta iota zeta;
    (match goal with
     | |- context [log_to_csv sid ?W ?R] =>
         pose proof (log_to_csv_fields sid W R) as Hf;
         destruct (log_to_csv sid W R) as [w' ok]
     end;
     cbv zeta in Hf; destruct Hf as (Hc & _ & Hps & _);
     bot_fields; rewrite Hc, Hps; repeat split).
Qed.




(** ** Exit evaluation (manage_positions) *)

Lemma dict_get_app_mid {V} (l1 l2 : list (string * V)) (k : string) (v : V) :
  k ∉ Dict.keys l1 -> Dict.get (l1 ++ (k, v) :: l2) k = Some v.
Proof.
  induction l1 as [|[k' v'] l1 IH]; simpl.
  - intros _. destruct (decide (k = k)); congruence.
  - rewrite not_elem_of_cons. intros [Hne Hk].
    destruct (decide (k' = k)); [congruence | auto].
Qed.

Lemma dict_set_app_mid {V} (l1 l2 : list (string * V)) (k : string) (v v' : V) :
  k ∉ Dict.keys l1 -> Dict.set (l1 ++ (k, v) :: l2) k v' = l1 ++ (k, v') :: l2.
Proof.
  induction l1 as [|[k0 v0] l1 IH]; simpl.
  - intros _. destruct (decide (k = k)); congruence.
  - rewrite not_elem_of_cons. intros [Hne Hk].
    destruct (decide (k0 = k)); [congruence|]. now rewrite IH.
Qed.

Lemma dict_del_app_mid {V} (l1 l2 : list (string * V)) (k : string) (v : V) :
  k ∉ Dict.keys l1 -> Dict.del (l1 ++ (k, v) :: l2) k = l1 ++ l2.
Proof.
  induction l1 as [|[k0 v0] l1 IH]; simpl.
  - intros _. destruct (decide (k = k)); congruence.
  - rewrite not_elem_of_cons. intros [Hne Hk].
    destruct (decide (k0 = k)); [congruence|]. now rewrite IH.
Qed.

Lemma keys_tracked (current_prices : list (string * Q)) (l : list (string * Position)) :
  Dict.keys (map (tracked current_prices) l) = Dict.keys l.
Proof.
  unfold Dict.keys. rewrite map_map. reflexivity.
Qed.

Lemma with_positions_id (w : World) (ps : list (string * Position)) :
  positions (bot w) = ps -> with_positions w ps = w.
Proof.
  destruct w as [[] fs]. simpl. intros ->. reflexivity.
Qed.

Lemma NoDup_keys_mid {V} (l1 l2 : list (string * V)) (k : string) (v : V) :
  NoDup (Dict.keys (l1 ++ (k, v) :: l2)) -> k ∉ Dict.keys l1.
Proof.
  unfold Dict.keys. rewrite map_app. simpl. intros H.
  apply NoDup_app in H as (_ & Hd & _).
  intros Hin. apply (Hd _ Hin). apply list_elem_of_here.
Qed.

Lemma manage_loop_spec (cfg : Config) (sid : string)
    (current_prices : list (string * Q)) (now : Q) :
  forall (todo done : list (string * Position)) (w : World),
    positions (bot w) = done ++ todo ->
    NoDup (Dict.keys (done ++ todo)) ->
    (Forall (fun item => exits cfg current_prices now item = None) todo ->
     manage_loop cfg sid (Dict.keys todo) w current_prices now =
       (with_positions w (done ++ map (tracked current_prices) todo),
        Ok (0, NONE, NA))) /\
    (forall l1 s p l2 r,
       todo = l1 ++ (s, p) :: l2 ->
       Forall (fun item => exits cfg current_prices now item = None) l1 ->
       exits cfg current_prices now (s, p) = Some r ->
       manage_loop cfg sid (Dict.keys todo) w current_prices now =
         let (w2, res) :=
           close_position cfg sid
             (with_positions w
                (done ++ map (tracked current_prices) l1 ++
                 tracked current_prices (s, p) :: l2))
             s (price_for current_prices (s, p)) r now in
         (w2, Ok res)).
Proof.
  induction todo as [|[s0 p0] todo IH]; intros done w Hps Hnd.
  - split.
    + intros _. simpl. rewrite app_nil_r in *.
      now rewrite (with_positions_id w done Hps).
    + intros l1 s p l2 r Heq. destruct l1; discriminate.
  - pose proof (NoDup_keys_mid _ _ _ _ Hnd) as Hk.
    assert (Hg : Dict.get (positions (bot w)) s0 = Some p0)
      by (rewrite Hps; apply dict_get_app_mid, Hk).
    assert (Hset : forall p',
               Dict.set (positions (bot w)) s0 p' = done ++ (s0, p') :: todo)
      by (intros p'; rewrite Hps; apply dict_set_app_mid, Hk).
    set (w1 := with_positions w
                 (done ++ tracked current_prices (s0, p0) :: todo)).
    assert (Hps1 : positions (bot w1) =
                   (done ++ [tracked current_prices (s0, p0)]) ++ todo)
      by (subst w1; simpl; now rewrite <- app_assoc).
    assert (Hnd1 : NoDup (Dict.keys
                     ((done ++ [tracked current_prices (s0, p0)]) ++ todo))).
    { rewrite <- app_assoc. simpl. unfold Dict.keys in *.
      rewrite map_app in *. simpl in *. exact Hnd. }
    destruct (IH _ w1 Hps1 Hnd1) as [IHnone IHhit].
    assert (Hstep : manage_loop cfg sid (Dict.keys ((s0, p0) :: todo)) w
                      current_prices now =
                    match exits cfg current_prices now (s0, p0) with
                    | Some r =>
                        let (w2, res) :=
                          close_position cfg sid w1 s0
                            (price_for current_prices (s0, p0)) r now in
                        (w2, Ok res)
                    | None => manage_loop cfg sid (Dict.keys todo) w1 current_prices now
                    end).
    { simpl. rewrite Hg. unfold exits, tracked, price_for. simpl.
      unfold on_bot at 1 2. rewrite Hset. reflexivity. }
    split.
    + intros Hall. apply Forall_cons in Hall as [Hx Hall].
      rewrite Hstep, Hx, (IHnone Hall). subst w1. simpl.
      rewrite <- app_assoc. reflexivity.
    + intros l1 s p l2 r Heq Hall Hr. rewrite Hstep.
      destruct l1 as [|[s1 p1] l1]; simpl in Heq; injection Heq as -> -> ->.
      * rewrite Hr. reflexivity.
      * apply Forall_cons in Hall as [Hx Hall]. rewrite Hx.
        rewrite (IHhit l1 s p l2 r eq_refl Hall Hr). subst w1. simpl.
        rewrite <- app_assoc. reflexivity.
Qed.

Lemma side_track_peak (pos : Position) (x : Q) : side (track_peak pos x) = side pos.
Proof. unfold track_peak. destruct (side pos) eqn:E; simpl; congruence. Qed.

Lemma first_hit_split {A B} (f : A -> option B) (l : list A) :
  Forall (fun x => f x = None) l \/
  exists l1 x l2 r, l = l1 ++ x :: l2 /\ Forall (fun x => f x = None) l1 /\ f x = Some r.
Proof.
  induction l as [|x l IH].
  - left. constructor.
  - destruct (f x) as [r|] eqn:Hx.
    + right. exists [], x, l, r. repeat split; [constructor | exact Hx].
    + destruct IH as [IH | (l1 & y & l2 & r & -> & Hall & Hy)].
      * left. constructor; assumption.
      * right. exists (x :: l1), y, l2, r. repeat split; [|exact Hy].
        constructor; assumption.
Qed.

Lemma manage_positions_none (cfg : Config) (sid : string) (w : World)
    (current_prices : list (string * Q)) (now : Q) :
  Dict.wf (positions (bot w)) ->
  Forall (fun item => exits cfg current_prices now item = None) (positions (bot w)) ->
  manage_positions cfg sid w current_prices now =
    (with_positions w (map (tracked current_prices) (positions (bot w))),
     Ok (0, NONE, NA)).
Proof.
  intros Hwf Hall. unfold manage_positions.
  destruct (positions (bot w)) as [|item ps] eqn:Hps.
  - cbn [map]. now rewrite (with_positions_id w [] Hps).
  - rewrite <- Hps in *.
    apply (manage_loop_spec cfg sid current_prices now (positions (bot w)) [] w
             eq_refl Hwf).
    exact Hall.
Qed.

Lemma manage_positions_hit (cfg : Config) (sid : string) (w : World)
    (current_prices : list (string * Q)) (now : Q)
    (l1 : list (string * Position)) (s : string) (p : Position)
    (l2 : list (string * Position)) (r : reason) :
  Dict.wf (positions (bot w)) ->
  positions (bot w) = l1 ++ (s, p) :: l2 ->
  Forall (fun item => exits cfg current_prices now item = None) l1 ->
  exits cfg current_prices now (s, p) = Some r ->
  let out := manage_positions cfg sid w current_prices now in
  (exists pnl, out.2 = Ok (pnl, CLOSE (side p), r)) /\
  positions (bot out.1) = map (tracked current_prices) l1 ++ l2.
Proof.
  intros Hwf Hps Hall Hr out. subst out. unfold manage_positions.
  destruct (positions (bot w)) as [|item ps] eqn:Hps0.
  { destruct l1; discriminate. }
  rewrite <- Hps0 in *. clear Hps0 item ps.
  destruct (manage_loop_spec cfg sid current_prices now (positions (bot w)) [] w
              eq_refl Hwf) as [_ Hhit].
  rewrite (Hhit l1 s p l2 r Hps Hall Hr). simpl app.
  assert (Hk : s ∉ Dict.keys (map (tracked current_prices) l1)).
  { rewrite keys_tracked. unfold Dict.wf in Hwf. rewrite Hps in Hwf.
    apply (NoDup_keys_mid _ _ _ _ Hwf). }
  set (w1 := with_positions w _).
  assert (Hg : Dict.get (positions (bot w1)) s =
               Some (track_peak p (price_for current_prices (s, p))))
    by (subst w1; simpl; apply (dict_get_app_mid _ _ _ _ Hk)).
  destruct (close_position_effect cfg sid w1 s (price_for current_prices (s, p))
              r now _ Hg) as (Hres & _ & Hpos).
  destruct (close_position cfg sid w1 s (price_for current_prices (s, p)) r now)
    as [w2 res]. simpl in Hres, Hpos |- *.
  rewrite side_track_peak in Hres. subst res. split; [eauto|].
  rewrite Hpos. subst w1. simpl. apply dict_del_app_mid, Hk.
Qed.

(** [manage_positions] returns (it raises no [KeyError]); what it leaves is
    again a dict, with the same positions or one less. *)
Lemma manage_positions_total (cfg : Config) (sid : string) (w : World)
    (current_prices : list (string * Q)) (now : Q) :
  Dict.wf (positions (bot w)) ->
  let out := manage_positions cfg sid w current_prices now in
  exists pnl a r,
    out.2 = Ok (pnl, a, r) /\
    Dict.wf (positions (bot out.1)) /\
    length (positions (bot w)) =
      (length (positions (bot out.1)) + if decide (a = NONE) then 0 else 1)%nat.
Proof.
  intros Hwf out. subst out.
  destruct (first_hit_split (exits cfg current_prices now) (positions (bot w)))
    as [Hall | (l1 & [s p] & l2 & r & Hps & Hall & Hr)].
  - rewrite (manage_positions_none cfg sid w current_prices now Hwf Hall).
    exists 0, NONE, NA. simpl. split; [reflexivity|]. split.
    + unfold Dict.wf. rewrite keys_tracked. exact Hwf.
    + rewrite length_map. lia.
  - destruct (manage_positions_hit cfg sid w current_prices now l1 s p l2 r
                Hwf Hps Hall Hr) as [[pnl Hres] Hpos].
    exists pnl, (CLOSE (side p)), r. split; [exact Hres|]. rewrite Hpos. split.
    + unfold Dict.wf in *. rewrite Hps in Hwf. unfold Dict.keys in *.
      rewrite map_app in *. simpl in Hwf. rewrite map_map. simpl.
      apply NoDup_app in Hwf as (H1 & Hd & H2).
      apply NoDup_cons in H2 as [_ H2].
      apply NoDup_app. split; [exact H1|]. split; [|exact H2].
      intros x Hx Hx'. apply (Hd x Hx). apply list_elem_of_further, Hx'.
    + rewrite Hps, !length_app, length_map. simpl. lia.
Qed.

Lemma Qle_bool_false (a b : Q) : Qle_bool a b = false <-> ~ a <= b.
Proof.
  rewrite <- Qle_bool_iff. destruct (Qle_bool a b); split; congruence.
Qed.

Ltac reflect_Qle :=
  repeat match goal with
  | |- context [Qle_bool ?a ?b] =>
      let E := fresh "E" in
      destruct (Qle_bool a b) eqn:E;
      [apply Qle_bool_iff in E | apply Qle_bool_false in E]
  end.

(** The tests of the loop body are tried in the order trailing stop, hard
    stop loss, take profit, age: a rule gives the reason only when none of
    the rules before it holds. *)
Lemma exit_rule_priority (cfg : Config) (pos : Position) (price now : Q) :
  (exit_rule cfg pos price now = Some TRAILING_STOP <-> trailing_hit cfg pos price) /\
  (exit_rule cfg pos price now = Some STOP_LOSS <->
     ~ trailing_hit cfg pos price /\ stop_hit cfg pos price) /\
  (exit_rule cfg pos price now = Some TAKE_PROFIT <->
     ~ trailing_hit cfg pos price /\ ~ stop_hit cfg pos price /\
     take_hit cfg pos price) /\
  (exit_rule cfg pos price now = Some TIMED_EXIT <->
     ~ trailing_hit cfg pos price /\ ~ stop_hit cfg pos price /\
     ~ take_hit cfg pos price /\ timed_hit cfg pos now) /\
  (exit_rule cfg pos price now = None <->
     ~ trailing_hit cfg pos price /\ ~ stop_hit cfg pos price /\
     ~ take_hit cfg pos price /\ ~ timed_hit cfg pos now).
Proof.
  unfold exit_rule, trailing_hit, stop_hit, take_hit, timed_hit.
  destruct (side pos); cbn [bool_decide decide_rel signal_eq_dec andb];
    try (rewrite ?bool_decide_eq_true_2 by reflexivity;
         rewrite ?bool_decide_eq_false_2 by discriminate);
    cbn [andb]; reflect_Qle;
    (repeat split; intros; try discriminate; try congruence;
     repeat match goal with
     | H : _ /\ _ |- _ => destruct H
     | H : _ \/ _ |- _ => destruct H
     | H : ~ (_ \/ _) |- _ => apply Decidable.not_or in H
     end;
     try discriminate; try congruence; try contradiction; try tauto;
     try solve [intros [[? ?]|[? ?]]; first [congruence | contradiction]];
     try solve [left; split; [reflexivity | assumption]];
     try solve [right; split; [reflexivity | assumption]]).
Qed.

(** ** The invariant of the open set *)

Lemma keeps_same (cfg : Config) (w w' : World) :
  positions (bot w') = positions (bot w) -> keeps cfg w w'.
Proof. intros H Hwf. rewrite H. auto. Qed.

Lemma keeps_trans (cfg : Config) (w1 w2 w3 : World) :
  keeps cfg w1 w2 -> keeps cfg w2 w3 -> keeps cfg w1 w3.
Proof.
  intros H12 H23 Hwf. destruct (H12 Hwf) as [Hwf2 Hl2].
  destruct (H23 Hwf2) as [Hwf3 Hl3]. auto.
Qed.

Lemma keeps_log_to_csv (cfg : Config) (sid : string) (w : World) (row_data : row) :
  keeps cfg w (log_to_csv sid w row_data).1.
Proof.
  apply keeps_same.
  destruct (log_to_csv_fields sid w row_data) as (_ & _ & H & _). exact H.
Qed.

Lemma keeps_deposit_funds (cfg : Config) (sid : string) (w : World) (amount now : Q) :
  keeps cfg w (deposit_funds sid w amount now).1.
Proof.
  unfold deposit_funds. destruct (Qle_bool amount 0).
  - now apply keeps_same.
  - match goal with
    | |- context [log_to_csv sid ?W ?R] =>
        pose proof (log_to_csv_fields sid W R) as (_ & _ & H & _)
    end.
    apply keeps_same. rewrite H. reflexivity.
Qed.

Lemma execute_trade_returns (cfg : Config) (sid : string) (w : World)
    (symbol : string) (sig : signal) (price delta now : Q) :
  ~ price == 0 ->
  exists ok, (execute_trade cfg sid w symbol sig price delta now).2 = Ok ok.
Proof.
  intros Hp.
  destruct (decide (sig = HOLD)) as [Hs|Hs].
  { rewrite execute_trade_rejected by auto. eauto. }
  destruct (Z.le_gt_cases (MAX_POSITIONS cfg) (Z.of_nat (length (positions (bot w)))))
    as [Hl|Hl].
  { rewrite execute_trade_rejected by auto. eauto. }
  destruct (Dict.get (positions (bot w)) symbol) eqn:Hg.
  { rewrite execute_trade_rejected; [eauto|]. rewrite Hg. eauto. }
  destruct (Qlt_le_dec (cash (bot w) * RISK_PER_TRADE cfg) 10) as [Ht|Ht].
  { rewrite execute_trade_rejected; [eauto|]. rewrite Hg. auto. }
  apply execute_trade_opened; assumption.
Qed.

Lemma keeps_execute_trade (cfg : Config) (sid : string) (w : World)
    (symbol : string) (sig : signal) (price delta now : Q) :
  keeps cfg w (execute_trade cfg sid w symbol sig price delta now).1.
Proof.
  destruct (execute_trade_effect cfg sid w symbol sig price delta now)
    as [-> | (_ & Hlen & Hg & _ & _ & Hps & _)].
  - now apply keeps_same.
  - intros Hwf. rewrite Hps, <- (dict_set_absent _ _ _ Hg). split.
    + apply dict_wf_set, Hwf.
    + intros _. rewrite dict_length_set. unfold Dict.contains. rewrite Hg. lia.
Qed.

Lemma keeps_close_position (cfg : Config) (sid : string) (w : World)
    (symbol : string) (price : Q) (r : reason) (now : Q) :
  keeps cfg w (close_position cfg sid w symbol price r now).1.
Proof.
  destruct (Dict.get (positions (bot w)) symbol) as [pos|] eqn:Hg.
  - destruct (close_position_effect cfg sid w symbol price r now pos Hg)
      as (_ & _ & Hps).
    intros Hwf. rewrite Hps. split.
    + apply dict_wf_del, Hwf.
    + pose proof (dict_length_del (positions (bot w)) symbol). lia.
  - unfold close_position. rewrite Hg. now apply keeps_same.
Qed.

Lemma keeps_manage_positions (cfg : Config) (sid : string) (w : World)
    (current_prices : list (string * Q)) (now : Q) :
  keeps cfg w (manage_positions cfg sid w current_prices now).1.
Proof.
  intros Hwf.
  destruct (manage_positions_total cfg sid w current_prices now Hwf)
    as (pnl & a & r & _ & Hwf' & Hlen).
  split; [exact Hwf'|]. intros Hl. lia.
Qed.

Lemma calculate_bue_value_positions (b : BotManager) (symbol : string) (p r : Q) :
  positions (calculate_bue_value b symbol p r).1 = positions b /\
  prices (calculate_bue_value b symbol p r).1 = prices b.
Proof.
  unfold calculate_bue_value. destruct (length _ <? 5)%nat; split; reflexivity.
Qed.

(** ** The cycle (run_simulation) *)

Lemma try_open_spec (cfg : Config) (sid : string) (w : World)
    (symbol : string) (sig : signal) (price delta now : Q) :
  ~ price == 0 ->
  (exists ok, (try_open cfg sid w symbol sig price delta now).2 = Ok ok) /\
  keeps cfg w (try_open cfg sid w symbol sig price delta now).1.
Proof.
  intros Hp. unfold try_open.
  destruct (bool_decide _ && Qltb _ _).
  - split; [apply execute_trade_returns, Hp | apply keeps_execute_trade].
  - split; [eauto | now apply keeps_same].
Qed.

Lemma scan_symbol_spec (cfg : Config) (sid : string) (w : World) (env : Tick)
    (symbol : string) (price : Q) :
  0 < price ->
  Dict.wf (positions (bot w)) ->
  (exists res, (scan_symbol cfg sid w env symbol price).2 = Ok res) /\
  keeps cfg w (scan_symbol cfg sid w env symbol price).1.
Proof.
  intros Hpos Hwf.
  assert (Hp : ~ price == 0) by (intros H; rewrite H in Hpos; discriminate).
  unfold scan_symbol.
  pose proof (calculate_bue_value_positions (bot w) symbol price (noise env)) as [Hb _].
  destruct (calculate_bue_value (bot w) symbol price (noise env)) as [b1 bue].
  cbn [fst] in Hb.
  destruct (generate_signal price bue) as [sig delta].
  destruct (try_open_spec cfg sid {| bot := b1; disk := disk w |} symbol sig price
              delta (clock env) Hp) as [[ok Hok] Hk1].
  destruct (try_open cfg sid {| bot := b1; disk := disk w |} symbol sig price delta
              (clock env)) as [w2 [ok'|e]]; cbn [fst snd] in *; [|discriminate].
  assert (Hk2 : keeps cfg w w2).
  { unfold keeps in *. cbn [bot] in Hk1. rewrite Hb in Hk1. exact Hk1. }
  clear Hk1 Hok.
  pose proof (keeps_manage_positions cfg sid w2 (prices (bot w2)) (clock env)) as Hk3.
  destruct (manage_positions_total cfg sid w2 (prices (bot w2)) (clock env)
              (proj1 (Hk2 Hwf))) as (pnl & a & r & Hr & _).
  destruct (manage_positions cfg sid w2 (prices (bot w2)) (clock env))
    as [w3 res]; cbn [fst snd] in *. subst res.
  unfold calculate_equity. cbv beta iota zeta.
  match goal with
  | |- context [log_to_csv sid ?W ?R] =>
      pose proof (log_to_csv_fields sid W R) as (_ & _ & Hps & _);
      destruct (log_to_csv sid W R) as [w5 ok5]
  end.
  bot_fields. split; [eauto|].
  apply (keeps_trans cfg w w2); [exact Hk2|].
  intros Hwf2. rewrite Hps. apply Hk3, Hwf2.
Qed.

Lemma scan_loop_spec (cfg : Config) (sid : string) (env : string -> Tick)
    (items : list (string * Q)) :
  forall w : World,
    Dict.wf (positions (bot w)) ->
    (exists rs, (scan_loop cfg sid items env w).2 = Ok rs /\
                map fst rs = processed items) /\
    keeps cfg w (scan_loop cfg sid items env w).1.
Proof.
  induction items as [|[symbol price] items IH]; intros w Hwf.
  - simpl. split; [exists []; auto | now apply keeps_same].
  - unfold processed in *. simpl.
    destruct (Qle_bool price 0) eqn:Hle.
    + assert (Hf : Qltb 0 price = false) by (apply Qltb_ge, Qle_bool_iff, Hle).
      rewrite Hf. apply IH, Hwf.
    + assert (Hpos : 0 < price) by (apply Qle_bool_gt, Hle).
      assert (Hf : Qltb 0 price = true) by (apply Qltb_lt, Hpos).
      rewrite Hf.
      destruct (scan_symbol_spec cfg sid w (env symbol) symbol price Hpos Hwf)
        as [[res Hres] Hk1].
      destruct (scan_symbol cfg sid w (env symbol) symbol price) as [w1 r1].
      cbn [fst snd] in *. subst r1.
      destruct (IH w1 (proj1 (Hk1 Hwf))) as [(rs & Hrs & Hmap) Hk2].
      destruct (scan_loop cfg sid items env w1) as [w2 r2].
      cbn [fst snd] in *. subst r2. split.
      * exists ((symbol, res) :: rs). split; [reflexivity|].
        simpl. now rewrite Hmap.
      * apply (keeps_trans cfg w w1 w2); assumption.
Qed.

Lemma run_cycle_spec (cfg : Config) (sid : string) (w : World)
    (fetched : list (string * Q)) (env : string -> Tick) :
  Dict.wf (positions (bot w)) ->
  (exists rs, (run_cycle cfg sid w fetched env).2 = Ok rs /\
              map fst rs = processed fetched) /\
  keeps cfg w (run_cycle cfg sid w fetched env).1.
Proof.
  intros Hwf. unfold run_cycle.
  destruct fetched as [|item fetched].
  - split; [exists []; auto | now apply keeps_same].
  - set (w0 := on_bot _ w).
    destruct (scan_loop_spec cfg sid env (prices (bot w0)) w0 Hwf) as [H1 H2].
    split; [exact H1 | exact H2].
Qed.

(** ** Invariants of the cycle *)

Section CycleInvariant.
Variable cfg : Config.
Variable sid : string.
Variable Inv : World -> Prop.

Hypothesis Inv_bue : forall w symbol price r,
  Inv w -> Inv (on_bot (fun b => (calculate_bue_value b symbol price r).1) w).
Hypothesis Inv_open : forall w symbol sig price delta now,
  Inv w -> 0 < price -> Inv (execute_trade cfg sid w symbol sig price delta now).1.
Hypothesis Inv_manage : forall w now,
  Inv w -> Inv (manage_positions cfg sid w (prices (bot w)) now).1.
Hypothesis Inv_equity : forall w current_prices,
  Inv w -> Inv (on_bot (fun b => (calculate_equity b current_prices).1) w).
Hypothesis Inv_log : forall w row_data, Inv w -> Inv (log_to_csv sid w row_data).1.

Lemma scan_symbol_inv (w : World) (env : Tick) (symbol : string) (price : Q) :
  0 < price -> Inv w -> Inv (scan_symbol cfg sid w env symbol price).1.
Proof.
  intros Hpos Hw. unfold scan_symbol.
  pose proof (Inv_bue w symbol price (noise env) Hw) as H1. unfold on_bot in H1.
  destruct (calculate_bue_value (bot w) symbol price (noise env)) as [b1 bue].
  cbn [fst] in H1.
  destruct (generate_signal price bue) as [sig delta].
  assert (H2 : Inv (try_open cfg sid {| bot := b1; disk := disk w |} symbol sig
                      price delta (clock env)).1).
  { unfold try_open. destruct (_ && _); [apply Inv_open; assumption | exact H1]. }
  destruct (try_open cfg sid {| bot := b1; disk := disk w |} symbol sig price delta
              (clock env)) as [w2 [ok|e]]; cbn [fst snd] in *; [|exact H2].
  pose proof (Inv_manage w2 (clock env) H2) as H3.
  destruct (manage_positions cfg sid w2 (prices (bot w2)) (clock env))
    as [w3 [[[pnl a] r]|e]]; cbn [fst snd] in *; [|exact H3].
  pose proof (Inv_equity w3 (prices (bot w3)) H3) as H4.
  unfold calculate_equity in *. cbv beta iota zeta.
  match goal with
  | |- context [log_to_csv sid ?W ?R] =>
      pose proof (Inv_log W R H4) as H5; destruct (log_to_csv sid W R) as [w5 ok5]
  end.
  exact H5.
Qed.

Lemma scan_loop_inv (env : string -> Tick) (items : list (string * Q)) :
  forall w : World, Inv w -> Inv (scan_loop cfg sid items env w).1.
Proof.
  induction items as [|[symbol price] items IH]; intros w Hw; [exact Hw|].
  cbn [scan_loop].
  destruct (Qle_bool price 0) eqn:Hle; [apply IH, Hw|].
  apply Qle_bool_gt in Hle.
  pose proof (scan_symbol_inv w (env symbol) symbol price Hle Hw) as H1.
  destruct (scan_symbol cfg sid w (env symbol) symbol price) as [w1 [r1|e]];
    cbn [fst] in *; [|exact H1].
  specialize (IH w1 H1).
  destruct (scan_loop cfg sid items env w1) as [w2 [rs|e]]; exact IH.
Qed.

Lemma run_cycle_inv (w : World) (fetched : list (string * Q)) (env : string -> Tick) :
  Inv (on_bot (fun b =>
         set_prices (set_total_api_calls b (total_api_calls b + 1)%Z) fetched) w) ->
  Inv (run_cycle cfg sid w fetched env).1.
Proof.
  intros Hw. unfold run_cycle. destruct fetched; [exact Hw|].
  apply scan_loop_inv, Hw.
Qed.
End CycleInvariant.

Lemma step_keeps (cfg : Config) (sid : string) (w w' : World) :
  step cfg sid w w' -> keeps cfg w w'.
Proof.
  intros [].
  - apply keeps_deposit_funds.
  - apply keeps_execute_trade.
  - apply keeps_close_position.
  - apply keeps_manage_positions.
  - now apply keeps_same.
  - apply keeps_same. apply calculate_bue_value_positions.
  - apply keeps_log_to_csv.
  - intros Hwf. now apply run_cycle_spec.
  - now apply keeps_same.
Qed.

Lemma reachable_positions_ok (cfg : Config) (sid : string) (w : World) :
  (0 <= MAX_POSITIONS cfg)%Z -> reachable cfg sid w -> positions_ok cfg (bot w).
Proof.
  intros Hmax (now & fs & Hrtc). revert w Hrtc.
  apply (rtc_ind_r (fun w => positions_ok cfg (bot w))).
  - split; [apply NoDup_nil_2 | simpl; lia].
  - intros w1 w2 _ Hstep IH. destruct IH as [Hwf Hlen].
    destruct (step_keeps cfg sid w1 w2 Hstep Hwf) as [Hwf2 Hlen2].
    split; auto.
Qed.

(** With a limit below zero the open set stays empty. *)
Lemma step_no_positions (cfg : Config) (sid : string) (w w' : World) :
  (MAX_POSITIONS cfg < 0)%Z ->
  step cfg sid w w' -> positions (bot w) = [] -> positions (bot w') = [].
Proof.
  intros Hmax Hstep.
  assert (Hopen : forall w1 symbol sig price delta now,
            positions (bot w1) = [] ->
            positions (bot (execute_trade cfg sid w1 symbol sig price delta now).1) = []).
  { intros w1 symbol sig price delta now H1.
    rewrite execute_trade_rejected; [exact H1|]. right. left. rewrite H1. simpl. lia. }
  assert (Hman : forall w1 current_prices now,
            positions (bot w1) = [] ->
            positions (bot (manage_positions cfg sid w1 current_prices now).1) = []).
  { intros w1 cp now H1. unfold manage_positions. rewrite H1. exact H1. }
  assert (Hlog : forall w1 row_data,
            positions (bot w1) = [] ->
            positions (bot (log_to_csv sid w1 row_data).1) = []).
  { intros w1 rd H1. destruct (log_to_csv_fields sid w1 rd) as (_ & _ & H & _).
    rewrite H. exact H1. }
  assert (Hbue : forall w1 symbol price r,
            positions (bot w1) = [] ->
            positions (bot (on_bot (fun b => (calculate_bue_value b symbol price r).1) w1))
              = []).
  { intros w1 symbol price r H1. unfold on_bot. cbn [bot].
    rewrite (proj1 (calculate_bue_value_positions (bot w1) symbol price r)).
    exact H1. }
  destruct Hstep as [w amount now | w symbol sig price delta now
                    | w symbol price r now | w current_prices now
                    | w current_prices | w symbol price rc | w row_data
                    | w fetched env | w fs]; intros Hw.
  - unfold deposit_funds. destruct (Qle_bool amount 0); [exact Hw|].
    apply Hlog. exact Hw.
  - apply Hopen, Hw.
  - unfold close_position. rewrite Hw. exact Hw.
  - apply Hman, Hw.
  - exact Hw.
  - apply Hbue, Hw.
  - apply Hlog, Hw.
  - apply (run_cycle_inv cfg sid (fun w => positions (bot w) = [])).
    + exact Hbue.
    + intros w1 symbol sig price delta now H1 _. apply Hopen, H1.
    + intros w1 now H1. apply Hman, H1.
    + intros w1 current_prices H1. exact H1.
    + exact Hlog.
    + exact Hw.
  - exact Hw.
Qed.

Lemma reachable_no_positions (cfg : Config) (sid : string) (w : World) :
  (MAX_POSITIONS cfg < 0)%Z -> reachable cfg sid w -> positions (bot w) = [].
Proof.
  intros Hmax (now & fs & Hrtc). revert w Hrtc.
  apply (rtc_ind_r (fun w => positions (bot w) = [])).
  - reflexivity.
  - intros w1 w2 _ Hstep IH. apply (step_no_positions cfg sid w1 w2 Hmax Hstep IH).
Qed.

(** C6, as the code has it.  A call of [execute_trade] whose checks pass (a
    BUY or SELL signal, fewer than MAX_POSITIONS positions, none for the
    symbol, a notional of at least 10) at a price that is not zero opens a
    position: it takes the full notional, cash times RISK_PER_TRADE, off the
    cash, which is a strict decrease, and puts last in the open set a
    position for the symbol with quantity notional * (1 - FEE_PCT) / price,
    the price as entry and peak, and the side of the signal.  No other call
    opens one: when the symbol has a position after a call and had none
    before, the checks had passed and the same holds.  Every state an engine
    can reach has at most one position per symbol, and the number of its
    positions is at most MAX_POSITIONS when that is not negative, and 0 when
    it is. *)
Theorem open_positions_invariant (cfg : Config) (sid : string) :
  (forall (w : World) (symbol : string) (sig : signal) (price delta now : Q),
     let out := execute_trade cfg sid w symbol sig price delta now in
     let notional := cash (bot w) * RISK_PER_TRADE cfg in
     sig <> HOLD ->
     (Z.of_nat (length (positions (bot w))) < MAX_POSITIONS cfg)%Z ->
     Dict.get (positions (bot w)) symbol = None ->
     10 <= notional ->
     ~ price == 0 ->
     exists pos : Position,
       Dict.get (positions (bot out.1)) symbol = Some pos /\
       positions (bot out.1) = positions (bot w) ++ [(symbol, pos)] /\
       cash (bot out.1) = cash (bot w) - notional /\
       cash (bot out.1) < cash (bot w) /\
       quantity pos == notional * (1 - FEE_PCT cfg) / price /\
       entry_price pos = price /\ peak_price pos = price /\ side pos = sig) /\
  (forall (w : World) (symbol : string) (sig : signal) (price delta now : Q)
          (pos : Position),
     let out := execute_trade cfg sid w symbol sig price delta now in
     let notional := cash (bot w) * RISK_PER_TRADE cfg in
     Dict.get (positions (bot w)) symbol = None ->
     Dict.get (positions (bot out.1)) symbol = Some pos ->
     sig <> HOLD /\
     (Z.of_nat (length (positions (bot w))) < MAX_POSITIONS cfg)%Z /\
     10 <= notional /\ ~ price == 0 /\
     cash (bot out.1) = cash (bot w) - notional /\
     cash (bot out.1) < cash (bot w) /\
     quantity pos == notional * (1 - FEE_PCT cfg) / price /\
     entry_price pos = price /\ peak_price pos = price /\ side pos = sig /\
     positions (bot out.1) = positions (bot w) ++ [(symbol, pos)]) /\
  (forall w : World, reachable cfg sid w ->
     NoDup (Dict.keys (positions (bot w))) /\
     (Z.of_nat (length (positions (bot w))) <= Z.max 0 (MAX_POSITIONS cfg))%Z).
Proof.
  split; [|split].
  - intros w symbol sig price delta now out notional Hs Hlen Hnone Htv Hp.
    subst out notional.
    destruct (execute_trade_opened cfg sid w symbol sig price delta now
                Hs Hlen Hnone Htv Hp) as (Hps & Hc & _).
    cbv zeta in Hps, Hc.
    eexists. split; [|split; [exact Hps|]].
    { rewrite Hps. apply dict_get_app_mid. apply dict_get_None, Hnone. }
    cbn [quantity entry_price peak_price side].
    split; [exact Hc|]. split; [rewrite Hc; lra|].
    split; [field; exact Hp|]. repeat split.
  - intros w symbol sig price delta now pos out notional Hnone Hsome.
    subst out notional.
    destruct (execute_trade_effect cfg sid w symbol sig price delta now)
      as [Hsame | (Hs & Hlen & _ & Htv & Hp & Hps & Hc & _)].
    { rewrite Hsame in Hsome. congruence. }
    rewrite Hps in Hsome.
    rewrite (dict_get_app_mid _ [] _ _ (proj1 (dict_get_None _ _) Hnone)) in Hsome.
    injection Hsome as <-. cbn [quantity entry_price peak_price side].
    split; [exact Hs|]. split; [exact Hlen|]. split; [exact Htv|].
    split; [exact Hp|].
    split; [exact Hc|]. split; [rewrite Hc; lra|].
    split; [field; exact Hp|]. repeat split. exact Hps.
  - intros w Hr.
    destruct (Z.le_gt_cases 0 (MAX_POSITIONS cfg)) as [Hmax|Hmax].
    + destruct (reachable_positions_ok cfg sid w Hmax Hr) as [Hwf Hlen].
      split; [exact Hwf | lia].
    + rewrite (reachable_no_positions cfg sid w Hmax Hr).
      split; [apply NoDup_nil_2 | simpl; lia].
Qed.

Lemma open_positions_invariant_witness :
  (exists pos : Position,
     Dict.get (positions (bot after_first_buy)) "BTC" = Some pos /\
     quantity pos == 50 * (1 - (1 # 1000)) / 100 /\
     cash (bot after_first_buy) == 950) /\
  NoDup (Dict.keys (positions (bot after_first_buy))) /\
  (Z.of_nat (length (positions (bot after_first_buy))) <= 3)%Z.
Proof.
  destruct (open_positions_invariant default_config "20250607_120000")
    as (H1 & _ & H3).
  split.
  - destruct (H1 fresh_world "BTC"%string BUY 100 2 0)
      as (pos & Hg & _ & Hc & _ & Hq & _).
    + discriminate.
    + vm_compute. reflexivity.
    + reflexivity.
    + vm_compute. discriminate.
    + vm_compute. discriminate.
    + exists pos. split; [exact Hg|]. split.
      * rewrite Hq. vm_compute. reflexivity.
      * change (cash (bot after_first_buy) =
                cash (bot fresh_world)
                - cash (bot fresh_world) * RISK_PER_TRADE default_config) in Hc.
        rewrite Hc. vm_compute. reflexivity.
  - apply H3. exists 0, fresh_log. apply rtc_once.
    apply (step_execute_trade default_config "20250607_120000" fresh_world).
Defined.

(** C6, as stated, fails for a limit below zero, which the environment can
    set (MAX_POSITIONS=-1): the fresh engine holds no position, and 0 is
    above that limit.  No call changes this: the open set stays empty. *)
Lemma open_positions_negative_limit :
  let w := {| bot := init negative_limit 0; disk := fresh_log |} in
  reachable negative_limit "20250607_120000" w /\
  (MAX_POSITIONS negative_limit < Z.of_nat (length (positions (bot w))))%Z /\
  positions (bot (execute_trade negative_limit "20250607_120000" w
                    "BTC" BUY 100 2 0).1) = [].
Proof.
  intros w. split; [|split].
  - exists 0, fresh_log. apply rtc_refl.
  - vm_compute. reflexivity.
  - vm_compute. reflexivity.
Qed.

(** C3, as the code has it.  One call of [manage_positions] returns and
    closes at most one position: when no open position meets an exit rule it
    closes none and only moves the peaks; otherwise it closes the first
    position, in the order of the dict, that meets a rule, for the first rule
    met in the order trailing stop, hard stop loss, take profit, age, and
    leaves the positions after it as they were, peaks included.  The cycle
    makes one such call for each symbol of the snapshot with a positive
    price, so that it processes at most as many closures as it has such
    symbols. *)
Theorem manage_positions_one_closure_per_call (cfg : Config) (sid : string)
    (w : World) (current_prices : list (string * Q)) (now : Q) :
  Dict.wf (positions (bot w)) ->
  let ps := positions (bot w) in
  let out := manage_positions cfg sid w current_prices now in
  let quiet_on := Forall (fun item => exits cfg current_prices now item = None) in
  (exists pnl a r,
     out.2 = Ok (pnl, a, r) /\
     length ps =
       (length (positions (bot out.1)) + if decide (a = NONE) then 0 else 1)%nat) /\
  (quiet_on ps ->
     out.2 = Ok (0, NONE, NA) /\
     positions (bot out.1) = map (tracked current_prices) ps) /\
  (forall l1 s p l2 r,
     ps = l1 ++ (s, p) :: l2 -> quiet_on l1 ->
     exits cfg current_prices now (s, p) = Some r ->
     (exists pnl, out.2 = Ok (pnl, CLOSE (side p), r)) /\
     positions (bot out.1) = map (tracked current_prices) l1 ++ l2) /\
  (forall pos price,
     (exit_rule cfg pos price now = Some TRAILING_STOP <-> trailing_hit cfg pos price) /\
     (exit_rule cfg pos price now = Some STOP_LOSS <->
        ~ trailing_hit cfg pos price /\ stop_hit cfg pos price) /\
     (exit_rule cfg pos price now = Some TAKE_PROFIT <->
        ~ trailing_hit cfg pos price /\ ~ stop_hit cfg pos price /\
        take_hit cfg pos price) /\
     (exit_rule cfg pos price now = Some TIMED_EXIT <->
        ~ trailing_hit cfg pos price /\ ~ stop_hit cfg pos price /\
        ~ take_hit cfg pos price /\ timed_hit cfg pos now) /\
     (exit_rule cfg pos price now = None <->
        ~ trailing_hit cfg pos price /\ ~ stop_hit cfg pos price /\
        ~ take_hit cfg pos price /\ ~ timed_hit cfg pos now)) /\
  (forall fetched env,
     exists rs,
       (run_cycle cfg sid w fetched env).2 = Ok rs /\
       map fst rs = processed fetched /\
       (length (closures rs) <= length (processed fetched))%nat).
Proof.
  intros Hwf ps out quiet_on. subst ps out quiet_on.
  split; [|split; [|split; [|split]]].
  - destruct (manage_positions_total cfg sid w current_prices now Hwf)
      as (pnl & a & r & Hr & _ & Hlen). eauto.
  - intros Hall.
    rewrite (manage_positions_none cfg sid w current_prices now Hwf Hall). auto.
  - intros l1 s p l2 r Hps Hall Hr.
    apply (manage_positions_hit cfg sid w current_prices now l1 s p l2 r
             Hwf Hps Hall Hr).
  - intros pos price. apply exit_rule_priority.
  - intros fetched env.
    destruct (run_cycle_spec cfg sid w fetched env Hwf) as [(rs & Hrs & Hmap) _].
    exists rs. split; [exact Hrs|]. split; [exact Hmap|].
    rewrite <- Hmap, length_map. unfold closures. apply length_filter.
Qed.

Lemma manage_positions_one_closure_per_call_witness :
  let out :=
    manage_positions default_config "20250607_120000" two_longs
      [("BTC"%string, 90); ("ETH"%string, 90)] 1 in
  (exists pnl, out.2 = Ok (pnl, CLOSE BUY, TRAILING_STOP)) /\
  positions (bot out.1) = [("ETH"%string, long_at_100)].
Proof.
  intros out.
  assert (Hwf : Dict.wf (positions (bot two_longs))).
  { unfold Dict.wf. apply (bool_decide_unpack _). vm_compute. exact I. }
  destruct (manage_positions_one_closure_per_call default_config "20250607_120000"
              two_longs [("BTC"%string, 90); ("ETH"%string, 90)] 1 Hwf)
    as (_ & _ & Hhit & _).
  apply (Hhit [] "BTC"%string long_at_100 [("ETH"%string, long_at_100)] TRAILING_STOP).
  - reflexivity.
  - constructor.
  - vm_compute. reflexivity.
Defined.

(** C3, as stated, fails: with two long positions entered at 100 and a
    snapshot that quotes both symbols at 90, one cycle closes both, each in
    the call made while its own symbol is processed. *)
Lemma run_cycle_two_closures :
  match (run_cycle default_config "20250607_120000" after_two_buys
           [("BTC"%string, 90); ("ETH"%string, 90)] (quiet 1)).2 with
  | Ok rs =>
      map (fun r => (r.1, r.2.1.2, r.2.2)) rs =
        [("BTC"%string, CLOSE BUY, TRAILING_STOP);
         ("ETH"%string, CLOSE BUY, TRAILING_STOP)] /\
      length (closures rs) = 2%nat /\
      ~ (length (closures rs) <= 1)%nat
  | Raise _ => False
  end /\
  length (positions (bot after_two_buys)) = 2%nat /\
  positions (bot (run_cycle default_config "20250607_120000" after_two_buys
                    [("BTC"%string, 90); ("ETH"%string, 90)] (quiet 1)).1) = [].
Proof.
  vm_compute. repeat split. lia.
Qed.

(** ** The price window in the running engine *)

Ltac log_step sid :=
  match goal with
  | |- context [log_to_csv sid ?W ?R] =>
      let Hh := fresh "Hh" in
      pose proof (log_to_csv_fields sid W R) as (_ & _ & _ & _ & Hh & _);
      destruct (log_to_csv sid W R) as [? ?]
  end.

Lemma execute_trade_history (cfg : Config) (sid : string) (w : World)
    (symbol : string) (sig : signal) (price delta now : Q) :
  price_history (bot (execute_trade cfg sid w symbol sig price delta now).1) =
  price_history (bot w).
Proof.
  unfold execute_trade.
  destruct sig; [| |reflexivity];
    (destruct (_ <=? _)%Z; [reflexivity|];
     destruct (Dict.contains _ _); [reflexivity|];
     destruct (Qltb _ _); [reflexivity|];
     destruct (Qeq_bool _ _); [reflexivity|];
     unfold calculate_equity; cbv beta iota zeta; log_step sid;
     bot_fields; assumption).
Qed.

Lemma close_position_history (cfg : Config) (sid : string) (w : World)
    (symbol : string) (price : Q) (r : reason) (now : Q) :
  price_history (bot (close_position cfg sid w symbol price r now).1) =
  price_history (bot w).
Proof.
  unfold close_position.
  destruct (Dict.get (positions (bot w)) symbol) as [pos|]; [|reflexivity].
  destruct (side pos); unfold calculate_equity; cbv beta iota zeta; log_step sid;
    bot_fields; assumption.
Qed.

Lemma manage_loop_history (cfg : Config) (sid : string)
    (current_prices : list (string * Q)) (now : Q) (symbols : list string) :
  forall w : World,
    price_history (bot (manage_loop cfg sid symbols w current_prices now).1) =
    price_history (bot w).
Proof.
  induction symbols as [|s rest IH]; intros w; [reflexivity|].
  cbn [manage_loop].
  destruct (Dict.get (positions (bot w)) s) as [pos|]; [|reflexivity].
  destruct (exit_rule cfg _ _ now) as [r|].
  - match goal with
    | |- context [close_position cfg sid ?W ?S ?P ?R ?N] =>
        pose proof (close_position_history cfg sid W S P R N) as H;
        destruct (close_position cfg sid W S P R N) as [w2 res]
    end.
    exact H.
  - rewrite IH. reflexivity.
Qed.

Lemma manage_positions_history (cfg : Config) (sid : string) (w : World)
    (current_prices : list (string * Q)) (now : Q) :
  price_history (bot (manage_positions cfg sid w current_prices now).1) =
  price_history (bot w).
Proof.
  unfold manage_positions. destruct (positions (bot w)); [reflexivity|].
  apply manage_loop_history.
Qed.

Lemma try_open_history (cfg : Config) (sid : string) (w : World)
    (symbol : string) (sig : signal) (price delta now : Q) :
  price_history (bot (try_open cfg sid w symbol sig price delta now).1) =
  price_history (bot w).
Proof.
  unfold try_open. destruct (_ && _); [apply execute_trade_history | reflexivity].
Qed.

Lemma scan_symbol_history (cfg : Config) (sid : string) (w : World) (env : Tick)
    (symbol : string) (price : Q) :
  price_history (bot (scan_symbol cfg sid w env symbol price).1) =
  price_history (calculate_bue_value (bot w) symbol price (noise env)).1.
Proof.
  unfold scan_symbol.
  destruct (calculate_bue_value (bot w) symbol price (noise env)) as [b1 bue].
  destruct (generate_signal price bue) as [sig delta].
  pose proof (try_open_history cfg sid {| bot := b1; disk := disk w |} symbol sig
                price delta (clock env)) as H1.
  destruct (try_open cfg sid {| bot := b1; disk := disk w |} symbol sig price delta
              (clock env)) as [w2 [ok|e]]; cbn [fst snd bot] in *; [|exact H1].
  pose proof (manage_positions_history cfg sid w2 (prices (bot w2)) (clock env)) as H2.
  destruct (manage_positions cfg sid w2 (prices (bot w2)) (clock env))
    as [w3 [[[pnl a] r]|e]]; cbn [fst snd] in *; [|congruence].
  unfold calculate_equity. cbv beta iota zeta. log_step sid.
  bot_fields. congruence.
Qed.

Lemma calculate_bue_value_history (b : BotManager) (symbol : string) (p r : Q) :
  price_history (calculate_bue_value b symbol p r).1 =
  <[symbol := push_price (history_of b symbol) p]> (price_history b).
Proof.
  unfold calculate_bue_value, history_of.
  destruct (length _ <? 5)%nat; reflexivity.
Qed.

Lemma feed_prices_history_congr (calls : list (string * Q * Q)) :
  forall b1 b2 : BotManager,
    price_history b1 = price_history b2 ->
    price_history (feed_prices b1 calls) = price_history (feed_prices b2 calls).
Proof.
  induction calls as [|c calls IH]; intros b1 b2 H; [exact H|].
  unfold feed_prices in *. cbn [fold_left]. apply IH.
  rewrite !calculate_bue_value_history. unfold history_of. now rewrite H.
Qed.

Lemma scan_loop_history (cfg : Config) (sid : string) (env : string -> Tick)
    (items : list (string * Q)) :
  forall w : World,
    Dict.wf (positions (bot w)) ->
    price_history (bot (scan_loop cfg sid items env w).1) =
    price_history (feed_prices (bot w) (calls_of items env)).
Proof.
  induction items as [|[symbol price] items IH]; intros w Hwf; [reflexivity|].
  unfold calls_of in *. cbn [scan_loop List.filter snd].
  destruct (Qle_bool price 0) eqn:Hle.
  - assert (Hf : Qltb 0 price = false) by (apply Qltb_ge, Qle_bool_iff, Hle).
    rewrite Hf. apply IH, Hwf.
  - assert (Hpos : 0 < price) by (apply Qle_bool_gt, Hle).
    assert (Hf : Qltb 0 price = true) by (apply Qltb_lt, Hpos).
    rewrite Hf. cbn [map fst snd].
    destruct (scan_symbol_spec cfg sid w (env symbol) symbol price Hpos Hwf)
      as [[res Hres] Hk].
    pose proof (scan_symbol_history cfg sid w (env symbol) symbol price) as Hh.
    destruct (scan_symbol cfg sid w (env symbol) symbol price) as [w1 r1].
    cbn [fst snd] in *. subst r1.
    specialize (IH w1 (proj1 (Hk Hwf))).
    assert (Hw2 : (let (w2, r2) := scan_loop cfg sid items env w1 in
                   match r2 with
                   | Ok rs => (w2, Ok ((symbol, res) :: rs))
                   | Raise e => (w2, Raise e)
                   end).1 = (scan_loop cfg sid items env w1).1)
      by (destruct (scan_loop cfg sid items env w1) as [w2 [rs|e]]; reflexivity).
    rewrite Hw2, IH.
    unfold feed_prices at 2. cbn [fold_left fst snd].
    apply feed_prices_history_congr. exact Hh.
Qed.

Lemma run_cycle_history (cfg : Config) (sid : string) (w : World)
    (fetched : list (string * Q)) (env : string -> Tick) :
  Dict.wf (positions (bot w)) ->
  price_history (bot (run_cycle cfg sid w fetched env).1) =
  price_history (feed_prices (bot w) (calls_of fetched env)).
Proof.
  intros Hwf. unfold run_cycle. destruct fetched as [|item fetched]; [reflexivity|].
  set (w0 := on_bot _ w).
  rewrite (scan_loop_history cfg sid env (prices (bot w0)) w0 Hwf).
  apply feed_prices_history_congr. reflexivity.
Qed.

Lemma run_cycles_history (cfg : Config) (sid : string) (w : World)
    (cycles : list (list (string * Q) * (string -> Tick))) :
  Dict.wf (positions (bot w)) ->
  Dict.wf (positions (bot (run_cycles cfg sid w cycles))) /\
  price_history (bot (run_cycles cfg sid w cycles)) =
  price_history (feed_prices (bot w) (calls_of_cycles cycles)).
Proof.
  intros Hwf. induction cycles as [|c cycles IH] using rev_ind.
  - split; [exact Hwf | reflexivity].
  - destruct IH as [Hwf1 Hh].
    unfold run_cycles, calls_of_cycles in *.
    rewrite fold_left_app, flat_map_app. cbn [fold_left flat_map].
    rewrite app_nil_r. split.
    + apply (run_cycle_spec cfg sid _ c.1 c.2 Hwf1), Hwf1.
    + rewrite (run_cycle_history cfg sid _ c.1 c.2 Hwf1).
      unfold feed_prices at 2. rewrite fold_left_app.
      apply feed_prices_history_congr. exact Hh.
Qed.

(** C9. Whatever calls of [calculate_bue_value] a fresh engine has served,
    the window it holds for a symbol has at most 20 entries and is exactly
    the last 20 (or all, when fewer) of the prices appended for that symbol,
    in arrival order; one more price is put last and, when 20 were held, the
    oldest is dropped.  The same holds in the running engine: after any
    number of cycles the window of a symbol is the last 20 of the prices the
    cycles appended for it. *)
Theorem price_history_window (cfg : Config) (sid : string) (now : Q)
    (fs : FileSys) (calls : list (string * Q * Q))
    (cycles : list (list (string * Q) * (string -> Tick))) (symbol : string) :
  let b := feed_prices (init cfg now) calls in
  let ps := appended symbol calls in
  let w := run_cycles cfg sid {| bot := init cfg now; disk := fs |} cycles in
  let qs := appended symbol (calls_of_cycles cycles) in
  (length (history_of b symbol) <= 20)%nat /\
  history_of b symbol = drop (length ps - 20) ps /\
  length (history_of b symbol) = Nat.min (length ps) 20 /\
  (forall p r,
     history_of (calculate_bue_value b symbol p r).1 symbol =
     if (length (history_of b symbol) <? 20)%nat
     then history_of b symbol ++ [p]
     else drop 1 (history_of b symbol) ++ [p]) /\
  (length (history_of (bot w) symbol) <= 20)%nat /\
  history_of (bot w) symbol = drop (length qs - 20) qs.
Proof.
  intros b ps w qs. subst b ps w qs.
  pose proof (history_of_feed cfg now calls symbol) as H.
  assert (Hw : history_of
                 (bot (run_cycles cfg sid {| bot := init cfg now; disk := fs |} cycles))
                 symbol =
               last_n 20 (appended symbol (calls_of_cycles cycles))).
  { destruct (run_cycles_history cfg sid {| bot := init cfg now; disk := fs |} cycles)
      as [_ Hh]; [apply NoDup_nil_2|].
    unfold history_of at 1. rewrite Hh. apply history_of_feed. }
  split; [|split; [|split; [|split; [|split]]]].
  - rewrite H. apply length_last_n.
  - exact H.
  - rewrite H. unfold last_n. rewrite length_drop. lia.
  - intros p r. rewrite history_of_step.
    destruct (decide (symbol = symbol)); [|congruence].
    assert (Hlen : (length (history_of (feed_prices (init cfg now) calls) symbol)
                    <= 20)%nat) by (rewrite H; apply length_last_n).
    unfold push_price. rewrite length_app. simpl.
    destruct (Nat.ltb_spec 20 (length (history_of (feed_prices (init cfg now) calls) symbol) + 1));
      destruct (Nat.ltb_spec (length (history_of (feed_prices (init cfg now) calls) symbol)) 20);
      try lia; try reflexivity.
    rewrite drop_app_le by lia. reflexivity.
  - rewrite Hw. apply length_last_n.
  - exact Hw.
Qed.

(** * Further properties of the engine *)

(** ** The snapshot (fetch_coingecko_data) *)











Lemma fetch_coingecko_data_bot (upper : string -> string) (b : BotManager)
    (resp : Response) :
  (fetch_coingecko_data upper b resp).1 =
  set_total_api_calls b (total_api_calls b + 1)%Z.
Proof. destruct resp as [| |[]]; reflexivity. Qed.



(** X2. An iteration whose request fails, or brings no valid item, is
    skipped: the cash, the positions, the price windows, the stored portfolio
    value and the log are as before, no closure is reported; the snapshot
    held in [self.prices] is replaced by the empty one. *)
Theorem failed_fetch_skips_cycle (upper : string -> string) (cfg : Config)
    (sid : string) (w : World) (resp : Response) (fetched : list (string * Q))
    (env : string -> Tick) :
  (fetch_coingecko_data upper (bot w) resp).2 = Returned fetched ->
  fetched = [] ->
  let out := run_cycle cfg sid w fetched env in
  out.2 = Ok [] /\
  cash (bot out.1) = cash (bot w) /\
  positions (bot out.1) = positions (bot w) /\
  price_history (bot out.1) = price_history (bot w) /\
  portfolio_value (bot out.1) = portfolio_value (bot w) /\
  state_saved (bot out.1) = state_saved (bot w) /\
  disk out.1 = disk w /\
  prices (bot out.1) = [] /\
  total_api_calls (bot out.1) =
    total_api_calls (fetch_coingecko_data upper (bot w) resp).1.
Proof.
  intros _ -> out. subst out.
  unfold run_cycle. cbn [fst snd]. repeat split.
  rewrite fetch_coingecko_data_bot. reflexivity.
Qed.

Lemma failed_fetch_skips_cycle_witness :
  let out :=
    run_cycle default_config "20250607_120000" after_two_buys [] (quiet 1) in
  out.2 = Ok [] /\ positions (bot out.1) = positions (bot after_two_buys).
Proof.
  intros out.
  destruct (failed_fetch_skips_cycle ascii_upper default_config "20250607_120000"
              after_two_buys (Body (JDict [("error"%string, JStr "rate limit")]))
              [] (quiet 1) eq_refl eq_refl) as (H1 & _ & H2 & _).
  split; [exact H1 | exact H2].
Defined.

(** ** What one call of manage_positions does *)

Lemma manage_positions_cases (cfg : Config) (sid : string) (w : World)
    (current_prices : list (string * Q)) (now : Q) :
  Dict.wf (positions (bot w)) ->
  (Forall (fun item => exits cfg current_prices now item = None) (positions (bot w)) /\
   manage_positions cfg sid w current_prices now =
     (with_positions w (map (tracked current_prices) (positions (bot w))),
      Ok (0, NONE, NA))) \/
  (exists l1 s p l2 r,
     positions (bot w) = l1 ++ (s, p) :: l2 /\
     Forall (fun item => exits cfg current_prices now item = None) l1 /\
     exits cfg current_prices now (s, p) = Some r /\
     manage_positions cfg sid w current_prices now =
       (let (w2, res) :=
          close_position cfg sid
            (with_positions w
               (map (tracked current_prices) l1 ++ tracked current_prices (s, p) :: l2))
            s (price_for current_prices (s, p)) r now in
        (w2, Ok res))).
Proof.
  intros Hwf.
  destruct (first_hit_split (exits cfg current_prices now) (positions (bot w)))
    as [Hall | (l1 & [s p] & l2 & r & Hps & Hall & Hr)].
  - left. split; [exact Hall|]. apply manage_positions_none; assumption.
  - right. exists l1, s, p, l2, r. repeat (split; [assumption|]).
    unfold manage_positions.
    destruct (positions (bot w)) as [|item ps] eqn:Hps0.
    { destruct l1; discriminate. }
    rewrite <- Hps0 in *.
    destruct (manage_loop_spec cfg sid current_prices now (positions (bot w)) [] w
                eq_refl Hwf) as [_ Hhit].
    apply (Hhit l1 s p l2 r Hps Hall Hr).
Qed.

(** ** The snapshot is only replaced by the cycle *)

Ltac log_step_prices sid :=
  match goal with
  | |- context [log_to_csv sid ?W ?R] =>
      let Hp := fresh "Hp" in
      pose proof (log_to_csv_fields sid W R) as (_ & _ & _ & Hp & _);
      destruct (log_to_csv sid W R) as [? ?]
  end.

Lemma execute_trade_prices (cfg : Config) (sid : string) (w : World)
    (symbol : string) (sig : signal) (price delta now : Q) :
  prices (bot (execute_trade cfg sid w symbol sig price delta now).1) = prices (bot w).
Proof.
  unfold execute_trade.
  destruct sig; [| |reflexivity];
    (destruct (_ <=? _)%Z; [reflexivity|];
     destruct (Dict.contains _ _); [reflexivity|];
     destruct (Qltb _ _); [reflexivity|];
     destruct (Qeq_bool _ _); [reflexivity|];
     unfold calculate_equity; cbv beta iota zeta; log_step_prices sid;
     bot_fields; assumption).
Qed.

Lemma close_position_prices (cfg : Config) (sid : string) (w : World)
    (symbol : string) (price : Q) (r : reason) (now : Q) :
  prices (bot (close_position cfg sid w symbol price r now).1) = prices (bot w).
Proof.
  unfold close_position.
  destruct (Dict.get (positions (bot w)) symbol) as [pos|]; [|reflexivity].
  destruct (side pos); unfold calculate_equity; cbv beta iota zeta;
    log_step_prices sid; bot_fields; assumption.
Qed.

Lemma manage_loop_prices (cfg : Config) (sid : string)
    (current_prices : list (string * Q)) (now : Q) (symbols : list string) :
  forall w : World,
    prices (bot (manage_loop cfg sid symbols w current_prices now).1) = prices (bot w).
Proof.
  induction symbols as [|s rest IH]; intros w; [reflexivity|].
  cbn [manage_loop].
  destruct (Dict.get (positions (bot w)) s) as [pos|]; [|reflexivity].
  destruct (exit_rule cfg _ _ now) as [r|].
  - match goal with
    | |- context [close_position cfg sid ?W ?S ?P ?R ?N] =>
        pose proof (close_position_prices cfg sid W S P R N) as H;
        destruct (close_position cfg sid W S P R N) as [w2 res]
    end.
    exact H.
  - rewrite IH. reflexivity.
Qed.

Lemma manage_positions_prices (cfg : Config) (sid : string) (w : World)
    (current_prices : list (string * Q)) (now : Q) :
  prices (bot (manage_positions cfg sid w current_prices now).1) = prices (bot w).
Proof.
  unfold manage_positions. destruct (positions (bot w)); [reflexivity|].
  apply manage_loop_prices.
Qed.

(** ** The positions of a reachable engine *)

Lemma py_max_ge (a b : Q) : a <= py_max a b /\ b <= py_max a b.
Proof.
  unfold py_max. destruct (Qltb a b) eqn:E.
  - apply Qltb_lt in E. split; lra.
  - apply Qltb_ge in E. split; lra.
Qed.

Lemma py_min_le (a b : Q) : py_min a b <= a /\ py_min a b <= b.
Proof.
  unfold py_min. destruct (Qltb b a) eqn:E.
  - apply Qltb_lt in E. split; lra.
  - apply Qltb_ge in E. split; lra.
Qed.

Lemma track_peak_fields (p : Position) (x : Q) :
  entry_price (track_peak p x) = entry_price p /\
  quantity (track_peak p x) = quantity p /\
  trade_value (track_peak p x) = trade_value p /\
  timestamp (track_peak p x) = timestamp p /\
  side (track_peak p x) = side p /\
  (side p = BUY -> peak_price p <= peak_price (track_peak p x) /\
                   x <= peak_price (track_peak p x)) /\
  (side p <> BUY -> peak_price (track_peak p x) <= peak_price p /\
                    peak_price (track_peak p x) <= x).
Proof.
  unfold track_peak. destruct (side p) eqn:Hs; simpl; rewrite ?Hs;
    repeat split; try congruence; intros; try congruence;
    try apply py_max_ge; try apply py_min_le.
Qed.

Lemma sound_track_peak (p : Position) (x : Q) :
  sound_position p -> sound_position (track_peak p x).
Proof.
  intros (Hs & He & Hq & Hb & Hl).
  destruct (track_peak_fields p x) as (E1 & E2 & E3 & _ & E5 & Hup & Hdown).
  unfold sound_position. rewrite E1, E2, E3, E5.
  split; [exact Hs|]. split; [exact He|]. split; [exact Hq|]. split.
  - intros Hbuy. destruct (Hup Hbuy) as [H1 _]. specialize (Hb Hbuy). lra.
  - intros Hsell. assert (Hnb : side p <> BUY) by congruence.
    destruct (Hdown Hnb) as [H1 _]. specialize (Hl Hsell). lra.
Qed.

Lemma Forall_dict_del {V} (P : string * V -> Prop) (d : list (string * V)) (k : string) :
  Forall P d -> Forall P (Dict.del d k).
Proof.
  induction 1 as [|[k' v'] d Hx Hd IH]; simpl; [constructor|].
  destruct (decide (k' = k)); [exact Hd | constructor; assumption].
Qed.

Lemma sound_book_same (w w' : World) :
  positions (bot w') = positions (bot w) -> sound_book w -> sound_book w'.
Proof. unfold sound_book. intros ->. auto. Qed.

Lemma sound_book_execute_trade (cfg : Config) (sid : string) (w : World)
    (symbol : string) (sig : signal) (price delta now : Q) :
  sound_book w -> sound_book (execute_trade cfg sid w symbol sig price delta now).1.
Proof.
  intros [Hwf Hall].
  destruct (execute_trade_effect cfg sid w symbol sig price delta now)
    as [-> | (Hs & _ & Hg & _ & Hp & Hps & _)]; [split; assumption|].
  split.
  - apply (keeps_execute_trade cfg sid w symbol sig price delta now Hwf).
  - rewrite Hps. apply Forall_app. split; [exact Hall|].
    constructor; [|constructor]. unfold sound_position. simpl.
    split; [exact Hs|]. split; [exact Hp|]. split; [field; exact Hp|].
    split; intros _; apply Qle_refl.
Qed.

Lemma sound_book_close_position (cfg : Config) (sid : string) (w : World)
    (symbol : string) (price : Q) (r : reason) (now : Q) :
  sound_book w -> sound_book (close_position cfg sid w symbol price r now).1.
Proof.
  intros [Hwf Hall]. split.
  - apply (keeps_close_position cfg sid w symbol price r now Hwf).
  - destruct (Dict.get (positions (bot w)) symbol) as [pos|] eqn:Hg.
    + destruct (close_position_effect cfg sid w symbol price r now pos Hg)
        as (_ & _ & ->).
      apply Forall_dict_del, Hall.
    + unfold close_position. rewrite Hg. exact Hall.
Qed.

Lemma sound_book_tracked (current_prices : list (string * Q))
    (l : list (string * Position)) :
  Forall (fun kv => sound_position kv.2) l ->
  Forall (fun kv => sound_position kv.2) (map (tracked current_prices) l).
Proof.
  intros H. apply Forall_map. eapply Forall_impl; [exact H|].
  intros [s p] Hp. simpl. apply sound_track_peak, Hp.
Qed.

Lemma sound_book_manage_positions (cfg : Config) (sid : string) (w : World)
    (current_prices : list (string * Q)) (now : Q) :
  sound_book w -> sound_book (manage_positions cfg sid w current_prices now).1.
Proof.
  intros [Hwf Hall]. split.
  - apply (keeps_manage_positions cfg sid w current_prices now Hwf).
  - destruct (first_hit_split (exits cfg current_prices now) (positions (bot w)))
      as [Hnone | (l1 & [s p] & l2 & r & Hps & Hnone & Hr)].
    + rewrite (manage_positions_none cfg sid w current_prices now Hwf Hnone).
      simpl. apply sound_book_tracked, Hall.
    + destruct (manage_positions_hit cfg sid w current_prices now l1 s p l2 r
                  Hwf Hps Hnone Hr) as [_ ->].
      rewrite Hps in Hall. apply Forall_app in Hall as [H1 H2].
      apply Forall_cons in H2 as [_ H2].
      apply Forall_app. split; [apply sound_book_tracked, H1 | exact H2].
Qed.

Lemma deposit_funds_fields (sid : string) (w : World) (amount now : Q) :
  let b' := bot (deposit_funds sid w amount now).1 in
  positions b' = positions (bot w) /\ prices b' = prices (bot w) /\
  price_history b' = price_history (bot w) /\
  last_activity b' = last_activity (bot w) /\
  total_api_calls b' = total_api_calls (bot w).
Proof.
  unfold deposit_funds. destruct (Qle_bool amount 0); [repeat split|].
  match goal with
  | |- context [log_to_csv sid ?W ?R] =>
      pose proof (log_to_csv_fields sid W R) as (_ & _ & H1 & H2 & H3 & H4 & H5)
  end.
  cbv zeta. rewrite H1, H2, H3, H4, H5. repeat split.
Qed.

Lemma log_to_csv_positions (sid : string) (w : World) (row_data : row) :
  positions (bot (log_to_csv sid w row_data).1) = positions (bot w).
Proof. destruct (log_to_csv_fields sid w row_data) as (_ & _ & H & _). exact H. Qed.

Lemma step_sound_book (cfg : Config) (sid : string) (w w' : World) :
  step cfg sid w w' -> sound_book w -> sound_book w'.
Proof.
  intros [] Hw.
  - eapply sound_book_same; [|exact Hw]. apply deposit_funds_fields.
  - apply sound_book_execute_trade, Hw.
  - apply sound_book_close_position, Hw.
  - apply sound_book_manage_positions, Hw.
  - eapply sound_book_same; [|exact Hw]. reflexivity.
  - eapply sound_book_same; [|exact Hw]. apply calculate_bue_value_positions.
  - eapply sound_book_same; [|exact Hw]. apply log_to_csv_positions.
  - apply (run_cycle_inv cfg sid sound_book).
    + intros w1 s p r H. eapply sound_book_same; [|exact H].
      apply calculate_bue_value_positions.
    + intros w1 s sg p d t H _. apply sound_book_execute_trade, H.
    + intros w1 t H. apply sound_book_manage_positions, H.
    + intros w1 ps H. eapply sound_book_same; [|exact H]. reflexivity.
    + intros w1 rd H. eapply sound_book_same; [|exact H].
      apply log_to_csv_positions.
    + eapply sound_book_same; [|exact Hw]. reflexivity.
  - eapply sound_book_same; [|exact Hw]. reflexivity.
Qed.

Lemma reachable_sound_book (cfg : Config) (sid : string) (w : World) :
  reachable cfg sid w -> sound_book w.
Proof.
  intros (now & fs & Hrtc). revert w Hrtc.
  apply (rtc_ind_r (fun w => sound_book w)).
  - split; [apply NoDup_nil_2 | constructor].
  - intros w1 w2 _ Hstep IH. apply (step_sound_book cfg sid w1 w2 Hstep IH).
Qed.

(** The loop opens positions at positive prices only, and nothing changes
    the entry price of a position. *)
Lemma priced_book_same (w w' : World) :
  positions (bot w') = positions (bot w) -> priced_book w -> priced_book w'.
Proof.
  intros H [H1 H2]. split; [eapply sound_book_same; eassumption|].
  rewrite H. exact H2.
Qed.

Lemma priced_book_execute_trade (cfg : Config) (sid : string) (w : World)
    (symbol : string) (sig : signal) (price delta now : Q) :
  priced_book w -> 0 < price ->
  priced_book (execute_trade cfg sid w symbol sig price delta now).1.
Proof.
  intros [H1 H2] Hp. split; [apply sound_book_execute_trade, H1|].
  destruct (execute_trade_effect cfg sid w symbol sig price delta now)
    as [-> | (_ & _ & _ & _ & _ & Hps & _)]; [exact H2|].
  rewrite Hps. apply Forall_app. split; [exact H2|].
  constructor; [exact Hp | constructor].
Qed.

Lemma priced_book_manage_positions (cfg : Config) (sid : string) (w : World)
    (current_prices : list (string * Q)) (now : Q) :
  priced_book w -> priced_book (manage_positions cfg sid w current_prices now).1.
Proof.
  intros [H1 H2]. split; [apply sound_book_manage_positions, H1|].
  destruct H1 as [Hwf _].
  assert (Htr : forall l : list (string * Position),
            Forall (fun kv => 0 < entry_price kv.2) l ->
            Forall (fun kv => 0 < entry_price kv.2) (map (tracked current_prices) l)).
  { intros l Hl. apply Forall_map. eapply Forall_impl; [exact Hl|].
    intros [s p] Hp. unfold tracked. cbn [fst snd] in *.
    destruct (track_peak_fields p (price_for current_prices (s, p))) as (E1 & _).
    rewrite E1. exact Hp. }
  destruct (first_hit_split (exits cfg current_prices now) (positions (bot w)))
    as [Hnone | (l1 & [s p] & l2 & r & Hps & Hnone & Hr)].
  - rewrite (manage_positions_none cfg sid w current_prices now Hwf Hnone).
    simpl. apply Htr, H2.
  - destruct (manage_positions_hit cfg sid w current_prices now l1 s p l2 r
                Hwf Hps Hnone Hr) as [_ ->].
    rewrite Hps in H2. apply Forall_app in H2 as [Ha Hb].
    apply Forall_cons in Hb as [_ Hb].
    apply Forall_app. split; [apply Htr, Ha | exact Hb].
Qed.

Lemma priced_book_run_cycle (cfg : Config) (sid : string) (w : World)
    (fetched : list (string * Q)) (env : string -> Tick) :
  priced_book w -> priced_book (run_cycle cfg sid w fetched env).1.
Proof.
  intros Hw. apply (run_cycle_inv cfg sid priced_book).
  - intros w1 s p r H. eapply priced_book_same; [|exact H].
    apply calculate_bue_value_positions.
  - intros w1 s sg p d t H Hp. apply priced_book_execute_trade; assumption.
  - intros w1 t H. apply priced_book_manage_positions, H.
  - intros w1 ps H. eapply priced_book_same; [|exact H]. reflexivity.
  - intros w1 rd H. eapply priced_book_same; [|exact H].
    apply log_to_csv_positions.
  - eapply priced_book_same; [|exact Hw]. reflexivity.
Qed.

Lemma dict_in_get {V} (d : list (string * V)) (k : string) (v : V) :
  Dict.wf d -> (k, v) ∈ d -> Dict.get d k = Some v.
Proof.
  intros Hwf Hin. apply list_elem_of_split in Hin as (l1 & l2 & ->).
  apply dict_get_app_mid. apply (NoDup_keys_mid _ _ _ _ Hwf).
Qed.

(** X3. Every position of an engine that was started by [BotManager()] and
    driven through its methods, with whatever arguments, is LONG or SHORT
    (never HOLD), has an entry price that is not zero, a quantity worth
    exactly the committed value at the entry price, and a peak at or above
    the entry price for a LONG, at or below it for a SHORT. *)
Theorem reachable_positions_sound (cfg : Config) (sid : string) (w : World)
    (symbol : string) (p : Position) :
  reachable cfg sid w ->
  Dict.get (positions (bot w)) symbol = Some p ->
  (side p = BUY \/ side p = SELL) /\
  ~ entry_price p == 0 /\
  quantity p * entry_price p == trade_value p /\
  (side p = BUY -> entry_price p <= peak_price p) /\
  (side p = SELL -> peak_price p <= entry_price p).
Proof.
  intros Hr Hg. destruct (reachable_sound_book cfg sid w Hr) as [_ Hall].
  apply dict_get_Some_in in Hg.
  rewrite Forall_forall in Hall. destruct (Hall _ Hg) as (Hs & He & Hq & Hb & Hl).
  simpl in *. split; [|auto]. destruct (side p); auto. congruence.
Qed.

Lemma reachable_positions_sound_witness :
  match Dict.get (positions (bot after_two_buys)) "ETH" with
  | Some p => side p = BUY \/ side p = SELL
  | None => False
  end.
Proof.
  destruct (Dict.get (positions (bot after_two_buys)) "ETH") as [p|] eqn:Hg;
    [|vm_compute in Hg; discriminate].
  apply (reachable_positions_sound default_config "20250607_120000" after_two_buys
           "ETH"%string p).
  - exists 0, fresh_log. eapply rtc_l; [|apply rtc_once].
    + apply (step_execute_trade default_config "20250607_120000" fresh_world
               "BTC"%string BUY 100 2 0).
    + apply (step_execute_trade default_config "20250607_120000" after_first_buy
               "ETH"%string BUY 100 2 0).
  - exact Hg.
Defined.

(** ** Equity at entry prices *)

Lemma unrealized_at_entry (current_prices : list (string * Q)) (s : string)
    (p : Position) :
  sound_position p ->
  price_for current_prices (s, p) == entry_price p ->
  unrealized current_prices (s, p) == 0.
Proof.
  intros (_ & _ & Hq & _) Hcp. unfold unrealized, price_for in *. simpl in Hcp.
  destruct (side p); rewrite Hcp, Hq; lra.
Qed.

Lemma equity_at_entry (b : BotManager) (current_prices : list (string * Q)) :
  Forall (fun kv => sound_position kv.2) (positions b) ->
  Forall (fun kv => price_for current_prices kv == entry_price kv.2) (positions b) ->
  (calculate_equity b current_prices).2 == cash b.
Proof.
  intros Hs Hp. cbn [calculate_equity snd]. unfold unrealized_pnl.
  rewrite fold_left_unrealized.
  assert (H0 : total_unrealized (positions b) current_prices == 0).
  { induction (positions b) as [|[s p] l IH]; [reflexivity|].
    apply Forall_cons in Hs as [Hs1 Hs2]. apply Forall_cons in Hp as [Hp1 Hp2].
    simpl. rewrite (IH Hs2 Hp2).
    pose proof (unrealized_at_entry current_prices s p Hs1 Hp1) as Hu.
    unfold unrealized in Hu. rewrite Hu. lra. }
  rewrite H0. lra.
Qed.

Lemma execute_trade_opened_value (cfg : Config) (sid : string) (w : World)
    (symbol : string) (sig : signal) (price delta now : Q) :
  sig <> HOLD ->
  (Z.of_nat (length (positions (bot w))) < MAX_POSITIONS cfg)%Z ->
  Dict.get (positions (bot w)) symbol = None ->
  10 <= cash (bot w) * RISK_PER_TRADE cfg ->
  ~ price == 0 ->
  let out := execute_trade cfg sid w symbol sig price delta now in
  exists b3,
    positions b3 = positions (bot out.1) /\ cash b3 = cash (bot out.1) /\
    portfolio_value (bot out.1) = (calculate_equity b3 [(symbol, price)]).2.
Proof.
  intros Hs Hlen Hget Htv Hp out. subst out. unfold execute_trade.
  assert (E1 : (MAX_POSITIONS cfg <=? Z.of_nat (length (positions (bot w))))%Z = false)
    by (apply Z.leb_gt; exact Hlen).
  assert (E2 : Dict.contains (positions (bot w)) symbol = false)
    by (unfold Dict.contains; now rewrite Hget).
  assert (E3 : Qltb (cash (bot w) * RISK_PER_TRADE cfg) 10 = false)
    by (apply Qltb_ge; exact Htv).
  assert (E4 : Qeq_bool price 0 = false).
  { destruct (Qeq_bool price 0) eqn:E; [|reflexivity].
    apply Qeq_bool_iff in E. contradiction. }
  destruct sig; [| |congruence];
    (rewrite E1, E2, E3, E4; unfold calculate_equity; cbv beta iota zeta;
     match goal with
     | |- context [log_to_csv sid {| bot := set_portfolio_value ?B ?V; disk := ?D |} ?R] =>
         pose proof (log_to_csv_fields sid
                       {| bot := set_portfolio_value B V; disk := D |} R) as Hf;
         destruct (log_to_csv sid {| bot := set_portfolio_value B V; disk := D |} R)
           as [w' ok];
         exists B
     end;
     cbv zeta in Hf; destruct Hf as (Hc & Hpv & Hps & _);
     bot_fields; rewrite Hc, Hpv, Hps; repeat split).
Qed.

(** X4. In every reachable state the equity computed on a snapshot that
    quotes each open position at its entry price, or not at all, is exactly
    the cash: a position valued at its entry price adds nothing.  In
    particular the equity on an empty snapshot is the cash, and the portfolio
    value that [execute_trade] stores when it opens a position is the cash
    left after the notional was taken off. *)
Theorem equity_at_entry_prices_is_cash (cfg : Config) (sid : string) (w : World) :
  reachable cfg sid w ->
  (forall current_prices,
     Forall (fun kv => price_for current_prices kv == entry_price kv.2)
       (positions (bot w)) ->
     (calculate_equity (bot w) current_prices).2 == cash (bot w)) /\
  (calculate_equity (bot w) []).2 == cash (bot w) /\
  (forall symbol sig price delta now pos,
     let out := execute_trade cfg sid w symbol sig price delta now in
     Dict.get (positions (bot w)) symbol = None ->
     Dict.get (positions (bot out.1)) symbol = Some pos ->
     portfolio_value (bot out.1) == cash (bot out.1) /\
     cash (bot out.1) == cash (bot w) - cash (bot w) * RISK_PER_TRADE cfg).
Proof.
  intros Hr. pose proof (reachable_sound_book cfg sid w Hr) as [Hwf Hall].
  split; [|split].
  - intros current_prices Hp. apply equity_at_entry; assumption.
  - apply equity_at_entry; [exact Hall|].
    apply Forall_forall. intros [s p] _. reflexivity.
  - intros symbol sig price delta now pos out Hnone Hsome. subst out.
    destruct (execute_trade_effect cfg sid w symbol sig price delta now)
      as [Hsame | (Hs & Hlen & _ & Htv & Hp & Hps & Hc & _)].
    { rewrite Hsame in Hsome. congruence. }
    destruct (execute_trade_opened_value cfg sid w symbol sig price delta now
                Hs Hlen Hnone Htv Hp) as (b3 & Hb3 & Hc3 & Hpv).
    destruct (sound_book_execute_trade cfg sid w symbol sig price delta now
                (conj Hwf Hall)) as [_ Hall'].
    split; [|rewrite Hc; reflexivity].
    rewrite Hpv, <- Hc3. apply equity_at_entry.
    + rewrite Hb3. exact Hall'.
    + rewrite Hb3, Hps. apply Forall_app. split.
      * apply Forall_forall. intros [s p] Hin. unfold price_for, Dict.get_default.
        simpl. destruct (decide (symbol = s)) as [<-|Hne]; [|reflexivity].
        exfalso. apply dict_get_None in Hnone. apply Hnone.
        apply list_elem_of_fmap. exists (symbol, p). split; [reflexivity|].
        exact Hin.
      * constructor; [|constructor]. unfold price_for, Dict.get_default. simpl.
        destruct (decide (symbol = symbol)); [reflexivity | congruence].
Qed.

Lemma equity_at_entry_prices_is_cash_witness :
  (calculate_equity (bot after_two_buys) []).2 == cash (bot after_two_buys) /\
  portfolio_value (bot after_first_buy) == cash (bot after_first_buy).
Proof.
  split.
  - apply (equity_at_entry_prices_is_cash default_config "20250607_120000"
             after_two_buys).
    exists 0, fresh_log. eapply rtc_l; [|apply rtc_once].
    + apply (step_execute_trade default_config "20250607_120000" fresh_world
               "BTC"%string BUY 100 2 0).
    + apply (step_execute_trade default_config "20250607_120000" after_first_buy
               "ETH"%string BUY 100 2 0).
  - destruct (Dict.get (positions (bot after_first_buy)) "BTC") as [pos|] eqn:Hg;
      [|vm_compute in Hg; discriminate].
    assert (Hr : reachable default_config "20250607_120000" fresh_world)
      by (exists 0, fresh_log; apply rtc_refl).
    destruct (equity_at_entry_prices_is_cash default_config "20250607_120000"
                fresh_world Hr) as (_ & _ & Hopen).
    apply (Hopen "BTC"%string BUY 100 2 0 pos eq_refl Hg).
Defined.

(** ** The cash of a running engine *)

Lemma price_for_positive (current_prices : list (string * Q)) (s : string)
    (p : Position) :
  Forall (fun kv => 0 < kv.2) current_prices ->
  0 < entry_price p ->
  0 < price_for current_prices (s, p).
Proof.
  intros Hall He. unfold price_for, Dict.get_default. simpl.
  destruct (Dict.get current_prices s) as [v|] eqn:Hg; [|exact He].
  apply dict_get_Some_in in Hg. rewrite Forall_forall in Hall.
  apply (Hall _ Hg).
Qed.

Lemma solvent_track_peak (p : Position) (x : Q) :
  solvent_position p -> solvent_position (track_peak p x).
Proof.
  destruct (track_peak_fields p x) as (E1 & E2 & E3 & _).
  unfold solvent_position. now rewrite E1, E2, E3.
Qed.

Lemma solvent_tracked (current_prices : list (string * Q))
    (l : list (string * Position)) :
  Forall (fun kv => solvent_position kv.2) l ->
  Forall (fun kv => solvent_position kv.2) (map (tracked current_prices) l).
Proof.
  intros H. apply Forall_map. eapply Forall_impl; [exact H|].
  intros [s p] Hp. simpl. apply solvent_track_peak, Hp.
Qed.

Lemma close_credit_nonneg (cfg : Config) (p : Position) (price : Q) :
  FEE_PCT cfg <= 1 -> solvent_position p -> 0 < price ->
  let proceeds :=
    match side p with BUY => quantity p * price | _ => trade_value p end in
  0 <= proceeds - proceeds * FEE_PCT cfg.
Proof.
  intros Hf (Hq & Ht & _) Hp proceeds.
  assert (H0 : 0 <= proceeds).
  { subst proceeds. destruct (side p); try exact Ht.
    apply Qmult_le_0_compat; [exact Hq | lra]. }
  assert (H1 : 0 <= proceeds * (1 - FEE_PCT cfg))
    by (apply Qmult_le_0_compat; [exact H0 | lra]).
  lra.
Qed.

Lemma solvent_execute_trade (cfg : Config) (sid : string) (w : World)
    (symbol : string) (sig : signal) (price delta now : Q) :
  sane_config cfg -> 0 < price -> solvent w ->
  solvent (execute_trade cfg sid w symbol sig price delta now).1.
Proof.
  intros (Hrisk & Hfee & _) Hpos (Hwf & Hc & Hall & Hpr).
  pose proof (execute_trade_prices cfg sid w symbol sig price delta now) as Hprices.
  destruct (execute_trade_effect cfg sid w symbol sig price delta now)
    as [-> | (_ & _ & _ & Htv & _ & Hps & Hcash & _)]; [repeat split; assumption|].
  split; [apply (keeps_execute_trade cfg sid w symbol sig price delta now Hwf)|].
  assert (Hnet : 0 <= cash (bot w) * RISK_PER_TRADE cfg
                      - cash (bot w) * RISK_PER_TRADE cfg * FEE_PCT cfg).
  { assert (0 <= cash (bot w) * RISK_PER_TRADE cfg * (1 - FEE_PCT cfg))
      by (apply Qmult_le_0_compat; lra).
    lra. }
  split; [|split].
  - rewrite Hcash.
    assert (0 <= cash (bot w) * (1 - RISK_PER_TRADE cfg))
      by (apply Qmult_le_0_compat; lra).
    lra.
  - rewrite Hps. apply Forall_app. split; [exact Hall|].
    constructor; [|constructor]. unfold solvent_position. simpl.
    split; [|split; [exact Hnet | exact Hpos]].
    unfold Qdiv. apply Qmult_le_0_compat; [exact Hnet|].
    apply Qinv_le_0_compat. lra.
  - rewrite Hprices. exact Hpr.
Qed.

Lemma solvent_manage_positions (cfg : Config) (sid : string) (w : World) (now : Q) :
  sane_config cfg -> solvent w ->
  solvent (manage_positions cfg sid w (prices (bot w)) now).1.
Proof.
  intros (_ & Hfee & _) (Hwf & Hc & Hall & Hpr).
  pose proof (manage_positions_prices cfg sid w (prices (bot w)) now) as Hprices.
  split; [apply (keeps_manage_positions cfg sid w (prices (bot w)) now Hwf)|].
  split; [|split]; [| |rewrite Hprices; exact Hpr].
  - destruct (manage_positions_cases cfg sid w (prices (bot w)) now Hwf)
      as [[_ ->] | (l1 & s & p & l2 & r & Hps & _ & _ & ->)]; [exact Hc|].
    assert (Hk : s ∉ Dict.keys (map (tracked (prices (bot w))) l1)).
    { rewrite keys_tracked. unfold Dict.wf in Hwf. rewrite Hps in Hwf.
      apply (NoDup_keys_mid _ _ _ _ Hwf). }
    set (w1 := with_positions w _).
    assert (Hg : Dict.get (positions (bot w1)) s =
                 Some (track_peak p (price_for (prices (bot w)) (s, p))))
      by (subst w1; simpl; apply (dict_get_app_mid _ _ _ _ Hk)).
    destruct (close_position_effect cfg sid w1 s (price_for (prices (bot w)) (s, p))
                r now _ Hg) as (_ & Hcash & _).
    destruct (close_position cfg sid w1 s (price_for (prices (bot w)) (s, p)) r now)
      as [w2 res]. cbn [fst snd] in *. rewrite Hcash.
    assert (Hsp : solvent_position p).
    { rewrite Hps in Hall. apply Forall_app in Hall as [_ H2].
      apply Forall_cons in H2 as [H2 _]. exact H2. }
    pose proof (close_credit_nonneg cfg _ (price_for (prices (bot w)) (s, p)) Hfee
                  (solvent_track_peak p (price_for (prices (bot w)) (s, p)) Hsp)
                  (price_for_positive _ s p Hpr (proj2 (proj2 Hsp)))) as Hcr.
    cbv zeta in Hcr. subst w1. cbn [with_positions on_bot bot cash set_positions].
    lra.
  - destruct (first_hit_split (exits cfg (prices (bot w)) now) (positions (bot w)))
      as [Hnone | (l1 & [s p] & l2 & r & Hps & Hnone & Hr)].
    + rewrite (manage_positions_none cfg sid w (prices (bot w)) now Hwf Hnone).
      simpl. apply solvent_tracked, Hall.
    + destruct (manage_positions_hit cfg sid w (prices (bot w)) now l1 s p l2 r
                  Hwf Hps Hnone Hr) as [_ ->].
      rewrite Hps in Hall. apply Forall_app in Hall as [H1 H2].
      apply Forall_cons in H2 as [_ H2].
      apply Forall_app. split; [apply solvent_tracked, H1 | exact H2].
Qed.

Lemma solvent_same (w w' : World) :
  positions (bot w') = positions (bot w) -> cash (bot w') = cash (bot w) ->
  prices (bot w') = prices (bot w) -> solvent w -> solvent w'.
Proof. unfold solvent. intros -> -> ->. auto. Qed.

Lemma solvent_log_to_csv (sid : string) (w : World) (row_data : row) :
  solvent w -> solvent (log_to_csv sid w row_data).1.
Proof.
  destruct (log_to_csv_fields sid w row_data) as (Hc & _ & Hp & Hpr & _).
  apply solvent_same; assumption.
Qed.

Lemma solvent_deposit_funds (sid : string) (w : World) (amount now : Q) :
  solvent w -> solvent (deposit_funds sid w amount now).1.
Proof.
  intros (Hwf & Hc & Hall & Hpr).
  destruct (deposit_funds_fields sid w amount now) as (Hps & Hprices & _).
  unfold solvent. rewrite Hps, Hprices.
  split; [exact Hwf|]. split; [|split; assumption].
  unfold deposit_funds. destruct (Qle_bool amount 0) eqn:Ha; [exact Hc|].
  apply Qle_bool_gt in Ha.
  match goal with
  | |- context [log_to_csv sid ?W ?R] =>
      destruct (log_to_csv_fields sid W R) as (-> & _)
  end.
  simpl. lra.
Qed.

Lemma calculate_bue_value_ledger (b : BotManager) (symbol : string) (p r : Q) :
  cash (calculate_bue_value b symbol p r).1 = cash b /\
  portfolio_value (calculate_bue_value b symbol p r).1 = portfolio_value b.
Proof.
  unfold calculate_bue_value. destruct (length _ <? 5)%nat; split; reflexivity.
Qed.

Lemma solvent_run_cycle (cfg : Config) (sid : string) (w : World)
    (fetched : list (string * Q)) (env : string -> Tick) :
  sane_config cfg -> Forall (fun kv => 0 < kv.2) fetched -> solvent w ->
  solvent (run_cycle cfg sid w fetched env).1.
Proof.
  intros Hcfg Hq (Hwf & Hc & Hall & _).
  apply (run_cycle_inv cfg sid solvent).
  - intros w1 s p r H.
    destruct (calculate_bue_value_positions (bot w1) s p r) as [H1 H2].
    eapply solvent_same; [exact H1 | | exact H2 | exact H].
    apply calculate_bue_value_ledger.
  - intros w1 s sg p d t H Hp. apply solvent_execute_trade; assumption.
  - intros w1 t H. apply solvent_manage_positions; assumption.
  - intros w1 ps H. eapply solvent_same; [| | |exact H]; reflexivity.
  - intros w1 rd H. apply solvent_log_to_csv, H.
  - repeat split; assumption.
Qed.

(** X5. With RISK_PER_TRADE <= 1, FEE_PCT <= 1 and PORTFOLIO_INITIAL >= 0,
    an engine started by [BotManager()] and driven by deposits and by cycles
    whose snapshots quote only positive prices (as [fetch_coingecko_data]
    makes them) never has negative cash; each of its positions has a
    non-negative quantity, a non-negative committed value and a positive
    entry price. *)
Theorem cash_never_negative (cfg : Config) (sid : string) (now : Q) (fs : FileSys)
    (events : list Event) :
  sane_config cfg ->
  Forall positive_quotes events ->
  let w := run_events cfg sid {| bot := init cfg now; disk := fs |} events in
  0 <= cash (bot w) /\
  Forall (fun kv => 0 <= quantity kv.2 /\ 0 <= trade_value kv.2 /\ 0 < entry_price kv.2)
    (positions (bot w)).
Proof.
  intros Hcfg Hq w.
  assert (Hs : solvent w).
  { subst w. induction events as [|e events IH] using rev_ind.
    - destruct Hcfg as (_ & _ & H0).
      repeat split; try constructor. exact H0.
    - apply Forall_app in Hq as [Hq He]. apply Forall_cons in He as [He _].
      unfold run_events. rewrite fold_left_app. cbn [fold_left].
      specialize (IH Hq). unfold run_events in IH.
      destruct e as [fetched env | amount t]; cbn [run_event].
      + apply solvent_run_cycle; assumption.
      + apply solvent_deposit_funds, IH. }
  destruct Hs as (_ & Hc & Hall & _). split; [exact Hc | exact Hall].
Qed.

Lemma cash_never_negative_witness :
  0 <= cash (bot (run_events default_config "20250607_120000" fresh_world
                    [DepositFunds 500 1;
                     Cycle [("BTC"%string, 100); ("ETH"%string, 7)] (quiet 2);
                     Cycle [("BTC"%string, 90)] (quiet 3)])).
Proof.
  apply (cash_never_negative default_config "20250607_120000" 0 fresh_log
           [DepositFunds 500 1;
            Cycle [("BTC"%string, 100); ("ETH"%string, 7)] (quiet 2);
            Cycle [("BTC"%string, 90)] (quiet 3)]).
  - repeat split; vm_compute; discriminate.
  - repeat constructor.
Defined.

(** ** The estimate (calculate_bue_value) and the signal it gives *)

Lemma fold_py_max_ge (l : list Q) (x : Q) : x <= fold_left py_max l x.
Proof.
  revert x. induction l as [|y l IH]; intros x; simpl; [lra|].
  specialize (IH (py_max x y)). destruct (py_max_ge x y). lra.
Qed.

Lemma fold_py_min_le (l : list Q) (x : Q) : fold_left py_min l x <= x.
Proof.
  revert x. induction l as [|y l IH]; intros x; simpl; [lra|].
  specialize (IH (py_min x y)). destruct (py_min_le x y). lra.
Qed.

Lemma py_min_list_le_max (l : list Q) : py_min_list l <= py_max_list l.
Proof.
  destruct l as [|x l]; simpl; [lra|].
  pose proof (fold_py_max_ge l x). pose proof (fold_py_min_le l x). lra.
Qed.

(** X6. The volatility factor always lies between 0 and 0.03: the spread of
    the last ten prices is never negative, so the lower clamp of -0.03 is
    never the one that applies; and it is 0, like the momentum factor, as
    long as fewer than ten prices are held. *)
Theorem volatility_factor_bounds (h : list Q) (current_price : Q) :
  0 <= volatility_of h current_price /\
  volatility_of h current_price <= 3 # 100 /\
  ((length h < 10)%nat ->
     volatility_of h current_price = 0 /\ momentum_of h = 0) /\
  (current_price <= 0 -> volatility_of h current_price = 0).
Proof.
  unfold volatility_of, momentum_of.
  destruct (Nat.leb_spec 10 (length h)) as [Hlen|Hlen].
  - destruct (Qltb 0 current_price) eqn:Hp.
    + apply Qltb_lt in Hp.
      set (range := py_max_list (last_n 10 h) - py_min_list (last_n 10 h)).
      assert (Hr : 0 <= range)
        by (subst range; pose proof (py_min_list_le_max (last_n 10 h)); lra).
      assert (Hv : 0 <= range / current_price * (8 # 100)).
      { apply Qmult_le_0_compat; [|lra]. unfold Qdiv.
        apply Qmult_le_0_compat; [exact Hr|]. apply Qinv_le_0_compat. lra. }
      destruct (py_max_ge (range / current_price * (8 # 100)) (- (3 # 100))) as [H1 _].
      set (m := py_max (range / current_price * (8 # 100)) (- (3 # 100))) in *.
      destruct (py_min_le m (3 # 100)) as [H2 H3].
      split; [|split; [exact H3|split; [lia|]]].
      * unfold py_min in *. destruct (Qltb (3 # 100) m); lra.
      * intros Hle. exfalso. lra.
    + split; [lra|]. split; [lra|]. split; [lia | reflexivity].
  - split; [lra|]. split; [lra|]. split; [split; reflexivity | reflexivity].
Qed.

Lemma volatility_factor_bounds_witness :
  volatility_of [1; 2; 3] 5 = 0 /\ momentum_of [1; 2; 3] = 0 /\
  volatility_of (map inject_Z [1; 2; 3; 4; 5; 6; 7; 8; 9; 90]%Z) (-1) = 0.
Proof.
  destruct (volatility_factor_bounds [1; 2; 3] 5) as (_ & _ & H & _).
  destruct (volatility_factor_bounds
              (map inject_Z [1; 2; 3; 4; 5; 6; 7; 8; 9; 90]%Z) (-1))
    as (_ & _ & _ & H').
  destruct H as [H1 H2]; [simpl; lia|].
  split; [exact H1|]. split; [exact H2|]. apply H'. vm_compute. discriminate.
Defined.

(** [round(x, 8)] moves a value by at most half a unit of the eighth
    decimal place. *)
Lemma round_half_even_close (y : Q) :
  inject_Z (round_half_even y) - y <= 1 # 2 /\
  y - inject_Z (round_half_even y) <= 1 # 2.
Proof.
  unfold round_half_even.
  pose proof (Qfloor_le y) as H1. pose proof (Qlt_floor y) as H2.
  rewrite inject_Z_plus in H2. change (inject_Z 1) with 1 in H2.
  set (f := Qfloor y) in *.
  destruct (Qltb (y - inject_Z f) (1 # 2)) eqn:E1.
  - apply Qltb_lt in E1. split; lra.
  - apply Qltb_ge in E1.
    destruct (Qltb (1 # 2) (y - inject_Z f)) eqn:E2.
    + rewrite inject_Z_plus. change (inject_Z 1) with 1. split; lra.
    + apply Qltb_ge in E2.
      destruct (Z.even f); [split; lra|].
      rewrite inject_Z_plus. change (inject_Z 1) with 1. split; lra.
Qed.

Lemma py_round8_close (x : Q) :
  py_round8 x - x <= 1 # 200000000 /\ x - py_round8 x <= 1 # 200000000.
Proof.
  unfold py_round8. change (inject_Z 100000000) with (100000000 # 1).
  destruct (round_half_even_close (x * (100000000 # 1))) as [H1 H2].
  set (z := inject_Z (round_half_even (x * (100000000 # 1)))) in *.
  assert (Hr : z / (100000000 # 1) * (100000000 # 1) == z) by (field; discriminate).
  set (r := z / (100000000 # 1)) in *.
  split; lra.
Qed.

Lemma small_window_factors (h : list Q) (p : Q) :
  (length h < 10)%nat -> momentum_of h = 0 /\ volatility_of h p = 0.
Proof.
  intros Hlen. unfold momentum_of, volatility_of.
  destruct (Nat.leb_spec 10 (length h)); [lia | split; reflexivity].
Qed.

Lemma signal_hold_if_close (p bue : Q) :
  125 # 100000000 <= p ->
  bue - p <= (8 # 1000) * p + (1 # 200000000) ->
  p - bue <= (8 # 1000) * p + (1 # 200000000) ->
  (generate_signal p bue).1 = HOLD.
Proof.
  intros Hp Hup Hdown.
  assert (Hpos : 0 < p) by lra.
  unfold generate_signal.
  assert (E0 : Qle_bool p 0 = false) by (apply Qle_bool_gt; exact Hpos).
  rewrite E0.
  assert (H1 : (bue - p) / p <= 12 # 1000)
    by (apply Qle_shift_div_r; [exact Hpos | lra]).
  assert (H2 : - (12 # 1000) <= (bue - p) / p)
    by (apply Qle_shift_div_l; [exact Hpos | lra]).
  set (q := (bue - p) / p) in *.
  assert (E1 : Qltb (12 # 10) (q * 100) = false) by (apply Qltb_ge; lra).
  assert (E2 : Qltb (q * 100) (- (12 # 10)) = false) by (apply Qltb_ge; lra).
  rewrite E1, E2. reflexivity.
Qed.

(** X7. While fewer than ten prices of a symbol are held (the current one
    included), the random draw being within the bounds of
    [random.uniform(-0.008, 0.008)] and the price at least 0.00000125, the
    signal computed from the estimate is HOLD, so the entry attempt of the
    cycle does nothing; with fewer than five prices held the estimate is the
    price itself. *)
Theorem no_signal_before_ten_samples (cfg : Config) (sid : string)
    (b : BotManager) (symbol : string) (price random_component now : Q) :
  (length (history_of b symbol) < 9)%nat ->
  - (8 # 1000) <= random_component -> random_component <= 8 # 1000 ->
  125 # 100000000 <= price ->
  let bue_value := (calculate_bue_value b symbol price random_component).2 in
  (generate_signal price bue_value).1 = HOLD /\
  (forall w,
     try_open cfg sid w symbol (generate_signal price bue_value).1 price
       (generate_signal price bue_value).2 now = (w, Ok false)) /\
  ((length (history_of b symbol) < 4)%nat -> bue_value = price).
Proof.
  intros Hlen Hlo Hhi Hp bue_value.
  assert (Hpush : push_price (history_of b symbol) price =
                  history_of b symbol ++ [price]).
  { unfold push_price. rewrite length_app. simpl.
    destruct (Nat.ltb_spec 20 (length (history_of b symbol) + 1)); [lia|reflexivity]. }
  assert (Hbue : bue_value =
                 if (length (history_of b symbol ++ [price]) <? 5)%nat then price
                 else py_round8 (price * (1 + (0 + 0 + random_component)))).
  { subst bue_value. unfold calculate_bue_value. fold (history_of b symbol).
    rewrite Hpush.
    destruct (small_window_factors (history_of b symbol ++ [price]) price) as [-> ->].
    { rewrite length_app. simpl. lia. }
    destruct (_ <? 5)%nat; reflexivity. }
  assert (Hhold : (generate_signal price bue_value).1 = HOLD).
  { apply signal_hold_if_close; [exact Hp| |]; rewrite Hbue;
      destruct (_ <? 5)%nat; try lra;
      destruct (py_round8_close (price * (1 + (0 + 0 + random_component))))
        as [H1 H2]; nra. }
  split; [exact Hhold|]. split.
  - intros w. rewrite Hhold. reflexivity.
  - intros H4. rewrite Hbue. rewrite length_app. simpl.
    destruct (Nat.ltb_spec (length (history_of b symbol) + 1) 5); [reflexivity|lia].
Qed.

Lemma no_signal_before_ten_samples_witness :
  (generate_signal 100
     (calculate_bue_value
        (feed_prices (init default_config 0)
           (map (fun n => ("BTC"%string, 100 + inject_Z (Z.of_nat n), 0)) (seq 0 6)))
        "BTC" 100 (8 # 1000)).2).1 = HOLD.
Proof.
  apply (no_signal_before_ten_samples default_config "20250607_120000"
           (feed_prices (init default_config 0)
              (map (fun n => ("BTC"%string, 100 + inject_Z (Z.of_nat n), 0)) (seq 0 6)))
           "BTC" 100 (8 # 1000) 0).
  - vm_compute. lia.
  - vm_compute. discriminate.
  - vm_compute. discriminate.
  - vm_compute. discriminate.
Defined.

(** ** Closing and opening, composed *)

Lemma close_position_absent (cfg : Config) (sid : string) (w : World)
    (symbol : string) (price : Q) (r : reason) (now : Q) :
  Dict.get (positions (bot w)) symbol = None ->
  close_position cfg sid w symbol price r now = (w, (0, NONE, r)).
Proof. intros Hg. unfold close_position. now rewrite Hg. Qed.

(** X8. [close_position] on a symbol that has no open position returns
    [(0, "NONE", reason)] and changes nothing; in particular, once a
    position has been closed, closing the same symbol again, at any price and
    for any reason, is such a call: no second credit, no second removal. *)
Theorem close_position_twice (cfg : Config) (sid : string) (w : World)
    (symbol : string) (price price' : Q) (r r' : reason) (now now' : Q) :
  Dict.wf (positions (bot w)) ->
  let w1 := (close_position cfg sid w symbol price r now).1 in
  close_position cfg sid w1 symbol price' r' now' = (w1, (0, NONE, r')) /\
  (Dict.get (positions (bot w)) symbol = None ->
   close_position cfg sid w symbol price r now = (w, (0, NONE, r))).
Proof.
  intros Hwf w1. split; [|apply close_position_absent].
  apply close_position_absent. subst w1.
  destruct (Dict.get (positions (bot w)) symbol) as [pos|] eqn:Hg.
  - destruct (close_position_effect cfg sid w symbol price r now pos Hg)
      as (_ & _ & ->).
    apply dict_get_del_wf, Hwf.
  - rewrite close_position_absent by exact Hg. exact Hg.
Qed.

Lemma close_position_twice_witness :
  let w1 :=
    (close_position default_config "20250607_120000" two_longs "BTC" 110
       TAKE_PROFIT 1).1 in
  close_position default_config "20250607_120000" w1 "BTC" 120 TAKE_PROFIT 2
    = (w1, (0, NONE, TAKE_PROFIT)).
Proof.
  intros w1.
  apply (close_position_twice default_config "20250607_120000" two_longs "BTC"
           110 120 TAKE_PROFIT TAKE_PROFIT 1 2).
  unfold Dict.wf. apply (bool_decide_unpack _). vm_compute. exact I.
Defined.

Lemma tracked_in (current_prices : list (string * Q)) (l : list (string * Position))
    (s : string) (p' : Position) :
  (s, p') ∈ map (tracked current_prices) l ->
  exists p, (s, p) ∈ l /\ p' = track_peak p (price_for current_prices (s, p)).
Proof.
  intros Hin. apply list_elem_of_fmap in Hin as ([s0 p] & Heq & Hin).
  unfold tracked in Heq. simpl in Heq. injection Heq as -> ->.
  exists p. split; [exact Hin | reflexivity].
Qed.

(** X9. A call of [manage_positions] never alters what a position that
    stays open was entered with (entry price, quantity, committed value, time,
    side); its peak can only rise for a LONG and only fall otherwise.  When
    the call reports no closure, the cash and the set of open symbols are as
    before and the result is [(0, "NONE", "N/A")]. *)
Theorem manage_positions_keeps_entries (cfg : Config) (sid : string) (w : World)
    (current_prices : list (string * Q)) (now : Q) :
  Dict.wf (positions (bot w)) ->
  let out := manage_positions cfg sid w current_prices now in
  (forall s p',
     (s, p') ∈ positions (bot out.1) ->
     exists p,
       (s, p) ∈ positions (bot w) /\
       entry_price p' = entry_price p /\ quantity p' = quantity p /\
       trade_value p' = trade_value p /\ timestamp p' = timestamp p /\
       side p' = side p /\
       (side p = BUY -> peak_price p <= peak_price p') /\
       (side p <> BUY -> peak_price p' <= peak_price p)) /\
  (forall pnl r,
     out.2 = Ok (pnl, NONE, r) ->
     pnl = 0 /\ r = NA /\ cash (bot out.1) = cash (bot w) /\
     Dict.keys (positions (bot out.1)) = Dict.keys (positions (bot w))).
Proof.
  intros Hwf out. subst out.
  assert (Htr : forall (s : string) p x,
             let p' := track_peak p x in
             entry_price p' = entry_price p /\ quantity p' = quantity p /\
             trade_value p' = trade_value p /\ timestamp p' = timestamp p /\
             side p' = side p /\
             (side p = BUY -> peak_price p <= peak_price p') /\
             (side p <> BUY -> peak_price p' <= peak_price p)).
  { intros _ p x p'. subst p'.
    destruct (track_peak_fields p x) as (E1 & E2 & E3 & E4 & E5 & Hup & Hdn).
    repeat split; try assumption; intros H; [apply (Hup H) | apply (Hdn H)]. }
  split.
  - intros s p' Hin.
    destruct (first_hit_split (exits cfg current_prices now) (positions (bot w)))
      as [Hnone | (l1 & [s0 p0] & l2 & r & Hps & Hnone & Hr)].
    + rewrite (manage_positions_none cfg sid w current_prices now Hwf Hnone) in Hin.
      simpl in Hin. apply tracked_in in Hin as (p & Hp & ->).
      exists p. split; [exact Hp | apply (Htr s)].
    + destruct (manage_positions_hit cfg sid w current_prices now l1 s0 p0 l2 r
                  Hwf Hps Hnone Hr) as [_ Hpos].
      rewrite Hpos in Hin. rewrite Hps. apply elem_of_app in Hin as [Hin|Hin].
      * apply tracked_in in Hin as (p & Hp & ->).
        exists p. split; [|apply (Htr s)]. apply elem_of_app. left. exact Hp.
      * exists p'. split.
        { apply elem_of_app. right. apply list_elem_of_further, Hin. }
        repeat split; intros; apply Qle_refl.
  - intros pnl r Hres.
    destruct (first_hit_split (exits cfg current_prices now) (positions (bot w)))
      as [Hnone | (l1 & [s0 p0] & l2 & r0 & Hps & Hnone & Hr)].
    + rewrite (manage_positions_none cfg sid w current_prices now Hwf Hnone) in Hres |- *.
      simpl in Hres. injection Hres as <- <-. simpl.
      repeat split. apply keys_tracked.
    + destruct (manage_positions_hit cfg sid w current_prices now l1 s0 p0 l2 r0
                  Hwf Hps Hnone Hr) as [[pnl0 Hres0] _].
      rewrite Hres0 in Hres. discriminate.
Qed.

Lemma manage_positions_keeps_entries_witness :
  let out :=
    manage_positions default_config "20250607_120000" two_longs
      [("BTC"%string, 101); ("ETH"%string, 99)] 1 in
  cash (bot out.1) = cash (bot two_longs) /\
  Dict.keys (positions (bot out.1)) = ["BTC"; "ETH"]%string.
Proof.
  intros out.
  assert (Hwf : Dict.wf (positions (bot two_longs))).
  { unfold Dict.wf. apply (bool_decide_unpack _). vm_compute. exact I. }
  destruct (manage_positions_keeps_entries default_config "20250607_120000"
              two_longs [("BTC"%string, 101); ("ETH"%string, 99)] 1 Hwf)
    as [_ Hnone].
  destruct (Hnone 0 NA) as (_ & _ & Hc & Hk).
  - vm_compute. reflexivity.
  - split; [exact Hc | exact Hk].
Defined.

(** X10. Opening a position and then closing it restores the open set.  For
    a LONG the cash has moved by the reported net P&L less the entry fee, so
    that closing at the entry price costs exactly the two fees; for a SHORT
    the cash has moved by minus the two fees whatever the exit price is (the
    reported net P&L does depend on it). *)
Theorem open_then_close (cfg : Config) (sid : string) (w : World)
    (symbol : string) (sig : signal) (price delta now exit_price : Q)
    (r : reason) (now' : Q) :
  sig <> HOLD ->
  (Z.of_nat (length (positions (bot w))) < MAX_POSITIONS cfg)%Z ->
  Dict.get (positions (bot w)) symbol = None ->
  10 <= cash (bot w) * RISK_PER_TRADE cfg ->
  ~ price == 0 ->
  let w1 := (execute_trade cfg sid w symbol sig price delta now).1 in
  let out := close_position cfg sid w1 symbol exit_price r now' in
  let notional := cash (bot w) * RISK_PER_TRADE cfg in
  let entry_fee := notional * FEE_PCT cfg in
  let exit_fee_at_entry := (notional - entry_fee) * FEE_PCT cfg in
  positions (bot out.1) = positions (bot w) /\
  out.2.1.2 = CLOSE sig /\
  (sig = BUY ->
     cash (bot out.1) - cash (bot w) == out.2.1.1 - entry_fee /\
     (exit_price == price ->
      cash (bot out.1) == cash (bot w) - entry_fee - exit_fee_at_entry)) /\
  (sig = SELL ->
     cash (bot out.1) == cash (bot w) - entry_fee - exit_fee_at_entry /\
     out.2.1.1 ==
       (notional - entry_fee) - (notional - entry_fee) / price * exit_price
       - exit_fee_at_entry).
Proof.
  intros Hs Hlen Hget Htv Hp w1 out notional entry_fee exit_fee_at_entry.
  destruct (execute_trade_opened cfg sid w symbol sig price delta now
              Hs Hlen Hget Htv Hp) as (Hps & Hc & _).
  fold w1 in Hps, Hc.
  pose proof (proj1 (dict_get_None _ _) Hget) as Hk.
  assert (Hg : Dict.get (positions (bot w1)) symbol =
               Some {| entry_price := price;
                       quantity := (notional - entry_fee) / price;
                       timestamp := now; peak_price := price; side := sig;
                       trade_value := notional - entry_fee |})
    by (rewrite Hps; apply (dict_get_app_mid _ [] _ _ Hk)).
  destruct (close_position_effect cfg sid w1 symbol exit_price r now' _ Hg)
    as (Hres & Hcash & Hpos).
  fold out in Hres, Hcash, Hpos. cbn [side quantity trade_value] in Hres, Hcash.
  split; [|split; [|split]].
  - rewrite Hpos, Hps, (dict_del_app_mid _ [] _ _ Hk). apply app_nil_r.
  - rewrite Hres. reflexivity.
  - intros ->. rewrite Hres, Hcash, Hc. cbn [fst snd].
    subst notional entry_fee exit_fee_at_entry. split; [ring|].
    intros ->. field. exact Hp.
  - intros ->. rewrite Hres, Hcash, Hc. cbn [fst snd].
    subst notional entry_fee exit_fee_at_entry. split; ring.
Qed.

Lemma open_then_close_witness :
  let w1 :=
    (execute_trade default_config "20250607_120000" fresh_world "ETH" SELL 100
       (-2) 0).1 in
  let out := close_position default_config "20250607_120000" w1 "ETH" 90
               TAKE_PROFIT 1 in
  positions (bot out.1) = [] /\
  cash (bot out.1) == 1000 - 50 * (1 # 1000) - (50 - 50 * (1 # 1000)) * (1 # 1000).
Proof.
  intros w1 out.
  destruct (open_then_close default_config "20250607_120000" fresh_world "ETH" SELL
              100 (-2) 0 90 TAKE_PROFIT 1) as (Hps & _ & _ & Hsell).
  - discriminate.
  - vm_compute. reflexivity.
  - reflexivity.
  - vm_compute. discriminate.
  - vm_compute. discriminate.
  - split; [exact Hps|].
    destruct (Hsell eq_refl) as [Hc _]. subst out w1. rewrite Hc.
    vm_compute. reflexivity.
Defined.

(** ** The rows and the file of log_to_csv *)

(** X11. The row [log_to_csv] goes on with: a row of 11 fields gets the
    session id in front; a row of 12 fields keeps its fields 2 to 12 and has
    the session id as its first; a row of any other length is left as it is.
    Doing this twice changes nothing more, and the rows the engine builds
    itself (deposit, open, close, scan, shutdown) pass unchanged. *)
Theorem with_session_id_normalises (sid : string) (row_data : row) :
  (length row_data = 11%nat -> with_session_id sid row_data = CStr sid :: row_data) /\
  (length row_data = 12%nat ->
     with_session_id sid row_data = CStr sid :: drop 1 row_data /\
     length (with_session_id sid row_data) = 12%nat) /\
  (length row_data <> 11%nat -> length row_data <> 12%nat ->
     with_session_id sid row_data = row_data) /\
  with_session_id sid (with_session_id sid row_data) = with_session_id sid row_data /\
  (forall b amount now,
     with_session_id sid (deposit_row sid b amount now) = deposit_row sid b amount now) /\
  (forall symbol sg price delta ntv now equity,
     with_session_id sid (trade_row sid symbol sg price delta ntv now equity) =
     trade_row sid symbol sg price delta ntv now equity) /\
  (forall symbol price a proceeds pnl r now equity,
     with_session_id sid (close_row sid symbol price a proceeds pnl r now equity) =
     close_row sid symbol price a proceeds pnl r now equity) /\
  (forall symbol price bue delta sg ve a pnl r now equity,
     with_session_id sid (scan_row sid symbol price bue delta sg ve a pnl r now equity) =
     scan_row sid symbol price bue delta sg ve a pnl r now equity) /\
  (forall b now,
     with_session_id sid (shutdown_row sid b now) = shutdown_row sid b now).
Proof.
  assert (Hown : forall r : row,
             length r = 11%nat -> with_session_id sid (CStr sid :: r) = CStr sid :: r).
  { intros r Hr. unfold with_session_id. change (length header) with 12%nat.
    cbn [length]. rewrite Hr.
    destruct (decide (12 = 12 - 1)%nat); [lia|].
    destruct (decide (12 = 12)%nat); [|lia].
    destruct (decide (CStr sid = CStr sid)); congruence. }
  assert (H12 : length row_data = 12%nat ->
                with_session_id sid row_data = CStr sid :: drop 1 row_data).
  { intros H. unfold with_session_id. change (length header) with 12%nat. rewrite H.
    destruct (decide (12 = 12 - 1)%nat); [lia|].
    destruct (decide (12 = 12)%nat); [|lia].
    destruct row_data as [|c r]; [discriminate|].
    change (drop 1 (c :: r)) with r.
    destruct (decide (c = CStr sid)) as [->|]; reflexivity. }
  assert (H11 : length row_data = 11%nat ->
                with_session_id sid row_data = CStr sid :: row_data).
  { intros H. unfold with_session_id. change (length header) with 12%nat. rewrite H.
    destruct (decide (11 = 12 - 1)%nat); [reflexivity|lia]. }
  assert (Hother : length row_data <> 11%nat -> length row_data <> 12%nat ->
                   with_session_id sid row_data = row_data).
  { intros Ha Hb. unfold with_session_id. change (length header) with 12%nat.
    destruct (decide (length row_data = 12 - 1)%nat); [lia|].
    destruct (decide (length row_data = 12)%nat); [lia|reflexivity]. }
  split; [exact H11|]. split.
  { intros H. split; [apply H12, H|]. rewrite (H12 H). simpl.
    rewrite length_drop. lia. }
  split; [exact Hother|]. split.
  { destruct (decide (length row_data = 11%nat)) as [Ha|Ha].
    - rewrite (H11 Ha). apply Hown, Ha.
    - destruct (decide (length row_data = 12%nat)) as [Hb|Hb].
      + rewrite (H12 Hb). apply Hown. rewrite length_drop. lia.
      + rewrite (Hother Ha Hb). apply Hother; assumption. }
  repeat split; intros; apply Hown; reflexivity.
Qed.

Lemma with_session_id_normalises_witness :
  with_session_id "20250607_120000" (map CNum [1; 2; 3; 4; 5; 6; 7; 8; 9; 10; 11])
    = CStr "20250607_120000" :: map CNum [1; 2; 3; 4; 5; 6; 7; 8; 9; 10; 11] /\
  with_session_id "20250607_120000" (map CNum [0; 2; 3; 4; 5; 6; 7; 8; 9; 10; 11; 12])
    = CStr "20250607_120000" :: map CNum [2; 3; 4; 5; 6; 7; 8; 9; 10; 11; 12] /\
  with_session_id "20250607_120000" [CNum 1] = [CNum 1].
Proof.
  destruct (with_session_id_normalises "20250607_120000"
              (map CNum [1; 2; 3; 4; 5; 6; 7; 8; 9; 10; 11])) as (H11 & _).
  destruct (with_session_id_normalises "20250607_120000"
              (map CNum [0; 2; 3; 4; 5; 6; 7; 8; 9; 10; 11; 12])) as (_ & H12 & _).
  destruct (with_session_id_normalises "20250607_120000" [CNum 1])
    as (_ & _ & Hother & _).
  split; [|split].
  - apply H11. reflexivity.
  - apply H12. reflexivity.
  - apply Hother; simpl; discriminate.
Defined.

(** X12. Whatever the row and the state of the file, [log_to_csv] returns
    [False] and leaves the engine as it was, [state_saved] included.  The only
    change it can make to the file is to create it, holding the header row
    alone, when it is missing and can be written; existing rows are never
    altered.  It never leaves the lock held: after the call the lock is free
    whenever the file could be opened, and as before otherwise. *)
Theorem log_to_csv_file_effects (sid : string) (w : World) (row_data : row) :
  let out := log_to_csv sid w row_data in
  out.2 = false /\
  bot out.1 = bot w /\
  can_write (disk out.1) = can_write (disk w) /\
  (forall rows, content (disk w) = Some rows -> content (disk out.1) = Some rows) /\
  (content (disk w) = None ->
     content (disk out.1) = if can_write (disk w) then Some [header] else None) /\
  (can_write (disk w) = true -> locked (disk out.1) = false) /\
  (can_write (disk w) = false -> locked (disk out.1) = locked (disk w)).
Proof.
  destruct w as [b [[rows|] [|] l]]; cbn;
    repeat split; try reflexivity; try discriminate;
    try (intros ? [= <-]; reflexivity).
Qed.

Lemma log_to_csv_file_effects_witness :
  let w := {| bot := init default_config 0;
              disk := {| content := None; can_write := true; locked := false |} |} in
  content (disk (log_to_csv "20250607_120000" w
                   (deposit_row "20250607_120000" (bot w) 50 1)).1) = Some [header] /\
  content (disk (log_to_csv "20250607_120000" two_longs
                   (deposit_row "20250607_120000" (bot two_longs) 50 1)).1)
    = Some [header] /\
  locked (disk (log_to_csv "20250607_120000" two_longs
                  (deposit_row "20250607_120000" (bot two_longs) 50 1)).1) = false.
Proof.
  intros w. split; [|split].
  - destruct (log_to_csv_file_effects "20250607_120000" w
                (deposit_row "20250607_120000" (bot w) 50 1))
      as (_ & _ & _ & _ & Hnew & _).
    apply Hnew. reflexivity.
  - destruct (log_to_csv_file_effects "20250607_120000" two_longs
                (deposit_row "20250607_120000" (bot two_longs) 50 1))
      as (_ & _ & _ & Hold & _).
    apply Hold. reflexivity.
  - destruct (log_to_csv_file_effects "20250607_120000" two_longs
                (deposit_row "20250607_120000" (bot two_longs) 50 1))
      as (_ & _ & _ & _ & _ & Hlock & _).
    apply Hlock. reflexivity.
Defined.

Lemma log_to_csv_bot (sid : string) (w : World) (row_data : row) :
  bot (log_to_csv sid w row_data).1 = bot w.
Proof. destruct w as [b [[rows|] [|] l]]; reflexivity. Qed.

(** ** Deposits, composed *)

Lemma deposit_funds_ledger (sid : string) (w : World) (amount now : Q) :
  let credit := if Qle_bool amount 0 then 0 else amount in
  cash (bot (deposit_funds sid w amount now).1) == cash (bot w) + credit /\
  portfolio_value (bot (deposit_funds sid w amount now).1)
    == portfolio_value (bot w) + credit.
Proof.
  unfold deposit_funds. destruct (Qle_bool amount 0); cbv zeta.
  - cbn [fst]. split; lra.
  - rewrite log_to_csv_bot. cbn [bot cash portfolio_value set_cash set_portfolio_value].
    split; reflexivity.
Qed.

(** X13. Deposits add up: after any run of [deposit_funds] calls the cash and
    the stored portfolio value have each grown by exactly the sum of the
    amounts that are positive; amounts that are zero or negative are refused
    with [False] and leave the whole state as it was; the positions, the
    snapshot and the price windows are never touched. *)
Theorem deposits_add_up (sid : string) (w : World) (deposits : list (Q * Q)) :
  let w' := deposit_all sid w deposits in
  cash (bot w') == cash (bot w) + accepted_total deposits /\
  portfolio_value (bot w') == portfolio_value (bot w) + accepted_total deposits /\
  positions (bot w') = positions (bot w) /\
  prices (bot w') = prices (bot w) /\
  price_history (bot w') = price_history (bot w) /\
  (forall amount now, amount <= 0 -> deposit_funds sid w amount now = (w, false)).
Proof.
  intros w'. subst w'.
  assert (Hrej : forall amount now,
             amount <= 0 -> deposit_funds sid w amount now = (w, false)).
  { intros amount now Ha. unfold deposit_funds.
    apply Qle_bool_iff in Ha. now rewrite Ha. }
  revert w Hrej. induction deposits as [|[amount now] ds IH]; intros w Hrej.
  - simpl. repeat split; try lra. exact Hrej.
  - unfold deposit_all in *. cbn [fold_left accepted_total foldr fst snd].
    assert (Hrej' : forall a t, a <= 0 ->
               deposit_funds sid (deposit_funds sid w amount now).1 a t =
               ((deposit_funds sid w amount now).1, false)).
    { intros a t Ha. unfold deposit_funds at 1.
      apply Qle_bool_iff in Ha. now rewrite Ha. }
    destruct (IH (deposit_funds sid w amount now).1 Hrej')
      as (Hc & Hp & Hps & Hpr & Hh & _).
    destruct (deposit_funds_ledger sid w amount now) as [Hc1 Hp1].
    destruct (deposit_funds_fields sid w amount now) as (Hps1 & Hpr1 & Hh1 & _).
    cbv zeta in Hc1, Hp1.
    fold (accepted_total ds).
    set (c := if Qle_bool amount 0 then 0 else amount) in *.
    split; [rewrite Hc, Hc1; ring|]. split; [rewrite Hp, Hp1; ring|].
    split; [congruence|]. split; [congruence|]. split; [congruence | exact Hrej].
Qed.

Lemma deposits_add_up_witness :
  cash (bot (deposit_all "20250607_120000" fresh_world [(50, 1); (-5, 2); (0, 3); (25, 4)]))
    == 1075 /\
  deposit_funds "20250607_120000" fresh_world (-5) 2 = (fresh_world, false).
Proof.
  destruct (deposits_add_up "20250607_120000" fresh_world
              [(50, 1); (-5, 2); (0, 3); (25, 4)]) as (Hc & _ & _ & _ & _ & Hrej).
  split.
  - rewrite Hc. vm_compute. reflexivity.
  - apply Hrej. vm_compute. discriminate.
Defined.

(** ** The flag state_saved and the shutdown *)

Ltac log_step_bot sid :=
  match goal with
  | |- context [log_to_csv sid ?W ?R] =>
      pose proof (log_to_csv_bot sid W R) as Hb;
      destruct (log_to_csv sid W R) as [? ?]
  end.

Lemma execute_trade_state_saved (cfg : Config) (sid : string) (w : World)
    (symbol : string) (sig : signal) (price delta now : Q) :
  state_saved (bot (execute_trade cfg sid w symbol sig price delta now).1) =
  state_saved (bot w).
Proof.
  unfold execute_trade.
  destruct sig; [| |reflexivity];
    (destruct (_ <=? _)%Z; [reflexivity|];
     destruct (Dict.contains _ _); [reflexivity|];
     destruct (Qltb _ _); [reflexivity|];
     destruct (Qeq_bool _ _); [reflexivity|];
     unfold calculate_equity; cbv beta iota zeta; log_step_bot sid;
     cbn [fst snd bot] in *; rewrite Hb; reflexivity).
Qed.

Lemma close_position_state_saved (cfg : Config) (sid : string) (w : World)
    (symbol : string) (price : Q) (r : reason) (now : Q) :
  state_saved (bot (close_position cfg sid w symbol price r now).1) =
  state_saved (bot w).
Proof.
  unfold close_position.
  destruct (Dict.get (positions (bot w)) symbol) as [pos|]; [|reflexivity].
  destruct (side pos); unfold calculate_equity; cbv beta iota zeta;
    log_step_bot sid; cbn [fst snd bot on_bot] in *; rewrite Hb; reflexivity.
Qed.

Lemma manage_loop_state_saved (cfg : Config) (sid : string)
    (current_prices : list (string * Q)) (now : Q) (symbols : list string) :
  forall w : World,
    state_saved (bot (manage_loop cfg sid symbols w current_prices now).1) =
    state_saved (bot w).
Proof.
  induction symbols as [|s rest IH]; intros w; [reflexivity|].
  cbn [manage_loop].
  destruct (Dict.get (positions (bot w)) s) as [pos|]; [|reflexivity].
  destruct (exit_rule cfg _ _ now) as [r|].
  - match goal with
    | |- context [close_position cfg sid ?W ?S ?P ?R ?N] =>
        pose proof (close_position_state_saved cfg sid W S P R N) as H;
        destruct (close_position cfg sid W S P R N) as [w2 res]
    end.
    exact H.
  - rewrite IH. reflexivity.
Qed.

Lemma manage_positions_state_saved (cfg : Config) (sid : string) (w : World)
    (current_prices : list (string * Q)) (now : Q) :
  state_saved (bot (manage_positions cfg sid w current_prices now).1) =
  state_saved (bot w).
Proof.
  unfold manage_positions. destruct (positions (bot w)); [reflexivity|].
  apply manage_loop_state_saved.
Qed.

Lemma step_state_saved (cfg : Config) (sid : string) (w w' : World) :
  step cfg sid w w' -> state_saved (bot w) = false -> state_saved (bot w') = false.
Proof.
  intros [] Hw.
  - unfold deposit_funds. destruct (Qle_bool _ 0); [exact Hw|].
    rewrite log_to_csv_bot. exact Hw.
  - now rewrite execute_trade_state_saved.
  - now rewrite close_position_state_saved.
  - now rewrite manage_positions_state_saved.
  - exact Hw.
  - cbn [on_bot bot]. unfold calculate_bue_value.
    destruct (_ <? 5)%nat; exact Hw.
  - now rewrite log_to_csv_bot.
  - apply (run_cycle_inv cfg sid (fun w => state_saved (bot w) = false)).
    + intros w1 s p r H. cbn [on_bot bot]. unfold calculate_bue_value.
      destruct (_ <? 5)%nat; exact H.
    + intros w1 s sg p d t H _. now rewrite execute_trade_state_saved.
    + intros w1 t H. now rewrite manage_positions_state_saved.
    + intros w1 ps H. exact H.
    + intros w1 rd H. now rewrite log_to_csv_bot.
    + exact Hw.
  - exact Hw.
Qed.

(** X14. The assignment [state_saved = True] of [log_to_csv] is never
    reached: the flag is [False] in every reachable state.  The shutdown handler therefore always tries to
    log its SHUTDOWN row, and this attempt leaves the engine as it was and
    adds no row to an existing log. *)
Theorem shutdown_row_never_written (cfg : Config) (sid : string) (w : World) :
  reachable cfg sid w ->
  state_saved (bot w) = false /\
  forall now,
    graceful_shutdown sid w now =
      (log_to_csv sid w (shutdown_row sid (bot w) now)).1 /\
    bot (graceful_shutdown sid w now) = bot w /\
    (forall rows, content (disk w) = Some rows ->
                  content (disk (graceful_shutdown sid w now)) = Some rows).
Proof.
  intros (t0 & fs & Hrtc).
  assert (Hs : state_saved (bot w) = false).
  { revert w Hrtc. apply (rtc_ind_r (fun w => state_saved (bot w) = false)).
    - reflexivity.
    - intros w1 w2 _ Hstep IH. apply (step_state_saved cfg sid w1 w2 Hstep IH). }
  split; [exact Hs|]. intros now.
  unfold graceful_shutdown. rewrite Hs.
  split; [reflexivity|]. split; [apply log_to_csv_bot|].
  intros rows Hc. apply (log_to_csv_existing sid w rows _ Hc).
Qed.

Lemma shutdown_row_never_written_witness :
  state_saved (bot after_first_buy) = false /\
  content (disk (graceful_shutdown "20250607_120000" after_first_buy 9)) = Some [header].
Proof.
  destruct (shutdown_row_never_written default_config "20250607_120000"
              after_first_buy) as [Hs Hsd].
  - exists 0, fresh_log. apply rtc_once.
    apply (step_execute_trade default_config "20250607_120000" fresh_world).
  - split; [exact Hs|]. destruct (Hsd 9) as (_ & _ & Hrows).
    apply Hrows. vm_compute. reflexivity.
Defined.

(** ** What the closures of a cycle can report *)

Section CycleResults.
Variable cfg : Config.
Variable sid : string.
Variable Inv : World -> Prop.
Variable Good : Q * action * reason -> Prop.

Hypothesis Inv_bue : forall w symbol price r,
  Inv w -> Inv (on_bot (fun b => (calculate_bue_value b symbol price r).1) w).
Hypothesis Inv_open : forall w symbol sig price delta now,
  Inv w -> 0 < price -> Inv (execute_trade cfg sid w symbol sig price delta now).1.
Hypothesis Inv_manage : forall w now,
  Inv w -> Inv (manage_positions cfg sid w (prices (bot w)) now).1.
Hypothesis Inv_equity : forall w current_prices,
  Inv w -> Inv (on_bot (fun b => (calculate_equity b current_prices).1) w).
Hypothesis Inv_log : forall w row_data, Inv w -> Inv (log_to_csv sid w row_data).1.
Hypothesis Good_manage : forall w now res,
  Inv w -> (manage_positions cfg sid w (prices (bot w)) now).2 = Ok res -> Good res.

Lemma scan_symbol_results (w : World) (env : Tick) (symbol : string) (price : Q)
    (res : Q * action * reason) :
  0 < price -> Inv w ->
  (scan_symbol cfg sid w env symbol price).2 = Ok res -> Good res.
Proof.
  intros Hpos Hw. unfold scan_symbol.
  pose proof (Inv_bue w symbol price (noise env) Hw) as H1. unfold on_bot in H1.
  destruct (calculate_bue_value (bot w) symbol price (noise env)) as [b1 bue].
  cbn [fst] in H1.
  destruct (generate_signal price bue) as [sig delta].
  assert (H2 : Inv (try_open cfg sid {| bot := b1; disk := disk w |} symbol sig
                      price delta (clock env)).1).
  { unfold try_open. destruct (_ && _); [apply Inv_open; assumption | exact H1]. }
  destruct (try_open cfg sid {| bot := b1; disk := disk w |} symbol sig price delta
              (clock env)) as [w2 [ok|e]]; cbn [fst snd] in *; [|discriminate].
  pose proof (Good_manage w2 (clock env)) as H3.
  destruct (manage_positions cfg sid w2 (prices (bot w2)) (clock env))
    as [w3 [[[pnl a] r]|e]]; cbn [fst snd] in *; [|discriminate].
  unfold calculate_equity. cbv beta iota zeta.
  destruct (log_to_csv sid _ _) as [w5 ok5]. cbn [snd].
  intros [= <-]. apply H3; [exact H2 | reflexivity].
Qed.

Lemma scan_loop_results (env : string -> Tick) (items : list (string * Q)) :
  forall (w : World) rs,
    Inv w -> (scan_loop cfg sid items env w).2 = Ok rs ->
    Forall (fun x => Good x.2) rs.
Proof.
  induction items as [|[symbol price] items IH]; intros w rs Hw.
  - simpl. intros [= <-]. constructor.
  - cbn [scan_loop].
    destruct (Qle_bool price 0) eqn:Hle; [apply IH, Hw|].
    apply Qle_bool_gt in Hle.
    pose proof (scan_symbol_inv cfg sid Inv Inv_bue Inv_open Inv_manage Inv_equity
                  Inv_log w (env symbol) symbol price Hle Hw) as H1.
    pose proof (scan_symbol_results w (env symbol) symbol price) as H2.
    destruct (scan_symbol cfg sid w (env symbol) symbol price) as [w1 [r1|e]];
      cbn [fst snd] in *; [|discriminate].
    specialize (IH w1).
    destruct (scan_loop cfg sid items env w1) as [w2 [rs2|e]]; cbn [snd] in *;
      [|discriminate].
    intros [= <-]. constructor.
    + apply H2; [exact Hle | exact Hw | reflexivity].
    + apply IH; [exact H1 | reflexivity].
Qed.

Lemma run_cycle_results (w : World) (fetched : list (string * Q))
    (env : string -> Tick) rs :
  Inv (on_bot (fun b =>
         set_prices (set_total_api_calls b (total_api_calls b + 1)%Z) fetched) w) ->
  (run_cycle cfg sid w fetched env).2 = Ok rs ->
  Forall (fun x => Good x.2) rs.
Proof.
  intros Hw. unfold run_cycle. destruct fetched.
  - simpl. intros [= <-]. constructor.
  - apply scan_loop_results, Hw.
Qed.
End CycleResults.

Lemma stop_loss_shadowed (cfg : Config) (current_prices : list (string * Q))
    (now : Q) (s : string) (p : Position) :
  0 <= TRAILING_STOP_PCT cfg -> TRAILING_STOP_PCT cfg <= STOP_LOSS_PCT cfg ->
  TRAILING_STOP_PCT cfg <= 1 ->
  sound_position p -> 0 <= entry_price p ->
  exits cfg current_prices now (s, p) <> Some STOP_LOSS.
Proof.
  intros Ht0 Hts Ht1 (_ & _ & _ & Hb & Hl) He Hex.
  unfold exits, tracked in Hex. cbn [fst snd] in Hex.
  set (x := price_for current_prices (s, p)) in *.
  destruct (exit_rule_priority cfg (track_peak p x) x now) as (_ & Hsl & _).
  apply Hsl in Hex as [Hnt Hst]. apply Hnt.
  destruct (track_peak_fields p x) as (E1 & _ & _ & _ & E5 & Hup & Hdn).
  unfold trailing_hit, stop_hit in *. rewrite E1, E5 in *.
  assert (Hse : 0 <= entry_price p * (STOP_LOSS_PCT cfg - TRAILING_STOP_PCT cfg))
    by (apply Qmult_le_0_compat; lra).
  destruct Hst as [[Hbuy Hx]|[Hsell Hx]]; [left | right]; (split; [assumption|]).
  - destruct (Hup Hbuy) as [Hpk _]. specialize (Hb Hbuy).
    assert (0 <= (peak_price (track_peak p x) - entry_price p)
                 * (1 - TRAILING_STOP_PCT cfg))
      by (apply Qmult_le_0_compat; lra).
    lra.
  - assert (Hnb : side p <> BUY) by congruence.
    destruct (Hdn Hnb) as [Hpk _]. specialize (Hl Hsell).
    assert (0 <= (entry_price p - peak_price (track_peak p x))
                 * (1 + TRAILING_STOP_PCT cfg))
      by (apply Qmult_le_0_compat; lra).
    lra.
Qed.

Lemma manage_positions_reason (cfg : Config) (sid : string) (w : World)
    (current_prices : list (string * Q)) (now : Q) (res : Q * action * reason) :
  Dict.wf (positions (bot w)) ->
  (manage_positions cfg sid w current_prices now).2 = Ok res ->
  res.2 = NA \/
  exists s p, (s, p) ∈ positions (bot w) /\
              exits cfg current_prices now (s, p) = Some res.2.
Proof.
  intros Hwf Hres.
  destruct (first_hit_split (exits cfg current_prices now) (positions (bot w)))
    as [Hnone | (l1 & [s p] & l2 & r & Hps & Hnone & Hr)].
  - rewrite (manage_positions_none cfg sid w current_prices now Hwf Hnone) in Hres.
    cbn [snd] in Hres. injection Hres as <-. left. reflexivity.
  - destruct (manage_positions_hit cfg sid w current_prices now l1 s p l2 r
                Hwf Hps Hnone Hr) as [[pnl Hres0] _].
    rewrite Hres0 in Hres. injection Hres as <-. right. exists s, p.
    split; [|exact Hr]. rewrite Hps. apply elem_of_app. right.
    apply list_elem_of_here.
Qed.

Lemma run_events_reachable (cfg : Config) (sid : string) (now : Q) (fs : FileSys)
    (events : list Event) :
  reachable cfg sid (run_events cfg sid {| bot := init cfg now; disk := fs |} events).
Proof.
  exists now, fs. induction events as [|e events IH] using rev_ind.
  - apply rtc_refl.
  - unfold run_events in *. rewrite fold_left_app. cbn [fold_left].
    eapply rtc_r; [exact IH|]. destruct e; cbn [run_event].
    + apply step_run_cycle.
    + apply step_deposit_funds.
Qed.

Lemma run_events_solvent (cfg : Config) (sid : string) (now : Q) (fs : FileSys)
    (events : list Event) :
  sane_config cfg -> Forall positive_quotes events ->
  solvent (run_events cfg sid {| bot := init cfg now; disk := fs |} events).
Proof.
  intros Hcfg Hq. induction events as [|e events IH] using rev_ind.
  - destruct Hcfg as (_ & _ & H0). repeat split; try constructor. exact H0.
  - apply Forall_app in Hq as [Hq He]. apply Forall_cons in He as [He _].
    unfold run_events. rewrite fold_left_app. cbn [fold_left].
    specialize (IH Hq). unfold run_events in IH.
    destruct e as [fetched env | amount t]; cbn [run_event].
    + apply solvent_run_cycle; assumption.
    + apply solvent_deposit_funds, IH.
Qed.

Lemma run_events_priced (cfg : Config) (sid : string) (now : Q) (fs : FileSys)
    (events : list Event) :
  priced_book (run_events cfg sid {| bot := init cfg now; disk := fs |} events).
Proof.
  induction events as [|e events IH] using rev_ind.
  - split; [split; [apply NoDup_nil_2 | constructor] | constructor].
  - unfold run_events in *. rewrite fold_left_app. cbn [fold_left].
    destruct e as [fetched env | amount t]; cbn [run_event].
    + apply priced_book_run_cycle, IH.
    + eapply priced_book_same; [|exact IH]. apply deposit_funds_fields.
Qed.

Lemma priced_no_stop_loss (cfg : Config) (sid : string) (w : World)
    (current_prices : list (string * Q)) (now : Q) (res : Q * action * reason) :
  0 <= TRAILING_STOP_PCT cfg -> TRAILING_STOP_PCT cfg <= STOP_LOSS_PCT cfg ->
  TRAILING_STOP_PCT cfg <= 1 ->
  priced_book w ->
  (manage_positions cfg sid w current_prices now).2 = Ok res ->
  res.2 <> STOP_LOSS.
Proof.
  intros Ht0 Hts Ht1 [[Hwf Hsound] Hentry] Hres.
  destruct (manage_positions_reason cfg sid w current_prices now res Hwf Hres)
    as [-> | (s & p & Hin & Hex)]; [discriminate|].
  intros Heq. rewrite Heq in Hex.
  rewrite Forall_forall in Hsound, Hentry.
  specialize (Hsound _ Hin). specialize (Hentry _ Hin).
  apply (stop_loss_shadowed cfg current_prices now s p Ht0 Hts Ht1 Hsound); [|exact Hex].
  simpl in Hentry. lra.
Qed.

(** X15. When 0 <= TRAILING_STOP_PCT <= STOP_LOSS_PCT and
    TRAILING_STOP_PCT <= 1 (the defaults are 0.02 and 0.03), the hard stop
    loss never fires in a running engine, that is an engine started by
    [BotManager()] and driven by any cycles and deposits: whenever a price
    has crossed the hard stop of a position, the trailing stop, tried first,
    already holds, because the loop opens positions at positive prices only,
    a LONG's peak is never below its entry price and a SHORT's never above.
    No call of [manage_positions], on any snapshot, and no cycle reports the
    reason STOP_LOSS. *)
Theorem stop_loss_never_reported (cfg : Config) (sid : string) (now : Q)
    (fs : FileSys) (events : list Event) (fetched : list (string * Q))
    (env : string -> Tick) :
  0 <= TRAILING_STOP_PCT cfg -> TRAILING_STOP_PCT cfg <= STOP_LOSS_PCT cfg ->
  TRAILING_STOP_PCT cfg <= 1 ->
  let w := run_events cfg sid {| bot := init cfg now; disk := fs |} events in
  (forall current_prices t pnl a r,
     (manage_positions cfg sid w current_prices t).2 = Ok (pnl, a, r) ->
     r <> STOP_LOSS) /\
  (forall rs,
     (run_cycle cfg sid w fetched env).2 = Ok rs ->
     Forall (fun x => x.2.2 <> STOP_LOSS) rs).
Proof.
  intros Ht0 Hts Ht1 w.
  assert (Hg : priced_book w) by apply run_events_priced.
  split.
  - intros current_prices t pnl a r Hres.
    apply (priced_no_stop_loss cfg sid w current_prices t (pnl, a, r)
             Ht0 Hts Ht1 Hg Hres).
  - intros rs Hrs.
    apply (run_cycle_results cfg sid priced_book (fun res => res.2 <> STOP_LOSS))
      with (w := w) (fetched := fetched) (env := env); [..|exact Hrs].
    + intros w1 s p r H. eapply priced_book_same; [|exact H].
      apply calculate_bue_value_positions.
    + intros w1 s sg p d t H Hp. apply priced_book_execute_trade; assumption.
    + intros w1 t H. apply priced_book_manage_positions, H.
    + intros w1 ps H. eapply priced_book_same; [|exact H]. reflexivity.
    + intros w1 rd H. eapply priced_book_same; [|exact H].
      apply log_to_csv_positions.
    + intros w1 t res Hw1 Hres.
      apply (priced_no_stop_loss cfg sid w1 (prices (bot w1)) t res
               Ht0 Hts Ht1 Hw1 Hres).
    + eapply priced_book_same; [|exact Hg]. reflexivity.
Qed.

Lemma stop_loss_never_reported_witness :
  match (run_cycle default_config "20250607_120000"
           (run_events default_config "20250607_120000" fresh_world
              [DepositFunds 500 1; Cycle [("BTC"%string, 100)] (quiet 2)])
           [("BTC"%string, 50)] (quiet 3)).2 with
  | Ok rs => Forall (fun x => x.2.2 <> STOP_LOSS) rs
  | Raise _ => True
  end.
Proof.
  destruct (stop_loss_never_reported default_config "20250607_120000" 0 fresh_log
              [DepositFunds 500 1; Cycle [("BTC"%string, 100)] (quiet 2)]
              [("BTC"%string, 50)] (quiet 3)) as [_ H].
  - vm_compute. discriminate.
  - vm_compute. discriminate.
  - vm_compute. discriminate.
  - destruct (run_cycle _ _ _ _ _).2 as [rs|e]; [|exact I].
    apply H. reflexivity.
Defined.

(** ** A position whose symbol is missing from the snapshot *)

(** X16. With STOP_LOSS_PCT > 0 and TAKE_PROFIT_PCT > 0, a position of a
    running engine (started by [BotManager()], driven by any cycles and
    deposits) whose symbol the snapshot does not quote is valued at its entry
    price: it adds nothing to the unrealized P&L of the equity, neither the
    hard stop loss nor the take profit is the rule that closes it (only the
    trailing stop or its age can be), and closing it at that price reports a
    net P&L of minus the exit fee, the committed value times FEE_PCT. *)
Theorem stale_position_at_entry_price (cfg : Config) (sid : string) (now0 : Q)
    (fs : FileSys) (events : list Event)
    (current_prices : list (string * Q)) (now : Q) (s : string) (p : Position) :
  0 < STOP_LOSS_PCT cfg -> 0 < TAKE_PROFIT_PCT cfg ->
  let w := run_events cfg sid {| bot := init cfg now0; disk := fs |} events in
  (s, p) ∈ positions (bot w) ->
  Dict.get current_prices s = None ->
  price_for current_prices (s, p) = entry_price p /\
  unrealized current_prices (s, p) == 0 /\
  exits cfg current_prices now (s, p) <> Some STOP_LOSS /\
  exits cfg current_prices now (s, p) <> Some TAKE_PROFIT /\
  (forall r t,
     (close_position cfg sid w s (price_for current_prices (s, p)) r t).2.1.1
       == - (trade_value p * FEE_PCT cfg)).
Proof.
  intros Hsl Htp w Hin Hg.
  destruct (run_events_priced cfg sid now0 fs events) as [[Hwf Hsound] Hentry].
  fold w in Hwf, Hsound, Hentry.
  rewrite Forall_forall in Hsound, Hentry.
  pose proof (Hsound _ Hin) as Hs. pose proof (Hentry _ Hin) as He.
  cbn [snd] in Hs, He.
  assert (Hx : price_for current_prices (s, p) = entry_price p).
  { unfold price_for, Dict.get_default. simpl. now rewrite Hg. }
  pose proof Hs as (_ & _ & Hq & _).
  assert (H1 : 0 < entry_price p * STOP_LOSS_PCT cfg)
    by (apply Qmult_lt_0_compat; assumption).
  assert (H2 : 0 < entry_price p * TAKE_PROFIT_PCT cfg)
    by (apply Qmult_lt_0_compat; assumption).
  destruct (track_peak_fields p (entry_price p)) as (E1 & _ & _ & _ & E5 & _).
  split; [exact Hx|]. split; [|split; [|split]].
  - apply unrealized_at_entry; [exact Hs | rewrite Hx; reflexivity].
  - intros Hex. unfold exits, tracked in Hex. cbn [fst snd] in Hex.
    rewrite Hx in Hex.
    destruct (exit_rule_priority cfg (track_peak p (entry_price p)) (entry_price p) now)
      as (_ & Hp & _).
    apply Hp in Hex as [_ Hst]. unfold stop_hit in Hst. rewrite E1 in Hst.
    destruct Hst as [[_ H]|[_ H]]; lra.
  - intros Hex. unfold exits, tracked in Hex. cbn [fst snd] in Hex.
    rewrite Hx in Hex.
    destruct (exit_rule_priority cfg (track_peak p (entry_price p)) (entry_price p) now)
      as (_ & _ & Hp & _).
    apply Hp in Hex as (_ & _ & Hst). unfold take_hit in Hst. rewrite E1 in Hst.
    destruct Hst as [[_ H]|[_ H]]; lra.
  - intros r t. rewrite Hx.
    pose proof (dict_in_get _ _ _ Hwf Hin) as Hpos.
    destruct (close_position_effect cfg sid w s (entry_price p) r t p Hpos)
      as (-> & _). cbn [fst snd].
    destruct (side p); rewrite ?Hq; ring.
Qed.

Lemma stale_position_at_entry_price_witness :
  let w :=
    run_events default_config "20250607_120000" fresh_world
      (replicate 5
         (Cycle [("BTC"%string, 100)] (fun _ => {| noise := 2 # 100; clock := 1 |}))) in
  exists p,
    Dict.get (positions (bot w)) "BTC" = Some p /\
    exits default_config [("ETH"%string, 90)] 2 ("BTC"%string, p) <> Some STOP_LOSS /\
    unrealized [("ETH"%string, 90)] ("BTC"%string, p) == 0.
Proof.
  intros w.
  destruct (Dict.get (positions (bot w)) "BTC") as [p|] eqn:Hg;
    [|vm_compute in Hg; discriminate].
  exists p. split; [reflexivity|].
  destruct (stale_position_at_entry_price default_config "20250607_120000" 0
              fresh_log
              (replicate 5
                 (Cycle [("BTC"%string, 100)]
                    (fun _ => {| noise := 2 # 100; clock := 1 |})))
              [("ETH"%string, 90)] 2 "BTC" p)
    as (_ & Hu & Hs & _).
  - reflexivity.
  - reflexivity.
  - apply dict_get_Some_in. exact Hg.
  - reflexivity.
  - split; [exact Hs | exact Hu].
Defined.

(** ** The division of execute_trade *)



(** ** What a take-profit closure realizes, and what a quiet call means *)

(** What [manage_positions] returns when it closes a position. *)
Lemma manage_positions_hit_pnl (cfg : Config) (sid : string) (w : World)
    (current_prices : list (string * Q)) (now : Q)
    (l1 : list (string * Position)) (s : string) (p : Position)
    (l2 : list (string * Position)) (r : reason) :
  Dict.wf (positions (bot w)) ->
  positions (bot w) = l1 ++ (s, p) :: l2 ->
  Forall (fun item => exits cfg current_prices now item = None) l1 ->
  exits cfg current_prices now (s, p) = Some r ->
  let x := price_for current_prices (s, p) in
  (manage_positions cfg sid w current_prices now).2 =
    Ok (match side p with
        | BUY => quantity p * x - trade_value p - quantity p * x * FEE_PCT cfg
        | _ => trade_value p - quantity p * x - trade_value p * FEE_PCT cfg
        end, CLOSE (side p), r).
Proof.
  intros Hwf Hps Hall Hr x.
  destruct (manage_positions_cases cfg sid w current_prices now Hwf)
    as [[Hnone _] | (l1' & s' & p' & l2' & r' & Hps' & Hall' & Hr' & Hman)].
  { rewrite Hps in Hnone. apply Forall_app in Hnone as [_ Hn].
    apply Forall_cons in Hn as [Hn _]. congruence. }
  assert (Hsame : l1' = l1 /\ s' = s /\ p' = p /\ l2' = l2 /\ r' = r).
  { rewrite Hps in Hps'. clear Hman Hps.
    revert l1' Hps' Hall'. induction l1 as [|a l1 IH]; intros l1' Hps' Hall'.
    - destruct l1' as [|a' l1'].
      + injection Hps' as <- <- <-. rewrite Hr in Hr'. injection Hr' as <-. auto.
      + injection Hps' as <- _. apply Forall_cons in Hall' as [Ha _]. congruence.
    - apply Forall_cons in Hall as [Ha Hall]. destruct l1' as [|a' l1'].
      + injection Hps' as -> _. congruence.
      + injection Hps' as <- Hps'. apply Forall_cons in Hall' as [_ Hall'].
        destruct (IH Hall l1' Hps' Hall') as (-> & H). split; [reflexivity | exact H]. }
  destruct Hsame as (-> & -> & -> & -> & ->).
  rewrite Hman. fold x.
  assert (Hk : s ∉ Dict.keys (map (tracked current_prices) l1)).
  { rewrite keys_tracked. unfold Dict.wf in Hwf. rewrite Hps in Hwf.
    apply (NoDup_keys_mid _ _ _ _ Hwf). }
  set (w1 := with_positions w _).
  assert (Hg : Dict.get (positions (bot w1)) s = Some (track_peak p x)).
  { subst w1. simpl. apply (dict_get_app_mid _ _ _ _ Hk). }
  destruct (close_position_effect cfg sid w1 s x r now _ Hg) as (Hres & _).
  destruct (close_position cfg sid w1 s x r now) as [w2 res].
  cbn [fst snd] in *. subst res.
  destruct (track_peak_fields p x) as (_ & E2 & E3 & _ & E5 & _).
  rewrite E2, E3, E5. destruct (side p); reflexivity.
Qed.

(** The gain a position has made when the take profit holds. *)
Lemma take_profit_bound (cfg : Config) (current_prices : list (string * Q))
    (now : Q) (s : string) (p : Position) :
  quantity p * entry_price p == trade_value p -> 0 <= quantity p ->
  exits cfg current_prices now (s, p) = Some TAKE_PROFIT ->
  let x := price_for current_prices (s, p) in
  trade_value p * TAKE_PROFIT_PCT cfg
  - match side p with
    | BUY => quantity p * x * FEE_PCT cfg
    | _ => trade_value p * FEE_PCT cfg
    end
  <= match side p with
     | BUY => quantity p * x - trade_value p - quantity p * x * FEE_PCT cfg
     | _ => trade_value p - quantity p * x - trade_value p * FEE_PCT cfg
     end.
Proof.
  intros Hq Hq0 Hex x.
  unfold exits, tracked in Hex. cbn [fst snd] in Hex. fold x in Hex.
  destruct (exit_rule_priority cfg (track_peak p x) x now) as (_ & _ & Hp & _).
  apply Hp in Hex as (_ & _ & Htake).
  destruct (track_peak_fields p x) as (E1 & _ & _ & _ & E5 & _).
  unfold take_hit in Htake. rewrite E1, E5 in Htake.
  destruct Htake as [[Hb Hx]|[Hs Hx]].
  - rewrite Hb.
    assert (A : 0 <= quantity p * (x - entry_price p * (1 + TAKE_PROFIT_PCT cfg)))
      by (apply Qmult_le_0_compat; lra).
    assert (B : quantity p * (x - entry_price p * (1 + TAKE_PROFIT_PCT cfg)) ==
                quantity p * x - trade_value p * (1 + TAKE_PROFIT_PCT cfg))
      by (rewrite <- Hq; ring).
    rewrite B in A. lra.
  - rewrite Hs.
    assert (A : 0 <= quantity p * (entry_price p * (1 - TAKE_PROFIT_PCT cfg) - x))
      by (apply Qmult_le_0_compat; lra).
    assert (B : quantity p * (entry_price p * (1 - TAKE_PROFIT_PCT cfg) - x) ==
                trade_value p * (1 - TAKE_PROFIT_PCT cfg) - quantity p * x)
      by (rewrite <- Hq; ring).
    rewrite B in A. lra.
Qed.

(** X18. With RISK_PER_TRADE <= 1, FEE_PCT <= 1 and PORTFOLIO_INITIAL >= 0,
    in an engine started by [BotManager()] and driven by deposits and by
    cycles whose snapshots quote only positive prices: when a call of
    [manage_positions], on any snapshot, reports the reason TAKE_PROFIT, it
    has closed the first position, in the order of the dict, that meets an
    exit rule, and the net P&L it returns is at least the committed value of
    that position times TAKE_PROFIT_PCT, less the exit fee (the fee rate
    times the proceeds: quantity times price for a LONG, the committed value
    for a SHORT). *)
Theorem take_profit_realises (cfg : Config) (sid : string) (now0 : Q)
    (fs : FileSys) (events : list Event)
    (current_prices : list (string * Q)) (now : Q) (pnl : Q) (a : action) :
  sane_config cfg ->
  Forall positive_quotes events ->
  let w := run_events cfg sid {| bot := init cfg now0; disk := fs |} events in
  (manage_positions cfg sid w current_prices now).2 = Ok (pnl, a, TAKE_PROFIT) ->
  exists l1 s p l2,
    positions (bot w) = l1 ++ (s, p) :: l2 /\
    Forall (fun item => exits cfg current_prices now item = None) l1 /\
    exits cfg current_prices now (s, p) = Some TAKE_PROFIT /\
    a = CLOSE (side p) /\
    let x := price_for current_prices (s, p) in
    let exit_fee :=
      match side p with
      | BUY => quantity p * x * FEE_PCT cfg
      | _ => trade_value p * FEE_PCT cfg
      end in
    trade_value p * TAKE_PROFIT_PCT cfg - exit_fee <= pnl.
Proof.
  intros Hcfg Hq w Hres.
  destruct (reachable_sound_book cfg sid w (run_events_reachable cfg sid now0 fs events))
    as [Hwf Hsound].
  destruct (run_events_solvent cfg sid now0 fs events Hcfg Hq) as (_ & _ & Hsolv & _).
  fold w in Hsolv.
  destruct (first_hit_split (exits cfg current_prices now) (positions (bot w)))
    as [Hnone | (l1 & [s p] & l2 & r & Hps & Hnone & Hr)].
  { rewrite (manage_positions_none cfg sid w current_prices now Hwf Hnone) in Hres.
    discriminate. }
  rewrite (manage_positions_hit_pnl cfg sid w current_prices now l1 s p l2 r
             Hwf Hps Hnone Hr) in Hres.
  injection Hres as <- <- ->.
  exists l1, s, p, l2. split; [exact Hps|]. split; [exact Hnone|].
  split; [exact Hr|]. split; [reflexivity|].
  assert (Hin : (s, p) ∈ positions (bot w)).
  { rewrite Hps. apply elem_of_app. right. apply list_elem_of_here. }
  rewrite Forall_forall in Hsound, Hsolv.
  destruct (Hsound _ Hin) as (_ & _ & Hqe & _).
  destruct (Hsolv _ Hin) as (Hq0 & _).
  apply (take_profit_bound cfg current_prices now s p Hqe Hq0 Hr).
Qed.

Lemma take_profit_realises_witness :
  let w :=
    run_events default_config "20250607_120000" fresh_world
      (replicate 5
         (Cycle [("BTC"%string, 100)] (fun _ => {| noise := 2 # 100; clock := 1 |}))) in
  match (manage_positions default_config "20250607_120000" w
           [("BTC"%string, 110)] 2).2 with
  | Ok (pnl, a, TAKE_PROFIT) => 2 <= pnl
  | _ => False
  end.
Proof.
  intros w.
  destruct (manage_positions default_config "20250607_120000" w
              [("BTC"%string, 110)] 2).2 as [[[pnl a] r]|e] eqn:Hres;
    [|vm_compute in Hres; discriminate].
  assert (Hr : r = TAKE_PROFIT) by (vm_compute in Hres; congruence).
  subst r.
  destruct (take_profit_realises default_config "20250607_120000" 0 fresh_log
              (replicate 5
                 (Cycle [("BTC"%string, 100)]
                    (fun _ => {| noise := 2 # 100; clock := 1 |})))
              [("BTC"%string, 110)] 2 pnl a)
    as (l1 & s & p & l2 & Hps & _ & _ & _ & Hbound).
  - repeat split; vm_compute; discriminate.
  - repeat constructor.
  - exact Hres.
  - cbv zeta in Hbound.
    assert (Hp : l1 = [] /\ s = "BTC"%string /\
                 quantity p == 4995 # 10000 /\ trade_value p == 4995 # 100 /\
                 side p = BUY).
    { change (positions (bot w) = l1 ++ (s, p) :: l2) in Hps.
      vm_compute in Hps. destruct l1 as [|i l1].
      - injection Hps as <- <- _. repeat split; reflexivity.
      - injection Hps as _ Hl. destruct l1; discriminate. }
    destruct Hp as (-> & -> & Hq & Htv & Hside).
    rewrite Hside in Hbound.
    assert (Hx : price_for [("BTC"%string, 110)] ("BTC"%string, p) == 110)
      by reflexivity.
    rewrite Hx, Hq, Htv in Hbound.
    eapply Qle_trans; [|exact Hbound]. vm_compute. discriminate.
Defined.

(** X19. When a call of [manage_positions] reports no closure, no open
    position meets any exit rule at its updated peak: in particular every
    open position is younger than TRADE_DURATION seconds. *)
Theorem no_closure_means_no_rule (cfg : Config) (sid : string) (w : World)
    (current_prices : list (string * Q)) (now : Q) (pnl : Q) (r : reason) :
  Dict.wf (positions (bot w)) ->
  (manage_positions cfg sid w current_prices now).2 = Ok (pnl, NONE, r) ->
  forall s p,
    (s, p) ∈ positions (bot w) ->
    let x := price_for current_prices (s, p) in
    now - timestamp p < inject_Z (TRADE_DURATION cfg) /\
    ~ trailing_hit cfg (track_peak p x) x /\
    ~ stop_hit cfg (track_peak p x) x /\
    ~ take_hit cfg (track_peak p x) x.
Proof.
  intros Hwf Hres s p Hin x.
  destruct (first_hit_split (exits cfg current_prices now) (positions (bot w)))
    as [Hnone | (l1 & [s0 p0] & l2 & r0 & Hps & Hnone & Hr)].
  - rewrite Forall_forall in Hnone. specialize (Hnone _ Hin).
    unfold exits, tracked in Hnone. cbn [fst snd] in Hnone. fold x in Hnone.
    destruct (exit_rule_priority cfg (track_peak p x) x now) as (_ & _ & _ & _ & Hp).
    apply Hp in Hnone as (H1 & H2 & H3 & H4).
    destruct (track_peak_fields p x) as (_ & _ & _ & E4 & _).
    unfold timed_hit in H4. rewrite E4 in H4.
    split; [|auto]. apply Qnot_le_lt. exact H4.
  - destruct (manage_positions_hit cfg sid w current_prices now l1 s0 p0 l2 r0
                Hwf Hps Hnone Hr) as [[pnl0 Hres0] _].
    rewrite Hres0 in Hres. discriminate.
Qed.

Lemma no_closure_means_no_rule_witness :
  1 - timestamp long_at_100 < inject_Z (TRADE_DURATION default_config).
Proof.
  assert (Hwf : Dict.wf (positions (bot two_longs))).
  { unfold Dict.wf. apply (bool_decide_unpack _). vm_compute. exact I. }
  apply (no_closure_means_no_rule default_config "20250607_120000" two_longs
           [("BTC"%string, 101); ("ETH"%string, 99)] 1 0 NA Hwf
           ltac:(vm_compute; reflexivity) "BTC"%string long_at_100).
  apply list_elem_of_here.
Defined.
